(** * Flow compensation: a shallow embedding of [flow_compensator.py]

    The development follows the two classes of the script, [GCodeParser]
    (the move tracker) and [FlowCompensator] (the compensation engine), and
    the line loop of [main].

    Conventions of the embedding:
    - a Python [float] is an exact rational ([Q]); the rounding of IEEE
      arithmetic is not modelled, comparisons are those of [Q] ([==], [<]);
      [float('inf')] is a separate constructor where the code uses it.
      This leaves out the rounding of a result, the [OverflowError] of
      [**], and [inf] and [nan] as results of an operation; a property of
      a result is therefore stated for the calls that return;
    - a line of G-code is a [list ascii]: the character classes of [re] and
      of [str] ([\d], white space, [upper]) are taken on the ASCII range;
    - a Python exception is a constructor of [exn], and a method that can
      raise returns a [result];
    - a [dict] indexed by tool number is a [gmap Z _], the position
      dictionary is a [gmap string Q], and a dictionary whose iteration
      order matters (the YAML configuration) is an association list. *)

From Stdlib Require Import QArith Qabs Qround Lia Lqa String Ascii List Permutation Sorted.
From Stdlib Require Reals Machin Qreals Lra.
From stdpp Require Import gmap strings.

Open Scope Q_scope.

(** ** Exceptions *)

Inductive exn : Type := ValueError | KeyError | TypeError.

Inductive result (A : Type) : Type :=
| Ok (a : A)
| Raise (e : exn).
Arguments Ok {A} a.
Arguments Raise {A} e.

#[global] Instance result_ret : MRet result := fun A a => Ok a.
#[global] Instance result_bind : MBind result := fun A B f m =>
  match m with
  | Ok a => f a
  | Raise e => Raise e
  end.

Definition returns {A} (m : result A) : Prop := exists a, m = Ok a.

(** ** Numbers *)

Definition Qltb (a b : Q) : bool := negb (Qle_bool b a).

(** Python's [max(a, b)] keeps [a] unless [b > a]; [min(a, b)] keeps [a]
    unless [b < a]. *)
Definition py_max (a b : Q) : Q := if Qltb a b then b else a.
Definition py_min (a b : Q) : Q := if Qltb b a then b else a.

(** A float that may be [float('inf')] (the initial value of the running
    minima of the statistics). *)
Inductive xfloat : Type := Inf | Fin (q : Q).

Definition xmin (a : xfloat) (b : Q) : xfloat :=
  match a with
  | Inf => Fin b
  | Fin q => Fin (py_min q b)
  end.

(** ** Characters and the regular expressions of the parser *)

Definition is_digit (c : ascii) : bool :=
  (48 <=? nat_of_ascii c)%nat && (nat_of_ascii c <=? 57)%nat.

Definition is_sign (c : ascii) : bool :=
  Ascii.eqb c "-" || Ascii.eqb c "+".

(** [str.isspace] on the ASCII range: tab, LF, VT, FF, CR, FS, GS, RS, US
    and the space. *)
Definition is_space (c : ascii) : bool :=
  let n := nat_of_ascii c in
  ((9 <=? n)%nat && (n <=? 13)%nat) || ((28 <=? n)%nat && (n <=? 32)%nat).

Fixpoint span_digits (s : list ascii) : list ascii * list ascii :=
  match s with
  | c :: r =>
      if is_digit c then
        let '(d, t) := span_digits r in (c :: d, t)
      else ([], s)
  | [] => ([], [])
  end.

(** The sub-pattern [\d*\.?\d+] at the head of [s]: the matched text and the
    text left over.  With the greedy quantifiers of [re], the match is the
    longest run of digits, followed by a dot and a further non-empty run when
    both are there; a run of digits alone otherwise (the engine backtracks
    one digit out of [\d*] to feed [\d+]). *)
Definition unsigned_match (s : list ascii) : option (list ascii * list ascii) :=
  let '(d1, r1) := span_digits s in
  let plain := match d1 with [] => None | _ => Some (d1, r1) end in
  match r1 with
  | "."%char :: r2 =>
      let '(d2, r3) := span_digits r2 in
      match d2 with
      | [] => plain
      | _ => Some (d1 ++ "."%char :: d2, r3)
      end
  | _ => plain
  end.

(** The group [([\-+]?\d*\.?\d+)] at the head of [s]. *)
Definition number_match (s : list ascii) : option (list ascii * list ascii) :=
  match s with
  | c :: r =>
      if is_sign c then
        match unsigned_match r with
        | Some (m, t) => Some (c :: m, t)
        | None => None
        end
      else unsigned_match s
  | [] => None
  end.

(** [re.compile(letters + number).search(s)]: the text before the leftmost
    match, the letter, the captured number and the text after the match. *)
Fixpoint re_search (letter : ascii -> bool) (s : list ascii)
  : option (list ascii * ascii * list ascii * list ascii) :=
  match s with
  | [] => None
  | c :: r =>
      let next :=
        match re_search letter r with
        | Some (pre, l, g, post) => Some (c :: pre, l, g, post)
        | None => None
        end in
      if letter c then
        match number_match r with
        | Some (g, post) => Some ([], c, g, post)
        | None => next
        end
      else next
  end.

(** The scan shared by [findall] and [sub]: matches are taken from left to
    right and do not overlap, so after a match the scan resumes behind it
    ([skip] counts the characters of the match still to be passed over). *)
Inductive segment : Type :=
| Lit (c : ascii)
| Field (letter : ascii) (g : list ascii).

Fixpoint re_scan (letter : ascii -> bool) (skip : nat) (s : list ascii) : list segment :=
  match s with
  | [] => []
  | c :: r =>
      match skip with
      | S k => re_scan letter k r
      | O =>
          if letter c then
            match number_match r with
            | Some (g, _) => Field c g :: re_scan letter (length g) r
            | None => Lit c :: re_scan letter 0 r
            end
          else Lit c :: re_scan letter 0 r
      end
  end.

Definition re_findall (letter : ascii -> bool) (s : list ascii) : list (ascii * list ascii) :=
  flat_map (fun sg => match sg with Lit _ => [] | Field l g => [(l, g)] end)
           (re_scan letter 0 s).

(** [pattern.sub(repl, s)] with a callable [repl], which receives the
    captured number of each match and may raise. *)
Fixpoint subst_segments (repl : list ascii -> result (list ascii)) (segs : list segment)
  : result (list ascii) :=
  match segs with
  | [] => Ok []
  | Lit c :: r => t ← subst_segments repl r; mret (c :: t)
  | Field _ g :: r => h ← repl g; t ← subst_segments repl r; mret (h ++ t)
  end.

Definition re_sub (letter : ascii -> bool) (repl : list ascii -> result (list ascii))
           (s : list ascii) : result (list ascii) :=
  subst_segments repl (re_scan letter 0 s).

Definition is_E (c : ascii) : bool := Ascii.eqb c "E".
Definition is_F (c : ascii) : bool := Ascii.eqb c "F".
Definition is_XYZ (c : ascii) : bool := Ascii.eqb c "X" || Ascii.eqb c "Y" || Ascii.eqb c "Z".

(** [G1_PATTERN = re.compile(r'^G[01]')], used through [.match(line)]. *)
Definition G1_PATTERN_match (line : list ascii) : bool :=
  match line with
  | "G"%char :: c :: _ => Ascii.eqb c "0" || Ascii.eqb c "1"
  | _ => false
  end.

(** [TOOL_CHANGE_PATTERN = re.compile(r'^T(\d+)')]: the captured digits. *)
Definition TOOL_CHANGE_PATTERN_match (line : list ascii) : option (list ascii) :=
  match line with
  | "T"%char :: r =>
      match fst (span_digits r) with
      | [] => None
      | d => Some d
      end
  | _ => None
  end.

(** ** Decimal literals *)

Definition digit_val (c : ascii) : N := N_of_ascii c - 48.

Fixpoint pow10 (n : nat) : positive :=
  match n with
  | O => 1
  | S k => 10 * pow10 k
  end.

Definition digits_val (s : list ascii) : N :=
  fold_left (fun acc c => (acc * 10 + digit_val c)%N) s 0%N.

Definition all_digits (s : list ascii) : bool := forallb is_digit s.

(** [float(text)] on a plain decimal literal, [[sign] digits [. digits]] with
    a digit on at least one side of the dot: the only texts the patterns
    above capture.  The value is exact; other texts are reported as
    [ValueError]. *)
Definition unsigned_float (s : list ascii) : result Q :=
  let '(ip, r) := span_digits s in
  match r with
  | [] =>
      match ip with
      | [] => Raise ValueError
      | _ => Ok (Z.of_N (digits_val ip) # 1)
      end
  | "."%char :: fp =>
      if all_digits fp && negb (Nat.eqb (length ip + length fp) 0) then
        Ok (Z.of_N (digits_val (ip ++ fp)) # pow10 (length fp))
      else Raise ValueError
  | _ => Raise ValueError
  end.

Definition py_float (s : list ascii) : result Q :=
  match s with
  | "-"%char :: r => v ← unsigned_float r; mret (- v)
  | "+"%char :: r => unsigned_float r
  | _ => unsigned_float s
  end.

(** ** The move tracker: [GCodeParser.parse_move] *)

Record MoveInfo : Type := {
  extrusion : Q;
  distance : Q;
  feedrate : Q
}.

(** [axis.lower()] for the letters of [XYZ_PATTERN]. *)
Definition axis_key (axis : ascii) : string :=
  if Ascii.eqb axis "X" then "x"
  else if Ascii.eqb axis "Y" then "y"
  else if Ascii.eqb axis "Z" then "z"
  else String axis EmptyString.

(** [d.get(k, dflt)] *)
Definition dict_get (d : gmap string Q) (k : string) (dflt : Q) : Q :=
  default dflt (d !! k).

(** The loop [for axis, value in xyz_matches: new_pos[axis.lower()] = float(value)]. *)
Fixpoint apply_axes (fields : list (ascii * list ascii)) (pos : gmap string Q)
  : result (gmap string Q) :=
  match fields with
  | [] => Ok pos
  | (axis, value) :: rest =>
      v ← py_float value;
      apply_axes rest (<[axis_key axis := v]> pos)
  end.

Section Tracker.

(** [math.sqrt] is a library function on floats; the tracker is
    parametric in it. *)
Variable math_sqrt : Q -> Q.

Definition parse_move (line : list ascii) (current_pos : gmap string Q)
           (current_feedrate : Q)
  : result (option MoveInfo * gmap string Q * Q) :=
  if negb (G1_PATTERN_match line) then
    Ok (None, current_pos, current_feedrate)
  else
    current_feedrate' ←
      match re_search is_F line with
      | Some (_, _, g, _) => py_float g
      | None => Ok current_feedrate
      end;
    new_pos ← apply_axes (re_findall is_XYZ line) current_pos;
    match re_search is_E line with
    | None => Ok (None, new_pos, current_feedrate')
    | Some (_, _, g, _) =>
        extrusion_amount ← py_float g;
        if Qeq_bool extrusion_amount 0 then
          Ok (None, new_pos, current_feedrate')
        else
          let dx := dict_get new_pos "x" (dict_get current_pos "x" 0)
                    - dict_get current_pos "x" 0 in
          let dy := dict_get new_pos "y" (dict_get current_pos "y" 0)
                    - dict_get current_pos "y" 0 in
          let dz := dict_get new_pos "z" (dict_get current_pos "z" 0)
                    - dict_get current_pos "z" 0 in
          let distance := math_sqrt (dx ^ 2 + dy ^ 2 + dz ^ 2) in
          let move_info := {| extrusion := Qabs extrusion_amount;
                              distance := distance;
                              feedrate := current_feedrate' |} in
          Ok (Some move_info,
              <["e"%string := dict_get current_pos "e" 0 + extrusion_amount]> new_pos,
              current_feedrate')
    end.

End Tracker.

(** ** The interpolant: [scipy.interpolate.PchipInterpolator]

    The class comes from SciPy, not from this repository.  It is modelled
    after the library's implementation: the validation of [prepare_input],
    the derivative estimates of [PchipInterpolator._find_derivatives]
    (weighted harmonic means inside, the three-point [_edge_case] at both
    ends), the coefficients of [CubicHermiteSpline] and the piecewise
    evaluation of [PPoly.__call__] with its default extrapolation. *)

Definition coeffs : Type := (Q * Q * Q * Q)%type.

Record PPoly : Type := {
  ppoly_x : list Q;       (* breakpoints, [spline.x] *)
  ppoly_c : list coeffs   (* one column [c[0..3]] per interval *)
}.

(** [np.diff] *)
Fixpoint diff (l : list Q) : list Q :=
  match l with
  | a :: ((b :: _) as r) => (b - a) :: diff r
  | _ => []
  end.

(** [np.sign] *)
Definition Qsign (q : Q) : Z := Z.sgn (Qnum q).

Definition edge_case (h0 h1 m0 m1 : Q) : Q :=
  let d := ((2 * h0 + h1) * m0 - h0 * m1) / (h0 + h1) in
  if negb (Qsign d =? Qsign m0)%Z then 0
  else if negb (Qsign m0 =? Qsign m1)%Z && Qltb (3 * Qabs m0) (Qabs d) then 3 * m0
  else d.

Definition inner_derivative (h0 h1 m0 m1 : Q) : Q :=
  if negb (Qsign m1 =? Qsign m0)%Z || Qeq_bool m1 0 || Qeq_bool m0 0 then 0
  else
    let w1 := 2 * h1 + h0 in
    let w2 := h1 + 2 * h0 in
    let whmean := (w1 / m0 + w2 / m1) / (w1 + w2) in
    1 / whmean.

Fixpoint inner_derivatives (hk mk : list Q) : list Q :=
  match hk, mk with
  | h0 :: ((h1 :: _) as hk'), m0 :: ((m1 :: _) as mk') =>
      inner_derivative h0 h1 m0 m1 :: inner_derivatives hk' mk'
  | _, _ => []
  end.

Definition find_derivatives (x y : list Q) : list Q :=
  let hk := diff x in
  let mk := zip_with Qdiv (diff y) hk in
  if (length y =? 2)%nat then [nth 0 mk 0; nth 0 mk 0]
  else
    let n := length hk in
    edge_case (nth 0 hk 0) (nth 1 hk 0) (nth 0 mk 0) (nth 1 mk 0)
    :: inner_derivatives hk mk
    ++ [edge_case (nth (n - 1) hk 0) (nth (n - 2) hk 0)
                  (nth (n - 1) mk 0) (nth (n - 2) mk 0)].

(** The columns built by [CubicHermiteSpline.__init__]. *)
Fixpoint hermite_coeffs (x y dydx : list Q) : list coeffs :=
  match x, y, dydx with
  | x0 :: ((x1 :: _) as x'), y0 :: ((y1 :: _) as y'), d0 :: ((d1 :: _) as d') =>
      let dxr := x1 - x0 in
      let slope := (y1 - y0) / dxr in
      let t := (d0 + d1 - 2 * slope) / dxr in
      (t / dxr, (slope - d0) / dxr - t, d0, y0) :: hermite_coeffs x' y' d'
  | _, _, _ => []
  end.

Definition PchipInterpolator (x y : list Q) : result PPoly :=
  if (length x <? 2)%nat then Raise ValueError
  else if negb (length x =? length y)%nat then Raise ValueError
  else if existsb (fun dx => Qle_bool dx 0) (diff x) then Raise ValueError
  else Ok {| ppoly_x := x; ppoly_c := hermite_coeffs x y (find_derivatives x y) |}.

Definition poly_eval (c : coeffs) (s : Q) : Q :=
  let '(c0, c1, c2, c3) := c in
  c0 * s ^ 3 + c1 * s ^ 2 + c2 * s + c3.

(** [spline(xp)]: the interval is the one with [x[i] <= xp < x[i+1]], the
    first one below [x[0]] and the last one from [x[-2]] on. *)
Fixpoint ppoly_eval (x : list Q) (c : list coeffs) (xp : Q) : Q :=
  match x, c with
  | x0 :: ((x1 :: _) as x'), c0 :: c' =>
      match c' with
      | [] => poly_eval c0 (xp - x0)
      | _ => if Qltb xp x1 then poly_eval c0 (xp - x0) else ppoly_eval x' c' xp
      end
  | _, _ => 0
  end.

Definition ppoly_call (s : PPoly) (xp : Q) : Q := ppoly_eval (ppoly_x s) (ppoly_c s) xp.

(** ** Configuration *)

(** A material profile of the YAML file: a dictionary with the keys [name]
    and [curve_points]; a key may be missing. *)
Record Profile : Type := {
  profile_name : option string;
  curve_points : option (list (Q * Q))
}.

(** Truth value of the dictionary: false when it has no key. *)
Definition profile_truthy (p : Profile) : bool :=
  match profile_name p, curve_points p with
  | None, None => false
  | _, _ => true
  end.

Record Config : Type := {
  materials : list (string * Profile);        (* [config.get('materials', {})] *)
  fallback_material : option string;          (* [auto_detect.fallback_material] *)
  extruder_mapping : list (string * string);  (* [config.get('extruder_mapping', {})] *)
  min_compensation : option Q;                (* [output.min_compensation] *)
  max_compensation : option Q;                (* [output.max_compensation] *)
  log_changes : option bool                   (* [output.log_changes] *)
}.

Fixpoint assoc_get {V} (k : string) (d : list (string * V)) : option V :=
  match d with
  | [] => None
  | (k', v) :: r => if String.eqb k k' then Some v else assoc_get k r
  end.

Definition upper_char (c : ascii) : ascii :=
  let n := nat_of_ascii c in
  if (97 <=? n)%nat && (n <=? 122)%nat then ascii_of_nat (n - 32) else c.

Fixpoint upper (s : string) : string :=
  match s with
  | EmptyString => EmptyString
  | String c r => String (upper_char c) (upper r)
  end.

(** [sorted(curve_points, key=lambda p: p[0])]: a stable sort on the flow
    rate. *)
Fixpoint insert_point (p : Q * Q) (l : list (Q * Q)) : list (Q * Q) :=
  match l with
  | [] => [p]
  | q :: r => if Qltb (fst q) (fst p) then q :: insert_point p r else p :: l
  end.

Definition sorted_points (l : list (Q * Q)) : list (Q * Q) :=
  fold_right insert_point [] l.

(** ** Formatting numbers *)

Definition digit_char (n : N) : ascii := ascii_of_N (48 + n).

(** The decimal digits of [n], least significant first; [fuel] bounds the
    number of digits. *)
Fixpoint N_digits_le (fuel : nat) (n : N) : list ascii :=
  match fuel with
  | O => []
  | S k =>
      digit_char (n mod 10)
      :: (if (n / 10 =? 0)%N then [] else N_digits_le k (n / 10))
  end.

Definition N_digits (n : N) : list ascii :=
  rev (N_digits_le (S (N.to_nat (N.log2 n))) n).

(** Exactly [d] digits, least significant first. *)
Fixpoint fixed_digits_le (d : nat) (n : N) : list ascii :=
  match d with
  | O => []
  | S k => digit_char (n mod 10) :: fixed_digits_le k (n / 10)
  end.

Definition fixed_digits (d : nat) (n : N) : list ascii := rev (fixed_digits_le d n).

(** [str(n)] for an [int]. *)
Definition Z_digits (n : Z) : list ascii :=
  if (n <? 0)%Z then "-"%char :: N_digits (Z.abs_N n) else N_digits (Z.abs_N n).

(** Rounding to the nearest integer, ties to even, of a non-negative
    rational. *)
Definition round_half_even (q : Q) : Z :=
  let f := Qfloor q in
  let r := q - inject_Z f in
  if Qltb r (1 # 2) then f
  else if Qltb (1 # 2) r then (f + 1)%Z
  else if Z.even f then f else (f + 1)%Z.

(** [f'{v:.<d>f}']: sign, integer part, and [d] decimals behind a dot. *)
Definition format_f (d : nat) (v : Q) : list ascii :=
  let n := Z.to_N (round_half_even (Qabs v * inject_Z (Zpos (pow10 d)))) in
  let ip := N_digits (n / Npos (pow10 d)) in
  let body :=
    match d with
    | O => ip
    | _ => ip ++ "."%char :: fixed_digits d (n mod Npos (pow10 d))
    end in
  if Qltb v 0 then "-"%char :: body else body.

(** [s.rstrip(chars)] and [s.strip()]. *)
Fixpoint rstrip (p : ascii -> bool) (s : list ascii) : list ascii :=
  match s with
  | [] => []
  | c :: r =>
      match rstrip p r with
      | [] => if p c then [] else [c]
      | r' => c :: r'
      end
  end.

Fixpoint lstrip (p : ascii -> bool) (s : list ascii) : list ascii :=
  match s with
  | [] => []
  | c :: r => if p c then lstrip p r else s
  end.

Definition strip (s : list ascii) : list ascii := rstrip is_space (lstrip is_space s).

(** ** The compensation engine: [FlowCompensator] *)

Record Stats : Type := {
  total_moves : Z;
  compensated_moves : Z;
  min_flow : xfloat;
  max_flow : Q;
  avg_flow : Q;
  total_flow : Q;
  min_multiplier : xfloat;
  max_multiplier : Q
}.

Record ToolProfile : Type := {
  material : string;
  profile : Profile;
  spline : PPoly
}.

Record FlowCompensator : Type := {
  config : Config;
  filament_diameter : option Q;
  filament_area : option Q;
  tool_profiles : gmap Z ToolProfile;
  active_tool : Z;
  stats : gmap Z Stats
}.

Definition new_stats : Stats :=
  {| total_moves := 0; compensated_moves := 0; min_flow := Inf; max_flow := 0;
     avg_flow := 0; total_flow := 0; min_multiplier := Inf; max_multiplier := 0 |}.

Definition with_stats (self : FlowCompensator) (st : gmap Z Stats) : FlowCompensator :=
  {| config := config self; filament_diameter := filament_diameter self;
     filament_area := filament_area self; tool_profiles := tool_profiles self;
     active_tool := active_tool self; stats := st |}.

Definition _init_stats_for_tool (self : FlowCompensator) (tool_num : Z) : FlowCompensator :=
  match stats self !! tool_num with
  | Some _ => self
  | None => with_stats self (<[tool_num := new_stats]> (stats self))
  end.

(** [FlowCompensator(config)] *)
Definition __init__ (cfg : Config) : FlowCompensator :=
  _init_stats_for_tool
    {| config := cfg; filament_diameter := None; filament_area := None;
       tool_profiles := ∅; active_tool := 0; stats := ∅ |} 0.

Fixpoint find_upper {V} (k : string) (d : list (string * V)) : option V :=
  match d with
  | [] => None
  | (key, value) :: r => if String.eqb (upper key) (upper k) then Some value else find_upper k r
  end.

Definition _get_material_profile (self : FlowCompensator) (material_type : string)
  : option Profile :=
  let materials := materials (config self) in
  match assoc_get material_type materials with
  | Some p => Some p
  | None => find_upper material_type materials
  end.

Definition _build_spline_for_profile (profile : Profile) : result PPoly :=
  let curve_points := default [] (curve_points profile) in
  if (length curve_points <? 2)%nat then Raise ValueError
  else
    let points := sorted_points curve_points in
    let x_vals := map fst points in
    let y_vals := map snd points in
    PchipInterpolator x_vals y_vals.

Definition str_truthy (s : option string) : bool :=
  match s with
  | Some s => negb (String.eqb s "")
  | None => false
  end.

Definition opt_profile_truthy (p : option Profile) : bool :=
  match p with
  | Some p => profile_truthy p
  | None => false
  end.

Definition load_material_profile (self : FlowCompensator) (material_type : option string)
           (tool_num : Z) : result FlowCompensator :=
  let materials := materials (config self) in
  let profile :=
    if str_truthy material_type
    then _get_material_profile self (default ""%string material_type)
    else None in
  let '(profile, material_name) :=
    if negb (opt_profile_truthy profile) then
      let fallback := default "default"%string (fallback_material (config self)) in
      (match assoc_get fallback materials with
       | Some p => Some p
       | None => assoc_get "default"%string materials
       end, fallback)
    else (profile, default ""%string material_type) in
  match profile with
  | Some p =>
      if profile_truthy p then
        spline ← _build_spline_for_profile p;
        mret (_init_stats_for_tool
                {| config := config self; filament_diameter := filament_diameter self;
                   filament_area := filament_area self;
                   tool_profiles :=
                     <[tool_num := {| material := material_name; profile := p;
                                      spline := spline |}]> (tool_profiles self);
                   active_tool := active_tool self; stats := stats self |}
                tool_num)
      else Raise ValueError
  | None => Raise ValueError
  end.

Definition set_active_tool (self : FlowCompensator) (tool_num : Z) : FlowCompensator :=
  {| config := config self; filament_diameter := filament_diameter self;
     filament_area := filament_area self; tool_profiles := tool_profiles self;
     active_tool := tool_num; stats := stats self |}.

(** [math.pi], the double nearest to the circle constant. *)
Definition math_pi : Q := 884279719003555 # 281474976710656.

Definition set_filament_diameter (self : FlowCompensator) (diameter : Q) : FlowCompensator :=
  {| config := config self; filament_diameter := Some diameter;
     filament_area := Some (math_pi * (diameter / 2) ^ 2);
     tool_profiles := tool_profiles self;
     active_tool := active_tool self; stats := stats self |}.

(** [self.filament_area] is [None] until the diameter is set; multiplying by
    it is then a [TypeError]. *)
Definition calculate_flow_rate (self : FlowCompensator) (extrusion distance feedrate : Q)
  : result Q :=
  if Qeq_bool distance 0 then Ok 0
  else
    match filament_area self with
    | None => Raise TypeError
    | Some area =>
        let flow_rate_mm3_min := (extrusion * area / distance) * feedrate in
        Ok (flow_rate_mm3_min / 60)
    end.

Definition get_compensation_multiplier (self : FlowCompensator) (flow_rate : Q) : Q :=
  match tool_profiles self !! active_tool self with
  | None => 1
  | Some tp =>
      let spline := spline tp in
      let x_min := hd 0 (ppoly_x spline) in
      let x_max := List.last (ppoly_x spline) 0 in
      let flow_rate_clamped :=
        if Qltb flow_rate x_min then x_min
        else if Qltb x_max flow_rate then x_max
        else flow_rate in
      let multiplier := ppoly_call spline flow_rate_clamped in
      let min_comp := default 0.8 (min_compensation (config self)) in
      let max_comp := default 1.5 (max_compensation (config self)) in
      py_max min_comp (py_min max_comp multiplier)
  end.

Definition newline : ascii := ascii_of_nat 10.

(** The callback [replace_e] of [compensate_line]. *)
Definition replace_e (multiplier : Q) (group1 : list ascii) : result (list ascii) :=
  original_e ← py_float group1;
  let new_e := original_e * multiplier in
  mret (rstrip (Ascii.eqb ".") (rstrip (Ascii.eqb "0") ("E"%char :: format_f 6 new_e))).

(** The comment appended when [output.log_changes] is on. *)
Definition annotation (self : FlowCompensator) (flow_rate multiplier : Q) : list ascii :=
  let material_tag :=
    if (1 <? size (tool_profiles self))%nat
    then list_ascii_of_string " T" ++ Z_digits (active_tool self)
    else [] in
  list_ascii_of_string " ; flow_comp" ++ material_tag ++ list_ascii_of_string ": "
  ++ format_f 1 flow_rate ++ list_ascii_of_string "mm3/s x"
  ++ format_f 3 multiplier ++ [newline].

(** [compensate_line] returns the line and updates the statistics of the
    active tool in place; the embedding returns the line together with the
    engine after the call.  The method raises only before its first update,
    so a [Raise] leaves the engine as it was. *)
Definition compensate_line (self : FlowCompensator) (line : list ascii) (move_info : MoveInfo)
  : result (list ascii * FlowCompensator) :=
  flow_rate ← calculate_flow_rate self (extrusion move_info) (distance move_info)
                                  (feedrate move_info);
  match stats self !! active_tool self with
  | None => Raise KeyError
  | Some tool_stats =>
      let multiplier := get_compensation_multiplier self flow_rate in
      let tool_stats :=
        {| total_moves := total_moves tool_stats + 1;
           compensated_moves := compensated_moves tool_stats;
           min_flow := xmin (min_flow tool_stats) flow_rate;
           max_flow := py_max (max_flow tool_stats) flow_rate;
           avg_flow := avg_flow tool_stats;
           total_flow := total_flow tool_stats + flow_rate;
           min_multiplier := xmin (min_multiplier tool_stats) multiplier;
           max_multiplier := py_max (max_multiplier tool_stats) multiplier |} in
      if Qltb (Qabs (multiplier - 1)) 0.001 then
        Ok (line, with_stats self (<[active_tool self := tool_stats]> (stats self)))
      else
        let tool_stats :=
          {| total_moves := total_moves tool_stats;
             compensated_moves := compensated_moves tool_stats + 1;
             min_flow := min_flow tool_stats;
             max_flow := max_flow tool_stats;
             avg_flow := avg_flow tool_stats;
             total_flow := total_flow tool_stats;
             min_multiplier := min_multiplier tool_stats;
             max_multiplier := max_multiplier tool_stats |} in
        compensated_line ← re_sub is_E (replace_e multiplier) line;
        let compensated_line :=
          if default true (log_changes (config self))
          then rstrip is_space compensated_line ++ annotation self flow_rate multiplier
          else compensated_line in
        Ok (compensated_line,
            with_stats self (<[active_tool self := tool_stats]> (stats self)))
  end.

(** ** Tool setup from the configuration *)

(** [int(text)] on ASCII text: optional blanks around an optional sign and a
    run of digits, in which single underscores may separate digits. *)
Fixpoint int_body (prev_digit : bool) (acc : N) (s : list ascii) : option N :=
  match s with
  | [] => if prev_digit then Some acc else None
  | c :: r =>
      if is_digit c then int_body true (acc * 10 + digit_val c)%N r
      else if Ascii.eqb c "_" && prev_digit then
        match r with
        | [] => None
        | _ => int_body false acc r
        end
      else None
  end.

(** The white space [int] skips around the number: on ASCII text the
    characters tab to CR and the space (not the separators 0x1c to 0x1f,
    which [str.strip] removes). *)
Definition is_c_space (c : ascii) : bool :=
  let n := nat_of_ascii c in
  ((9 <=? n)%nat && (n <=? 13)%nat) || (n =? 32)%nat.

(** [sys.get_int_max_str_digits()], by default. *)
Definition int_max_str_digits : nat := 4300.

Definition py_int (s : list ascii) : result Z :=
  let s := rstrip is_c_space (lstrip is_c_space s) in
  let '(neg, body) :=
    match s with
    | "-"%char :: r => (true, r)
    | "+"%char :: r => (false, r)
    | _ => (false, s)
    end in
  if (int_max_str_digits <? length (List.filter is_digit body))%nat then Raise ValueError
  else
    match int_body false 0%N body with
    | Some n => Ok (if neg : bool then (- Z.of_N n)%Z else Z.of_N n)
    | None => Raise ValueError
    end.

(** The loop of [load_extruder_mapping]: a [ValueError] of [int] or of
    [load_material_profile] is caught and the entry skipped. *)
Fixpoint load_mapping_items (self : FlowCompensator) (items : list (string * string))
  : result FlowCompensator :=
  match items with
  | [] => Ok self
  | (tool_str, material) :: rest =>
      match upper tool_str with
      | String "T" _ =>
          match (tool_num ← py_int (tl (list_ascii_of_string tool_str));
                 load_material_profile self (Some material) tool_num) with
          | Ok self' => load_mapping_items self' rest
          | Raise ValueError => load_mapping_items self rest
          | Raise e => Raise e
          end
      | _ => load_mapping_items self rest
      end
  end.

Definition load_extruder_mapping (self : FlowCompensator) : result (bool * FlowCompensator) :=
  match extruder_mapping (config self) with
  | [] => Ok (false, self)
  | mapping =>
      self' ← load_mapping_items self mapping;
      mret ((0 <? size (tool_profiles self'))%nat, self')
  end.

(** [build_spline], the legacy entry point. *)
Definition build_spline (self : FlowCompensator) : result FlowCompensator :=
  if (0 <? size (tool_profiles self))%nat then Ok self
  else load_material_profile self None 0.

(** [min(d.keys())] *)
Definition min_key {V} (d : gmap Z V) : option Z :=
  match (map_to_list d).*1 with
  | [] => None
  | k :: r => Some (foldr Z.min k r)
  end.

(** ** The driver: [main]

    Argument parsing, file access and printing are left out; what remains
    is the construction of the engine and the loop over the lines. *)

Record Driver : Type := {
  compensator : FlowCompensator;
  current_pos : gmap string Q;
  current_feedrate : Q;
  output_lines : list (list ascii)
}.

(** [config['output']['log_changes'] = False]: the engine shares the
    dictionary, so the assignment reaches it. *)
Definition disable_log_changes (self : FlowCompensator) : FlowCompensator :=
  {| config :=
       {| materials := materials (config self);
          fallback_material := fallback_material (config self);
          extruder_mapping := extruder_mapping (config self);
          min_compensation := min_compensation (config self);
          max_compensation := max_compensation (config self);
          log_changes := Some false |};
     filament_diameter := filament_diameter self;
     filament_area := filament_area self; tool_profiles := tool_profiles self;
     active_tool := active_tool self; stats := stats self |}.

Definition main_setup (cfg : Config) (material : option string) (filament_diameter : Q)
           (no_comments : bool) : result (bool * FlowCompensator) :=
  let material := if str_truthy material then upper <$> material else material in
  '(has_multi_material, compensator) ← load_extruder_mapping (__init__ cfg);
  compensator ←
    (if has_multi_material : bool then
       match min_key (tool_profiles compensator) with
       | Some t => Ok (set_active_tool compensator t)
       | None => Raise ValueError
       end
     else
       compensator ←
         (if str_truthy material
          then load_material_profile compensator material 0
          else load_material_profile compensator None 0);
       build_spline compensator);
  let compensator := set_filament_diameter compensator filament_diameter in
  mret (has_multi_material,
        if no_comments then disable_log_changes compensator else compensator).

Definition initial_driver (c : FlowCompensator) : Driver :=
  {| compensator := c;
     current_pos := <["x"%string := 0]> (<["y"%string := 0]>
                      (<["z"%string := 0]> (<["e"%string := 0]> ∅)));
     current_feedrate := 0;
     output_lines := [] |}.

Section Main.

Variable math_sqrt : Q -> Q.

(** The tool a line switches to: a tool-select command, in multi-material
    mode, whose tool has a profile. *)
Definition tool_switch (has_multi_material : bool) (c : FlowCompensator) (line : list ascii)
  : option Z :=
  match TOOL_CHANGE_PATTERN_match (strip line) with
  | Some digits =>
      if has_multi_material then
        let new_tool := Z.of_N (digits_val digits) in
        match tool_profiles c !! new_tool with
        | Some _ => Some new_tool
        | None => None
        end
      else None
  | None => None
  end.

(** One iteration of the loop over [parser_gcode.lines]. *)
Definition main_step (has_multi_material : bool) (d : Driver) (line : list ascii)
  : result Driver :=
  match tool_switch has_multi_material (compensator d) line with
  | Some new_tool =>
      Ok {| compensator := set_active_tool (compensator d) new_tool;
            current_pos := current_pos d;
            current_feedrate := current_feedrate d;
            output_lines := output_lines d ++ [line] |}
  | None =>
      '(move_info, new_pos, new_feedrate) ←
        parse_move math_sqrt line (current_pos d) (current_feedrate d);
      match move_info with
      | Some move_info =>
          '(compensated_line, c) ← compensate_line (compensator d) line move_info;
          mret {| compensator := c; current_pos := new_pos;
                  current_feedrate := new_feedrate;
                  output_lines := output_lines d ++ [compensated_line] |}
      | None =>
          mret {| compensator := compensator d; current_pos := new_pos;
                  current_feedrate := new_feedrate;
                  output_lines := output_lines d ++ [line] |}
      end
  end.

Fixpoint main_loop (has_multi_material : bool) (d : Driver) (lines : list (list ascii))
  : result Driver :=
  match lines with
  | [] => Ok d
  | line :: rest =>
      d' ← main_step has_multi_material d line;
      main_loop has_multi_material d' rest
  end.

End Main.

(** ** Engine states

    The states a client of the class can bring the engine to, through the
    constructor and the public methods. *)
Inductive reachable : FlowCompensator -> Prop :=
| reach_init cfg :
    reachable (__init__ cfg)
| reach_load s material_type tool_num s' :
    reachable s ->
    load_material_profile s material_type tool_num = Ok s' ->
    reachable s'
| reach_set_active s tool_num :
    reachable s ->
    reachable (set_active_tool s tool_num)
| reach_set_diameter s diameter :
    reachable s ->
    reachable (set_filament_diameter s diameter)
| reach_log_changes s :
    reachable s ->
    reachable (disable_log_changes s)
| reach_compensate s line move_info line' s' :
    reachable s ->
    compensate_line s line move_info = Ok (line', s') ->
    reachable s'.

(** The safety band of [get_compensation_multiplier]. *)
Definition min_comp (self : FlowCompensator) : Q := default 0.8 (min_compensation (config self)).
Definition max_comp (self : FlowCompensator) : Q := default 1.5 (max_compensation (config self)).
Definition safety_clamp (self : FlowCompensator) (multiplier : Q) : Q :=
  py_max (min_comp self) (py_min (max_comp self) multiplier).

(** ** The rest of the engine's interface *)

(** [get_active_tool_material] *)
Definition get_active_tool_material (self : FlowCompensator) : string :=
  match tool_profiles self !! active_tool self with
  | Some tp => material tp
  | None => "unknown"
  end.

(** ** The totals of [print_statistics]

    Of [print_statistics], which only prints, the two sums across the tools
    are kept: [sum(s['total_moves'] for s in self.stats.values())] and
    [sum(s['compensated_moves'] for s in self.stats.values())]. *)
Definition stats_sum (f : Stats -> Z) (st : gmap Z Stats) : Z :=
  map_fold (fun _ s n => (f s + n)%Z) 0%Z st.

Definition print_statistics_total_moves (self : FlowCompensator) : Z :=
  stats_sum total_moves (stats self).

Definition print_statistics_total_comp (self : FlowCompensator) : Z :=
  stats_sum compensated_moves (stats self).

(** ** Metadata of the header: [GCodeParser.parse_metadata] *)

Record Metadata : Type := {
  md_filament_type : option string;
  md_filament_diameter : option Q;
  md_layer_height : option Q;
  md_line_width : option Q
}.

(** The dictionary [__init__] creates. *)
Definition no_metadata : Metadata :=
  {| md_filament_type := None; md_filament_diameter := None;
     md_layer_height := None; md_line_width := None |}.

(** A literal of a pattern compiled with [re.IGNORECASE], at the head of
    [s]: the text behind it. *)
Fixpoint literal_match (lit s : list ascii) : option (list ascii) :=
  match lit, s with
  | [], _ => Some s
  | a :: lit', c :: s' =>
      if Ascii.eqb (upper_char a) (upper_char c) then literal_match lit' s' else None
  | _ :: _, [] => None
  end.

(** [\w] on the ASCII range. *)
Definition is_word (c : ascii) : bool :=
  let n := nat_of_ascii c in
  is_digit c || ((65 <=? n)%nat && (n <=? 90)%nat)
  || ((97 <=? n)%nat && (n <=? 122)%nat) || Ascii.eqb c "_".

Fixpoint span_word (s : list ascii) : list ascii * list ascii :=
  match s with
  | c :: r =>
      if is_word c then
        let '(w, t) := span_word r in (c :: w, t)
      else ([], s)
  | [] => ([], [])
  end.

(** The group [(\w+)] at the head of [s]. *)
Definition word_match (s : list ascii) : option (list ascii * list ascii) :=
  match span_word s with
  | ([], _) => None
  | (w, t) => Some (w, t)
  end.

(** A pattern [literal \s* sep \s* (group)] at the head of [s]; the second
    [\s*] is there when [spaced] is set.  The blanks are taken greedily, and
    nothing is gained by giving one back, since neither [sep] nor the group
    begins with a blank. *)
Definition tagged_match (lit : list ascii) (sep : ascii) (spaced : bool)
           (group : list ascii -> option (list ascii * list ascii)) (s : list ascii)
  : option (list ascii) :=
  match literal_match lit s with
  | None => None
  | Some r =>
      match lstrip is_space r with
      | c :: r' =>
          if Ascii.eqb (upper_char sep) (upper_char c) then
            fst <$> group (if spaced then lstrip is_space r' else r')
          else None
      | [] => None
      end
  end.

(** [pattern.search(line)]: the group of the leftmost match. *)
Fixpoint tagged_search (lit : list ascii) (sep : ascii) (spaced : bool)
         (group : list ascii -> option (list ascii * list ascii)) (s : list ascii)
  : option (list ascii) :=
  match tagged_match lit sep spaced group s with
  | Some g => Some g
  | None =>
      match s with
      | [] => None
      | _ :: r => tagged_search lit sep spaced group r
      end
  end.

Definition FILAMENT_TYPE_PATTERN_search : list ascii -> option (list ascii) :=
  tagged_search (list_ascii_of_string "filament_type") "=" true word_match.
Definition FILAMENT_DIAMETER_PATTERN_search : list ascii -> option (list ascii) :=
  tagged_search (list_ascii_of_string "M200") "D" false number_match.
Definition LAYER_HEIGHT_PATTERN_search : list ascii -> option (list ascii) :=
  tagged_search (list_ascii_of_string "layer_height") "=" true number_match.
Definition LINE_WIDTH_PATTERN_search : list ascii -> option (list ascii) :=
  tagged_search (list_ascii_of_string "line_width") "=" true number_match.

(** One of the three numeric entries: set from the match when it is still
    [None]. *)
Definition extract_number (found : option (list ascii)) (current : option Q)
  : result (option Q) :=
  match found, current with
  | Some g, None => v ← py_float g; mret (Some v)
  | _, _ => Ok current
  end.

Definition _extract_metadata_from_line (metadata : Metadata) (line : list ascii)
  : result Metadata :=
  let filament_type :=
    match FILAMENT_TYPE_PATTERN_search line, md_filament_type metadata with
    | Some g, None => Some (upper (string_of_list_ascii g))
    | _, current => current
    end in
  filament_diameter ←
    extract_number (FILAMENT_DIAMETER_PATTERN_search line) (md_filament_diameter metadata);
  layer_height ←
    extract_number (LAYER_HEIGHT_PATTERN_search line) (md_layer_height metadata);
  line_width ←
    extract_number (LINE_WIDTH_PATTERN_search line) (md_line_width metadata);
  mret {| md_filament_type := filament_type;
          md_filament_diameter := filament_diameter;
          md_layer_height := layer_height;
          md_line_width := line_width |}.

Fixpoint extract_lines (metadata : Metadata) (lines : list (list ascii)) : result Metadata :=
  match lines with
  | [] => Ok metadata
  | line :: rest =>
      metadata' ← _extract_metadata_from_line metadata line;
      extract_lines metadata' rest
  end.

(** [parse_metadata] on the lines of the file: the loop leaves at the first
    index above 500, so the lines 0 to 500 are read. *)
Definition parse_metadata (lines : list (list ascii)) : result Metadata :=
  extract_lines no_metadata (take 501 lines).

(** ** The whole of [main]

    From the lines of the input file to the lines written out; the default
    diameter of the configuration, [detection.filament_diameter], and the
    options [--material] and [--no-comments] are arguments. *)
Section WholeMain.

Variable math_sqrt : Q -> Q.

Definition main (cfg : Config) (detection_filament_diameter : option Q)
           (args_material : option string) (no_comments : bool)
           (lines : list (list ascii)) : result (list (list ascii)) :=
  metadata ← parse_metadata lines;
  let material :=
    if str_truthy args_material then args_material else md_filament_type metadata in
  let filament_diameter :=
    match md_filament_diameter metadata with
    | Some d => if Qeq_bool d 0 then default 1.75 detection_filament_diameter else d
    | None => default 1.75 detection_filament_diameter
    end in
  '(has_multi_material, compensator) ←
    main_setup cfg material filament_diameter no_comments;
  d ← main_loop math_sqrt has_multi_material (initial_driver compensator) lines;
  mret (output_lines d).

End WholeMain.

(** * Vocabulary of the properties, and test data *)

(** The PETG curve and the configuration of the test suite. *)
Definition petg_points : list (Q * Q) := [(0, 1.00); (10, 1.00); (20, 1.025); (30, 1.060)].

Definition petg : Profile :=
  {| profile_name := Some "PETG"%string; curve_points := Some petg_points |}.

Definition test_config : Config :=
  {| materials := [("PETG"%string, petg)];
     fallback_material := Some "default"%string;
     extruder_mapping := [];
     min_compensation := Some 0.8;
     max_compensation := Some 1.5;
     log_changes := Some true |}.

(** A configuration whose safety band lies above 1. *)
Definition high_band_config : Config :=
  {| materials := [("PETG"%string, petg)];
     fallback_material := None;
     extruder_mapping := [];
     min_compensation := Some 1.1;
     max_compensation := Some 1.5;
     log_changes := None |}.

(** The engine a setup call returns, [dflt] if it raises. *)
Definition engine_of (r : result FlowCompensator) (dflt : FlowCompensator) : FlowCompensator :=
  match r with
  | Ok e => e
  | Raise _ => dflt
  end.

(** The engine of the test suite: PETG on tool 0, filament of 1.75 mm. *)
Definition petg_engine : FlowCompensator :=
  let e := set_filament_diameter (__init__ test_config) 1.75 in
  engine_of (load_material_profile e (Some "PETG"%string) 0) e.

(** A line given as a string literal. *)
Definition L (s : string) : list ascii := list_ascii_of_string s.

(** The characters of a number of the patterns, and a text that does not
    go on with one. *)
Definition number_char (c : ascii) : bool := is_digit c || Ascii.eqb c "." || is_sign c.

Definition stops (a : list ascii) : Prop :=
  match a with
  | [] => True
  | c :: _ => number_char c = false
  end.

(** The engine with PETG, asked for in lower case, on tool 1. *)
Definition petg_tool_engine : FlowCompensator :=
  engine_of (load_material_profile (__init__ test_config) (Some "petg"%string) 1)
            (__init__ test_config).

(** An engine whose active tool, 1, was never configured. *)
Definition stray_engine : FlowCompensator :=
  set_filament_diameter (set_active_tool (__init__ test_config) 1) 1.75.

(** The text goes on with a digit. *)
Definition starts_with_digit (s : list ascii) : bool :=
  match s with
  | c :: _ => is_digit c
  | [] => false
  end.

(** The two shapes of a text matched by [\d*\.?\d+]. *)
Inductive unsigned_shape : list ascii -> Prop :=
| shape_int d :
    all_digits d = true -> d <> [] -> unsigned_shape d
| shape_frac d1 d2 :
    all_digits d1 = true -> all_digits d2 = true -> d2 <> [] ->
    unsigned_shape (d1 ++ "."%char :: d2).

(** [g] is the number captured by a match of one of the patterns. *)
Definition captured (g : list ascii) : Prop :=
  exists s r, number_match s = Some (g, r).

(** The command word of a line: the text up to the first blank. *)
Fixpoint command_word (line : list ascii) : list ascii :=
  match line with
  | [] => []
  | c :: r => if is_space c then [] else c :: command_word r
  end.

(** The position dictionary [{'x': x, 'y': y, 'z': z, 'e': e}]. *)
Definition tracked (x y z e : Q) : gmap string Q :=
  <["x"%string := x]> (<["y"%string := y]> (<["z"%string := z]> (<["e"%string := e]> ∅))).


(** The engine [main] builds from the test configuration for PETG. *)
Definition petg_main_engine : FlowCompensator :=
  match main_setup test_config (Some "petg"%string) 1.75 false with
  | Ok (_, c) => c
  | Raise _ => __init__ test_config
  end.

(** The order of the control points by flow rate. *)
Definition key_le (p q : Q * Q) : Prop := fst p <= fst q.
Definition key_lt (p q : Q * Q) : Prop := fst p < fst q.

(** No two control points share a flow rate. *)
Fixpoint distinct_flow (l : list (Q * Q)) : Prop :=
  match l with
  | [] => True
  | p :: r => Forall (fun q => ~ fst p == fst q) r /\ distinct_flow r
  end.

(** [np.any(np.diff(x) <= 0)] on the flow rates of a list of points. *)
Definition not_increasing (l : list (Q * Q)) : bool :=
  existsb (fun dx => Qle_bool dx 0) (diff (map fst l)).

(** Two control points, at different places of the list, have the same
    flow rate. *)
Definition share_flow_rate (pts : list (Q * Q)) : Prop :=
  exists (i j : nat) p q,
    i <> j /\ pts !! i = Some p /\ pts !! j = Some q /\ fst p == fst q.



(** The entry of [tool_profiles] that loading PETG creates. *)
Definition petg_tool : ToolProfile :=
  {| material := "PETG"; profile := petg;
     spline := match _build_spline_for_profile petg with
               | Ok s => s
               | Raise _ => {| ppoly_x := []; ppoly_c := [] |}
               end |}.

(** The parts of a formatted number: its sign, and its decimals behind
    the dot when there are any. *)
Definition sign_text (neg : bool) : list ascii := if neg then ["-"%char] else [].

Definition dot_fraction (fp : list ascii) : list ascii :=
  match fp with
  | [] => []
  | _ :: _ => "."%char :: fp
  end.

(** The output is the input with another text in the place of its
    extrusion number, and possibly a text appended. *)
Definition frame_preserved (line out : list ascii) : Prop :=
  exists pre g post g' appended,
    re_search is_E line = Some (pre, "E"%char, g, post)
    /\ out = pre ++ "E"%char :: g' ++ post ++ appended.

(** The line a call of [compensate_line] returns. *)
Definition line_of (r : result (list ascii * FlowCompensator)) : option (list ascii) :=
  match r with
  | Ok (line, _) => Some line
  | Raise _ => None
  end.

(** The move and the line of the test suite, and what [compensate_line]
    makes of them. *)
Definition test_move : MoveInfo := {| extrusion := 5.55; distance := 10; feedrate := 3000 |}.

Definition test_line : list ascii := L "G1 X110 Y100 E5.55 F3000" ++ [newline].

Definition test_result : list ascii * FlowCompensator :=
  match compensate_line petg_engine test_line test_move with
  | Ok r => r
  | Raise _ => ([], petg_engine)
  end.

(** The profile and the label [load_material_profile] settles on: the
    material asked for when it has a non-empty profile, the fallback
    otherwise. *)
Definition chosen_profile (self : FlowCompensator) (material_type : option string)
  : option Profile * string :=
  let found :=
    if str_truthy material_type
    then _get_material_profile self (default ""%string material_type)
    else None in
  if opt_profile_truthy found then (found, default ""%string material_type)
  else
    let fallback := default "default"%string (fallback_material (config self)) in
    (match assoc_get fallback (materials (config self)) with
     | Some p => Some p
     | None => assoc_get "default"%string (materials (config self))
     end, fallback).


(** A line the loop of [main] writes out as it reads it: not a [G0] or [G1]
    command, or one without an extrusion field. *)
Definition passes_through (line : list ascii) : Prop :=
  G1_PATTERN_match line = false \/ re_search is_E line = None.

(** A small file, and what the loop of [main] makes of it. *)
Definition test_lines : list (list ascii) :=
  [L "; filament_type = petg"; L "M200 D1.75"; L "T1"; L "G1 X100 Y100 F1200"; test_line].

Definition test_run : Driver :=
  match main_loop (fun q => q) false (initial_driver petg_main_engine) test_lines with
  | Ok d => d
  | Raise _ => initial_driver petg_main_engine
  end.

(** A configuration with two tools, and the engine [main] builds from it. *)
Definition two_tool_config : Config :=
  {| materials := [("PETG"%string, petg)];
     fallback_material := None;
     extruder_mapping := [("T2"%string, "PETG"%string); ("T1"%string, "petg"%string)];
     min_compensation := None;
     max_compensation := None;
     log_changes := None |}.

Definition two_tool_engine : FlowCompensator :=
  match main_setup two_tool_config None 1.75 false with
  | Ok (_, c) => c
  | Raise _ => __init__ two_tool_config
  end.

(** The first match of a pattern among the lines [parse_metadata] reads. *)
Definition first_match (search : list ascii -> option (list ascii))
           (lines : list (list ascii)) : option (list ascii) :=
  head (omap search (take 501 lines)).

(** The entry made from such a match: the number [float] reads from it. *)
Definition number_of (found : option (list ascii)) (entry : option Q) : Prop :=
  match found with
  | Some g => exists v, py_float g = Ok v /\ entry = Some v
  | None => entry = None
  end.

(** The line is an extruding move: a [G0] or [G1] command whose first
    extrusion field is not 0. *)
Definition extruding (line : list ascii) : bool :=
  G1_PATTERN_match line
  && match re_search is_E line with
     | Some (_, _, g, _) =>
         match py_float g with
         | Ok e => negb (Qeq_bool e 0)
         | Raise _ => false
         end
     | None => false
     end.

(** The record of tool 0 after the move of the test suite. *)
Definition test_stats : Stats := default new_stats (stats test_result.2 !! 0%Z).



(** What [main] writes for the small file. *)
Definition test_output : list (list ascii) :=
  match main (fun q => q) test_config None None false test_lines with
  | Ok outs => outs
  | Raise _ => []
  end.

(** * Properties *)

(** ** Results and comparisons *)

Lemma Qltb_true a b : Qltb a b = true <-> a < b.
Proof.
  unfold Qltb. rewrite negb_true_iff, <- not_true_iff_false, Qle_bool_iff.
  split; [apply Qnot_le_lt | apply Qlt_not_le].
Qed.

Lemma Qltb_false a b : Qltb a b = false <-> b <= a.
Proof. unfold Qltb. rewrite negb_false_iff. apply Qle_bool_iff. Qed.

Lemma bind_Ok {A B} (m : result A) (f : A -> result B) b :
  m ≫= f = Ok b -> exists a, m = Ok a /\ f a = Ok b.
Proof. destruct m as [a|e]; simpl; [eauto | discriminate]. Qed.

Lemma bind_Ok_l {A B} (a : A) (f : A -> result B) : Ok a ≫= f = f a.
Proof. reflexivity. Qed.

Lemma py_max_ge_l a b : a <= py_max a b.
Proof.
  unfold py_max. destruct (Qltb a b) eqn:E; [apply Qltb_true in E; lra | lra].
Qed.

Lemma py_max_cases a b : (a < b /\ py_max a b = b) \/ (b <= a /\ py_max a b = a).
Proof.
  unfold py_max. destruct (Qltb a b) eqn:E;
    [apply Qltb_true in E | apply Qltb_false in E]; auto.
Qed.

Lemma py_min_cases a b : (b < a /\ py_min a b = b) \/ (a <= b /\ py_min a b = a).
Proof.
  unfold py_min. destruct (Qltb b a) eqn:E;
    [apply Qltb_true in E | apply Qltb_false in E]; auto.
Qed.

Lemma safety_clamp_band self m :
  min_comp self <= max_comp self ->
  min_comp self <= safety_clamp self m <= max_comp self.
Proof.
  intros Hb. unfold safety_clamp.
  destruct (py_min_cases (max_comp self) m) as [[? ->]|[? ->]];
  destruct (py_max_cases (min_comp self) m) as [[? E]|[? E]];
  destruct (py_max_cases (min_comp self) (max_comp self)) as [[? E']|[? E']];
  rewrite ?E, ?E'; lra.
Qed.


(** ** Flow rate *)

(** [math.pi] and the circle constant. *)
Module RealPi.
Import Reals Machin Qreals Lra.
Local Open Scope R_scope.

Definition close_to_pi (q : Q) : Prop := Rabs (Q2R q - PI) < 1 / 1000000.

Lemma math_pi_close : close_to_pi math_pi.
Proof.
  unfold close_to_pi.
  pose proof (PI_2_3_7_ineq 3) as [Hlo Hhi].
  unfold sum_f_R0, tg_alt, PI_2_3_7_tg, Ratan_seq in Hlo, Hhi.
  simpl in Hlo, Hhi.
  unfold math_pi, Q2R. simpl.
  apply Rabs_def1; lra.
Qed.

End RealPi.

(** C3 — [calculate_flow_rate(e, 0, f)] is 0 in every state of the engine
    (the guard comes before the area is read); once
    [set_filament_diameter(diameter)] has stored the area
    [math.pi * (diameter / 2) ** 2], where [math.pi] is the circle constant
    to within a millionth, the flow rate of a move with a distance other than
    0 is [e * area / d * f / 60]; for the diameter 1.75 the area is 2.4053 to
    four decimals, and the flow rate of the move (5.55, 10, 3000) is 66.7 to
    one decimal. *)
Theorem calculate_flow_rate_correct (self : FlowCompensator) (diameter e d f : Q) :
  let area := math_pi * (diameter / 2) ^ 2 in
  let eng := set_filament_diameter self diameter in
  calculate_flow_rate self e 0 f = Ok 0
  /\ filament_area eng = Some area
  /\ RealPi.close_to_pi math_pi
  /\ calculate_flow_rate eng e d f
     = Ok (if Qeq_bool d 0 then 0 else e * area / d * f / 60)
  /\ Qabs (math_pi * (1.75 / 2) ^ 2 - 2.4053) < 0.00005
  /\ exists r, calculate_flow_rate (set_filament_diameter self 1.75) 5.55 10 3000 = Ok r
               /\ Qabs (r - 66.7) < 0.05.
Proof.
  cbv zeta. split; [reflexivity|]. split; [reflexivity|].
  split; [exact RealPi.math_pi_close|]. split; [|split; [reflexivity|]].
  - unfold calculate_flow_rate. simpl. destruct (Qeq_bool d 0); reflexivity.
  - eexists. split; [reflexivity|]. vm_compute. reflexivity.
Qed.

(** ** The safety band *)

Lemma get_compensation_multiplier_unconfigured self flow_rate :
  tool_profiles self !! active_tool self = None ->
  get_compensation_multiplier self flow_rate = 1.
Proof. intros H. unfold get_compensation_multiplier. by rewrite H. Qed.

Lemma get_compensation_multiplier_configured self tp flow_rate :
  tool_profiles self !! active_tool self = Some tp ->
  exists raw, get_compensation_multiplier self flow_rate = safety_clamp self raw.
Proof.
  intros H. unfold get_compensation_multiplier. rewrite H. eexists. reflexivity.
Qed.

(** C2, as stated, fails: with no profile for the active tool the method
    returns 1.0 before the safety limits are applied, and 1.0 lies below a
    band that starts at 1.1. *)
Lemma multiplier_outside_band :
  let self := __init__ high_band_config in
  get_compensation_multiplier self 5 = 1
  /\ min_comp self = 1.1
  /\ get_compensation_multiplier self 5 < min_comp self.
Proof. repeat split. Qed.

(** C2, amended — the multiplier lies in [[min_compensation,
    max_compensation]] whenever the band is not empty and either the active
    tool has a profile or the band contains 1.0 (as the default band, 0.8 to
    1.5, does). *)
Theorem multiplier_in_band (self : FlowCompensator) (flow_rate : Q) :
  min_comp self <= max_comp self ->
  is_Some (tool_profiles self !! active_tool self) \/ min_comp self <= 1 <= max_comp self ->
  min_comp self <= get_compensation_multiplier self flow_rate <= max_comp self.
Proof.
  intros Hband Hcase.
  destruct (tool_profiles self !! active_tool self) as [tp|] eqn:Htp.
  - destruct (get_compensation_multiplier_configured self tp flow_rate Htp) as [raw ->].
    by apply safety_clamp_band.
  - rewrite get_compensation_multiplier_unconfigured by done.
    destruct Hcase as [[? ?]|?]; [discriminate | done].
Qed.

Lemma multiplier_in_band_witness :
  min_comp petg_engine <= get_compensation_multiplier petg_engine 66.7
  <= max_comp petg_engine.
Proof.
  apply (multiplier_in_band petg_engine 66.7).
  - vm_compute. discriminate.
  - left. vm_compute. eexists. reflexivity.
Defined.

(** ** What [compensate_line] changes *)

Lemma compensate_line_inv self line move_info line' self' :
  compensate_line self line move_info = Ok (line', self') ->
  exists flow_rate tool_stats tool_stats',
    calculate_flow_rate self (extrusion move_info) (distance move_info) (feedrate move_info)
    = Ok flow_rate
    /\ stats self !! active_tool self = Some tool_stats
    /\ self' = with_stats self (<[active_tool self := tool_stats']> (stats self))
    /\ ((Qltb (Qabs (get_compensation_multiplier self flow_rate - 1)) 0.001 = true
         /\ line' = line
         /\ compensated_moves tool_stats' = compensated_moves tool_stats)
        \/ (Qltb (Qabs (get_compensation_multiplier self flow_rate - 1)) 0.001 = false
            /\ compensated_moves tool_stats' = (compensated_moves tool_stats + 1)%Z)).
Proof.
  unfold compensate_line. intros H.
  apply bind_Ok in H as (flow_rate & Hflow & H).
  destruct (stats self !! active_tool self) as [tool_stats|] eqn:Hst; [|discriminate].
  destruct (Qltb _ _) eqn:Htol.
  - injection H as <- <-. do 3 eexists. repeat split; eauto.
  - apply bind_Ok in H as (cl & _ & H). injection H as <- <-.
    do 3 eexists. split; [done|]. split; [done|]. split; [reflexivity|]. right. done.
Qed.


(** With no profile for the active tool the multiplier is 1.0, and a call of
    [compensate_line] that returns hands the line back as it was and leaves
    every counter of compensated moves as it was. *)
Lemma compensate_line_unconfigured self line move_info line' self' :
  tool_profiles self !! active_tool self = None ->
  compensate_line self line move_info = Ok (line', self') ->
  line' = line
  /\ forall t, compensated_moves <$> (stats self' !! t) = compensated_moves <$> (stats self !! t).
Proof.
  intros Hnone H.
  apply compensate_line_inv in H as (fr & ts & ts' & _ & Hts & -> & Hcase).
  rewrite (get_compensation_multiplier_unconfigured _ _ Hnone) in Hcase.
  destruct Hcase as [(_ & -> & Hc)|(Hf & _)]; [|vm_compute in Hf; discriminate].
  split; [done|]. intros t. simpl.
  destruct (decide (t = active_tool self)) as [->|Hne].
  - rewrite lookup_insert_eq, Hts. simpl. by rewrite Hc.
  - by rewrite lookup_insert_ne.
Qed.

(** Such a call returns when the active tool has a statistics record and
    either the filament area is set or the move has no length. *)
Lemma compensate_line_unconfigured_returns self line move_info :
  tool_profiles self !! active_tool self = None ->
  is_Some (stats self !! active_tool self) ->
  is_Some (filament_area self) \/ distance move_info == 0 ->
  exists self', compensate_line self line move_info = Ok (line, self').
Proof.
  intros Hnone [ts Hts] Harea. unfold compensate_line.
  assert (exists fr, calculate_flow_rate self (extrusion move_info) (distance move_info)
                                         (feedrate move_info) = Ok fr) as [fr ->].
  { unfold calculate_flow_rate. destruct (Qeq_bool (distance move_info) 0) eqn:E; [eauto|].
    destruct Harea as [[a ->]|Hd]; [eauto|].
    apply Qeq_bool_iff in Hd. congruence. }
  simpl. rewrite Hts, (get_compensation_multiplier_unconfigured _ _ Hnone).
  replace (Qltb (Qabs (1 - 1)) 0.001) with true by (vm_compute; reflexivity).
  eauto.
Qed.

(** C6 — the code at the failing input: tool 1 is active and has no profile;
    instead of handing the line back, [compensate_line] raises [KeyError]
    when it looks up the statistics of tool 1 (while
    [get_compensation_multiplier] does return 1.0 there). *)
Theorem compensate_line_unconfigured_raises :
  tool_profiles stray_engine !! active_tool stray_engine = None
  /\ get_compensation_multiplier stray_engine 66.7 = 1
  /\ compensate_line stray_engine (L "G1 X110 Y100 E5.55 F3000")
       {| extrusion := 5.55; distance := 10; feedrate := 3000 |}
     = Raise KeyError.
Proof. repeat split. Qed.

(** ** Statistics records *)

Lemma _init_stats_for_tool_lookup self t t' :
  is_Some (stats (_init_stats_for_tool self t) !! t')
  <-> t' = t \/ is_Some (stats self !! t').
Proof.
  unfold _init_stats_for_tool.
  destruct (stats self !! t) as [st|] eqn:E; simpl.
  - split; [auto|]. intros [->|?]; [by rewrite E | done].
  - rewrite lookup_insert. case_decide; subst.
    + split; [auto | by eauto].
    + split; [auto|]. by intros [?|?].
Qed.

Lemma _init_stats_for_tool_frame self t :
  config (_init_stats_for_tool self t) = config self
  /\ filament_area (_init_stats_for_tool self t) = filament_area self
  /\ tool_profiles (_init_stats_for_tool self t) = tool_profiles self
  /\ active_tool (_init_stats_for_tool self t) = active_tool self.
Proof. unfold _init_stats_for_tool. by destruct (stats self !! t). Qed.

Lemma load_material_profile_inv self material_type tool_num self' :
  load_material_profile self material_type tool_num = Ok self' ->
  exists tp,
    _build_spline_for_profile (profile tp) = Ok (spline tp)
    /\ tool_profiles self' = <[tool_num := tp]> (tool_profiles self)
    /\ active_tool self' = active_tool self
    /\ config self' = config self
    /\ filament_area self' = filament_area self
    /\ forall t, is_Some (stats self' !! t) <-> t = tool_num \/ is_Some (stats self !! t).
Proof.
  unfold load_material_profile. intros H.
  destruct (if negb _ then _ else _) as [[p|] name]; [|discriminate].
  destruct (profile_truthy p); [|discriminate].
  apply bind_Ok in H as (sp & Hsp & H). injection H as <-.
  exists {| material := name; profile := p; spline := sp |}.
  destruct (_init_stats_for_tool_frame
              {| config := config self; filament_diameter := filament_diameter self;
                 filament_area := filament_area self;
                 tool_profiles := <[tool_num := {| material := name; profile := p;
                                                    spline := sp |}]> (tool_profiles self);
                 active_tool := active_tool self; stats := stats self |} tool_num)
    as (-> & -> & -> & ->).
  do 5 (split; [done|]). intros t. by rewrite _init_stats_for_tool_lookup.
Qed.

Lemma reachable_stats s :
  reachable s ->
  forall t, is_Some (stats s !! t) <-> t = 0%Z \/ is_Some (tool_profiles s !! t).
Proof.
  induction 1 as [cfg|s mt tn s' _ IH Hload|s tn _ IH|s d _ IH|s _ IH|s line mi line' s' _ IH Hc];
    intros t; simpl; try apply IH.
  - unfold __init__. rewrite _init_stats_for_tool_lookup. simpl.
    rewrite !lookup_empty. split; [intros [?|[? ?]]; [auto|done] | intros [?|[? ?]]; [auto|done]].
  - apply load_material_profile_inv in Hload as (tp & _ & -> & _ & _ & _ & Hst).
    rewrite Hst, IH, lookup_insert. case_decide; subst.
    + split; [eauto | auto].
    + split; [intros [?|?]; [congruence | done] | auto].
  - apply compensate_line_inv in Hc as (fr & ts & ts' & _ & Hts & -> & _). simpl.
    rewrite <- IH, lookup_insert. case_decide; subst; [|done].
    split; [by rewrite Hts | eauto].
Qed.

(** C7 — the constructor creates the statistics record of tool 0 and no
    other; in every state of the engine the tools with a record are tool 0
    and the tools with a profile; and there is a state, with a tool other
    than 0 active and not configured, in which [compensate_line] raises
    [KeyError] for every line and every move. *)
Theorem stats_only_for_configured_tools :
  (forall cfg, stats (__init__ cfg) = {[ 0%Z := new_stats ]})
  /\ (forall s, reachable s ->
        forall t, is_Some (stats s !! t) <-> t = 0%Z \/ is_Some (tool_profiles s !! t))
  /\ (exists s, reachable s
        /\ active_tool s <> 0%Z
        /\ tool_profiles s !! active_tool s = None
        /\ forall line move_info, compensate_line s line move_info = Raise KeyError).
Proof.
  split; [reflexivity|]. split; [exact reachable_stats|].
  exists stray_engine. split; [|split; [done|split; [done|]]].
  - unfold stray_engine. do 2 constructor. constructor.
  - intros line mi. unfold compensate_line, calculate_flow_rate. simpl.
    by destruct (Qeq_bool (distance mi) 0).
Qed.

(** ** Captured numbers *)

Lemma span_digits_spec s d r :
  span_digits s = (d, r) ->
  s = d ++ r /\ all_digits d = true /\ starts_with_digit r = false.
Proof.
  revert d r. induction s as [|c s IH]; intros d r; simpl.
  - intros [= <- <-]. done.
  - destruct (is_digit c) eqn:Hc.
    + destruct (span_digits s) as [d' t]. intros [= <- <-].
      destruct (IH d' t eq_refl) as (-> & Hd & Hr).
      unfold all_digits in *. simpl. by rewrite Hc.
    + intros [= <- <-]. simpl. by rewrite Hc.
Qed.

Lemma span_digits_app d r :
  all_digits d = true -> starts_with_digit r = false -> span_digits (d ++ r) = (d, r).
Proof.
  intros Hd Hr. unfold all_digits in *. induction d as [|c d IH]; simpl in *.
  - destruct r as [|c r]; [done|]. simpl in *. by rewrite Hr.
  - apply andb_prop in Hd as [-> Hd]. by rewrite IH.
Qed.

Lemma unsigned_match_spec s g r :
  unsigned_match s = Some (g, r) ->
  s = g ++ r /\ unsigned_shape g /\ starts_with_digit r = false.
Proof.
  unfold unsigned_match.
  destruct (span_digits s) as [d1 r1] eqn:E1.
  apply span_digits_spec in E1 as (-> & Hd1 & Hr1).
  assert (Hplain : match d1 with [] => None | _ :: _ => Some (d1, r1) end = Some (g, r) ->
                   d1 ++ r1 = g ++ r /\ unsigned_shape g /\ starts_with_digit r = false).
  { destruct d1 as [|c d1]; [done|]. intros [= <- <-].
    split; [done|]. split; [by constructor | done]. }
  destruct r1 as [|c r1]; [exact Hplain|].
  destruct (Ascii.eqb_spec c ".") as [->|Hne].
  - destruct (span_digits r1) as [d2 r3] eqn:E2.
    apply span_digits_spec in E2 as (-> & Hd2 & Hr3).
    destruct d2 as [|c2 d2]; [exact Hplain|].
    intros [= <- <-]. split; [by rewrite <- app_assoc|].
    split; [by constructor | done].
  - destruct c as [[] [] [] [] [] [] [] []]; try exact Hplain; done.
Qed.

Lemma number_match_spec s g r :
  number_match s = Some (g, r) ->
  s = g ++ r
  /\ ((exists c u, g = c :: u /\ is_sign c = true /\ unsigned_shape u)
      \/ unsigned_shape g)
  /\ starts_with_digit r = false.
Proof.
  unfold number_match. destruct s as [|c s]; [done|].
  destruct (is_sign c) eqn:Hc.
  - destruct (unsigned_match s) as [[m t]|] eqn:E; [|done]. intros [= <- <-].
    apply unsigned_match_spec in E as (-> & Hsh & Hr). eauto 10.
  - intros E. apply unsigned_match_spec in E as (-> & Hsh & Hr). auto.
Qed.

Lemma number_match_app s g r : number_match s = Some (g, r) -> s = g ++ r.
Proof. intros H. by apply number_match_spec in H as (? & _). Qed.

Lemma is_digit_not_dot c : is_digit c = true -> c <> "."%char.
Proof. intros H ->. done. Qed.

Lemma is_digit_not_sign c : is_digit c = true -> is_sign c = false.
Proof.
  intros H. unfold is_sign.
  destruct (Ascii.eqb_spec c "-") as [->|_]; [done|].
  destruct (Ascii.eqb_spec c "+") as [->|_]; done.
Qed.

Lemma unsigned_float_shape u :
  unsigned_shape u ->
  (exists d, u = d /\ all_digits d = true /\ d <> []
             /\ unsigned_float u = Ok (Z.of_N (digits_val d) # 1))
  \/ (exists d1 d2, u = d1 ++ "."%char :: d2 /\ all_digits d1 = true
                    /\ all_digits d2 = true /\ d2 <> []
                    /\ unsigned_float u
                       = Ok (Z.of_N (digits_val (d1 ++ d2)) # pow10 (length d2))).
Proof.
  intros [d Hd Hne|d1 d2 Hd1 Hd2 Hne]; [left | right].
  - exists d. do 3 (split; [done|]). unfold unsigned_float.
    rewrite <- (app_nil_r d) at 1. rewrite span_digits_app by done.
    by destruct d.
  - exists d1, d2. do 4 (split; [done|]). unfold unsigned_float.
    rewrite span_digits_app by done. rewrite Hd2. simpl.
    destruct d2 as [|c d2]; [done|].
    replace (length d1 + length (c :: d2) =? 0)%nat with false; [done|].
    symmetry. apply Nat.eqb_neq. simpl. lia.
Qed.

Lemma unsigned_shape_head u :
  unsigned_shape u -> exists c t, u = c :: t /\ (is_digit c = true \/ c = "."%char).
Proof.
  intros [d Hd Hne|d1 d2 Hd1 Hd2 Hne].
  - destruct d as [|c d]; [done|]. simpl in Hd. apply andb_prop in Hd as [Hc _]. eauto.
  - destruct d1 as [|c d1]; simpl; [eauto|].
    simpl in Hd1. apply andb_prop in Hd1 as [Hc _]. eauto.
Qed.

Lemma py_float_unsigned u : unsigned_shape u -> py_float u = unsigned_float u.
Proof.
  intros H. destruct (unsigned_shape_head u H) as (c & t & -> & [Hc| ->]); [|done].
  unfold py_float.
  destruct c as [[] [] [] [] [] [] [] []]; try done.
Qed.

(** [float] never raises on a captured number. *)
Lemma py_float_captured s g r :
  number_match s = Some (g, r) -> returns (py_float g).
Proof.
  intros H. apply number_match_spec in H as (_ & [(c & u & -> & Hc & Hu)|Hu] & _).
  - assert (returns (unsigned_float u)) as [v Hv].
    { destruct (unsigned_float_shape u Hu) as [(? & _ & _ & _ & E)|(? & ? & _ & _ & _ & _ & E)];
        rewrite E; by eexists. }
    unfold is_sign in Hc.
    destruct (Ascii.eqb_spec c "-") as [->|_]; [|destruct (Ascii.eqb_spec c "+") as [->|_]; [|done]].
    + simpl. rewrite Hv. by eexists.
    + simpl. rewrite Hv. by eexists.
  - rewrite (py_float_unsigned g Hu).
    destruct (unsigned_float_shape g Hu) as [(? & _ & _ & _ & E)|(? & ? & _ & _ & _ & _ & E)];
      rewrite E; by eexists.
Qed.

(** ** Scanning a line *)

Lemma re_scan_skip letter g r :
  re_scan letter (length g) (g ++ r) = re_scan letter 0 r.
Proof. induction g as [|c g IH]; [done | exact IH]. Qed.

Lemma re_scan_search letter s pre l g post :
  re_search letter s = Some (pre, l, g, post) ->
  s = pre ++ l :: g ++ post
  /\ number_match (g ++ post) = Some (g, post)
  /\ re_scan letter 0 s = map Lit pre ++ Field l g :: re_scan letter 0 post.
Proof.
  revert pre. induction s as [|c s IH]; intros pre; simpl; [done|].
  assert (Hnext : match re_search letter s with
                  | Some (pre0, l0, g0, post0) => Some (c :: pre0, l0, g0, post0)
                  | None => None
                  end = Some (pre, l, g, post) ->
                  c :: s = pre ++ l :: g ++ post
                  /\ number_match (g ++ post) = Some (g, post)
                  /\ Lit c :: re_scan letter 0 s
                     = map Lit pre ++ Field l g :: re_scan letter 0 post).
  { destruct (re_search letter s) as [[[[pre0 l0] g0] post0]|]; [|done].
    intros [= <- <- <- <-]. destruct (IH pre0 eq_refl) as (-> & Hm & ->). done. }
  destruct (letter c); [|exact Hnext].
  destruct (number_match s) as [[g0 post0]|] eqn:Hm; [|exact Hnext].
  intros [= <- <- <- <-]. pose proof (number_match_app _ _ _ Hm) as ->.
  by rewrite re_scan_skip.
Qed.

Lemma re_scan_no_match letter s :
  re_search letter s = None -> re_scan letter 0 s = map Lit s.
Proof.
  induction s as [|c s IH]; simpl; [done|].
  destruct (re_search letter s) as [[[[pre0 l0] g0] post0]|].
  - destruct (letter c); [|done]. by destruct (number_match s) as [[? ?]|].
  - rewrite IH by done. destruct (letter c); [|done].
    by destruct (number_match s) as [[? ?]|].
Qed.

Lemma re_scan_captured letter skip s :
  Forall (fun sg => match sg with Lit _ => True | Field _ g => captured g end)
         (re_scan letter skip s).
Proof.
  revert skip. induction s as [|c s IH]; intros skip; simpl; [constructor|].
  destruct skip; [|apply IH].
  destruct (letter c); [|by constructor].
  destruct (number_match s) as [[g r]|] eqn:E; constructor; try done.
  by exists s, r.
Qed.

Lemma re_findall_captured letter s :
  Forall (fun f => captured f.2) (re_findall letter s).
Proof.
  unfold re_findall. pose proof (re_scan_captured letter 0 s) as H.
  induction H as [|[c|l g] segs Hg _ IH]; simpl; [constructor | done | by constructor].
Qed.

Lemma apply_axes_returns fields pos :
  Forall (fun f => captured f.2) fields -> returns (apply_axes fields pos).
Proof.
  intros H. revert pos. induction H as [|[axis value] fields (s & r & Hm) _ IH]; intros pos.
  - by eexists.
  - simpl in *. destruct (py_float_captured _ _ _ Hm) as [v ->]. apply IH.
Qed.

(** ** The move tracker *)

(** A line that does not begin with [G0] or [G1] is not a move and changes
    nothing. *)
Lemma parse_move_not_recognized math_sqrt line pos fr :
  G1_PATTERN_match line = false ->
  parse_move math_sqrt line pos fr = Ok (None, pos, fr).
Proof. intros H. unfold parse_move. by rewrite H. Qed.

(** A recognized line with no extrusion field, or with an extrusion of 0, is
    not a move, and its feed-rate and axis fields are applied. *)
Lemma parse_move_travel math_sqrt line pos fr :
  G1_PATTERN_match line = true ->
  (re_search is_E line = None
   \/ exists pre l g post e,
        re_search is_E line = Some (pre, l, g, post) /\ py_float g = Ok e /\ e == 0) ->
  exists new_pos fr',
    parse_move math_sqrt line pos fr = Ok (None, new_pos, fr')
    /\ apply_axes (re_findall is_XYZ line) pos = Ok new_pos
    /\ match re_search is_F line with
       | Some (_, _, g, _) => py_float g = Ok fr'
       | None => fr' = fr
       end.
Proof.
  intros HG HE. unfold parse_move. rewrite HG. simpl.
  assert (exists fr', match re_search is_F line with
                      | Some (_, _, g, _) => py_float g
                      | None => Ok fr
                      end = Ok fr'
                      /\ match re_search is_F line with
                         | Some (_, _, g, _) => py_float g = Ok fr'
                         | None => fr' = fr
                         end) as (fr' & -> & Hfr).
  { destruct (re_search is_F line) as [[[[pre l] g] post]|] eqn:E; [|by eexists].
    apply re_scan_search in E as (_ & Hm & _).
    destruct (py_float_captured _ _ _ Hm) as [v Hv]. eauto. }
  simpl.
  destruct (apply_axes_returns (re_findall is_XYZ line) pos (re_findall_captured _ _))
    as [new_pos Hpos].
  rewrite Hpos. simpl. exists new_pos, fr'.
  destruct HE as [->|(pre & l & g & post & e & -> & -> & He)]; [done|].
  simpl. by rewrite (Qeq_eq_bool _ _ He).
Qed.

(** C4 — the code at the failing input: [G10 L2 P1 X0 Y0 Z0] (a
    coordinate-offset command, not a move) begins with [G1], so the pattern
    [^G[01]] accepts it and its axis fields overwrite the tracked position. *)
Theorem parse_move_accepts_G10 (math_sqrt : Q -> Q) :
  let line := L "G10 L2 P1 X0 Y0 Z0" in
  command_word line = L "G10"
  /\ parse_move math_sqrt line (tracked 100 100 0.2 0) 3000
     = Ok (None, tracked 0 0 0 0, 3000)
  /\ tracked 0 0 0 0 <> tracked 100 100 0.2 0.
Proof.
  cbv zeta. split; [reflexivity|]. split; [vm_compute; reflexivity|].
  intros H. apply (f_equal (fun m => m !! "x"%string)) in H. vm_compute in H. discriminate.
Qed.

(** ** The active tool *)




Lemma load_mapping_items_active self items self' :
  load_mapping_items self items = Ok self' -> active_tool self' = active_tool self.
Proof.
  revert self. induction items as [|[tool_str mat] items IH]; intros self; simpl.
  - by intros [= ->].
  - destruct (upper tool_str) as [|c u]; [apply IH|].
    destruct (Ascii.eqb_spec c "T") as [->|Hne].
    + destruct (py_int _) as [n|e]; simpl.
      * destruct (load_material_profile self (Some mat) n) as [s1|e] eqn:E.
        -- intros H. apply IH in H. rewrite H.
           by apply load_material_profile_inv in E as (? & _ & _ & -> & _).
        -- destruct e; [apply IH | done | done].
      * destruct e; [apply IH | done | done].
    + destruct c as [[] [] [] [] [] [] [] []]; try apply IH; done.
Qed.

Lemma load_extruder_mapping_active self b self' :
  load_extruder_mapping self = Ok (b, self') ->
  active_tool self' = active_tool self
  /\ (b = true -> tool_profiles self' <> ∅).
Proof.
  unfold load_extruder_mapping.
  destruct (extruder_mapping (config self)) as [|it items] eqn:E.
  - intros [= <- <-]. done.
  - intros H. apply bind_Ok in H as (s1 & H1 & [= <- <-]).
    split; [by eapply load_mapping_items_active|].
    intros Hsz Hempty. rewrite Hempty in Hsz. done.
Qed.


Section MainInvariant.

Variable math_sqrt : Q -> Q.



Lemma rstrip_head p c r : p c = false -> exists t, rstrip p (c :: r) = c :: t.
Proof. intros Hc. simpl. destruct (rstrip p r); rewrite ?Hc; eauto. Qed.

Lemma tool_line_not_move line digits :
  TOOL_CHANGE_PATTERN_match (strip line) = Some digits ->
  G1_PATTERN_match line = false.
Proof.
  destruct line as [|c r]; [done|].
  destruct (Ascii.eqb_spec c "G") as [->|Hne].
  - unfold strip. simpl lstrip.
    destruct (rstrip_head is_space "G" r eq_refl) as [t ->]. done.
  - intros _. simpl. destruct c as [[] [] [] [] [] [] [] []]; done.
Qed.


End MainInvariant.


(** ** Sorting the control points *)

Lemma insert_point_perm p l : Permutation (insert_point p l) (p :: l).
Proof.
  induction l as [|q r IH]; simpl; [done|].
  destruct (Qltb (fst q) (fst p)); [|done].
  rewrite IH. apply perm_swap.
Qed.

Lemma sorted_points_perm l : Permutation (sorted_points l) l.
Proof.
  induction l as [|p l IH]; simpl; [done|].
  rewrite insert_point_perm. by constructor.
Qed.

Lemma insert_point_sorted p l :
  StronglySorted key_le l -> StronglySorted key_le (insert_point p l).
Proof.
  induction 1 as [|q r Hs IH Hall]; simpl.
  - repeat constructor.
  - destruct (Qltb (fst q) (fst p)) eqn:E.
    + apply Qltb_true in E. constructor; [done|].
      rewrite (insert_point_perm p r). constructor; [|done].
      unfold key_le. lra.
    + apply Qltb_false in E. constructor; [by constructor|].
      constructor; [done|].
      eapply Forall_impl; [exact Hall|]. unfold key_le. intros a Ha. simpl in Ha. lra.
Qed.

Lemma sorted_points_sorted l : StronglySorted key_le (sorted_points l).
Proof.
  induction l as [|p l IH]; simpl; [constructor | by apply insert_point_sorted].
Qed.

Lemma distinct_flow_perm l l' :
  Permutation l l' -> distinct_flow l -> distinct_flow l'.
Proof.
  induction 1 as [|p l l' Hp IH|p q l|l l' l'' _ IH1 _ IH2]; simpl.
  - done.
  - intros [Hall Hd]. split; [by rewrite <- Hp | auto].
  - intros [Hq [Hp Hd]]. apply Forall_cons in Hq as [Hqp Hq].
    split; [|done]. constructor; [|done]. intros E. apply Hqp. by symmetry.
  - auto.
Qed.

Lemma sorted_distinct_strict l :
  StronglySorted key_le l -> distinct_flow l -> StronglySorted key_lt l.
Proof.
  induction 1 as [|p r Hs IH Hall]; simpl; [constructor|].
  intros [Hne Hd]. constructor; [auto|].
  rewrite Forall_forall in *. intros q Hq.
  specialize (Hall q Hq). specialize (Hne q Hq). unfold key_le, key_lt in *.
  destruct (Qlt_le_dec (fst p) (fst q)) as [?|Hle]; [done|].
  exfalso. apply Hne. lra.
Qed.

Lemma strict_distinct l : StronglySorted key_lt l -> distinct_flow l.
Proof.
  induction 1 as [|p r Hs IH Hall]; simpl; [done|].
  split; [|done]. eapply Forall_impl; [exact Hall|].
  unfold key_lt. intros q Hq E. rewrite E in Hq. lra.
Qed.

(** Two strictly sorted lists with the same elements are the same list. *)
Lemma strict_sorted_unique a b :
  StronglySorted key_lt a -> StronglySorted key_lt b -> Permutation a b -> a = b.
Proof.
  intros Ha. revert b. induction Ha as [|x a' Ha' IH Hx]; intros b Hb Hp.
  - by apply Permutation_nil in Hp.
  - destruct Hb as [|y b' Hb' Hy].
    + symmetry in Hp. by apply Permutation_nil in Hp.
    + assert (x = y) as ->.
      { assert (In x (y :: b')) as [->|Hxb] by (eapply Permutation_in; [exact Hp | by left]);
          [done|].
        symmetry in Hp.
        assert (In y (x :: a')) as [->|Hya] by (eapply Permutation_in; [exact Hp | by left]);
          [done|].
        rewrite List.Forall_forall in Hx, Hy.
        specialize (Hx y Hya). specialize (Hy x Hxb). unfold key_lt in *. lra. }
      f_equal. apply IH; [done|]. by eapply Permutation_cons_inv.
Qed.

Lemma sorted_points_permutation l l' :
  distinct_flow l -> Permutation l l' -> sorted_points l = sorted_points l'.
Proof.
  intros Hd Hp. apply strict_sorted_unique.
  - apply sorted_distinct_strict; [apply sorted_points_sorted|].
    eapply distinct_flow_perm; [|exact Hd]. symmetry. apply sorted_points_perm.
  - apply sorted_distinct_strict; [apply sorted_points_sorted|].
    eapply distinct_flow_perm; [|exact Hd].
    etransitivity; [exact Hp|]. symmetry. apply sorted_points_perm.
  - etransitivity; [apply sorted_points_perm|].
    etransitivity; [exact Hp|]. symmetry. apply sorted_points_perm.
Qed.

Lemma increasing_strict l :
  not_increasing l = false <-> StronglySorted key_lt l.
Proof.
  unfold not_increasing. induction l as [|p [|q r] IH]; simpl.
  - split; [constructor | done].
  - split; [repeat constructor | done].
  - rewrite orb_false_iff, IH. clear IH.
    rewrite <- not_true_iff_false, Qle_bool_iff.
    split.
    + intros [Hpq Hs]. constructor; [done|].
      assert (key_lt p q) as Hlt by (unfold key_lt; lra).
      constructor; [done|]. apply StronglySorted_inv in Hs as [_ Hall].
      eapply Forall_impl; [exact Hall|]. unfold key_lt in *. intros a Ha. simpl in Ha. lra.
    + intros Hs. apply StronglySorted_inv in Hs as [Hs Hall].
      apply Forall_cons in Hall as [Hpq _]. unfold key_lt in Hpq. split; [lra | done].
Qed.

(** ** Building the response curve *)

Lemma distinct_flow_lookup pts :
  distinct_flow pts <-> ~ share_flow_rate pts.
Proof.
  induction pts as [|p r IH]; simpl.
  - split; [|done]. intros _ (i & j & a & b & _ & Hi & _). by destruct i.
  - split.
    + intros [Hall Hd] (i & j & a & b & Hij & Hi & Hj & E).
      rewrite Forall_forall in Hall.
      destruct i as [|i], j as [|j]; simpl in *; simplify_eq.
      * apply (Hall b); [|done]. by eapply list_elem_of_lookup_2.
      * apply (Hall a); [by eapply list_elem_of_lookup_2 | by symmetry].
      * apply IH in Hd. apply Hd. exists i, j, a, b. split; [congruence | done].
    + intros Hno. split.
      * rewrite Forall_forall. intros q Hq E.
        apply list_elem_of_lookup_1 in Hq as [j Hj].
        apply Hno. by exists 0%nat, (S j), p, q.
      * apply IH. intros (i & j & a & b & Hij & Hi & Hj & E).
        apply Hno. exists (S i), (S j), a, b. split; [congruence | done].
Qed.

Lemma build_spline_long prof :
  let pts := default [] (curve_points prof) in
  (2 <= length pts)%nat ->
  _build_spline_for_profile prof
  = if not_increasing (sorted_points pts) then Raise ValueError
    else
      let x_vals := map fst (sorted_points pts) in
      let y_vals := map snd (sorted_points pts) in
      Ok {| ppoly_x := x_vals;
            ppoly_c := hermite_coeffs x_vals y_vals (find_derivatives x_vals y_vals) |}.
Proof.
  intros pts Hlen. unfold _build_spline_for_profile. fold pts.
  replace (length pts <? 2)%nat with false by (symmetry; apply Nat.ltb_ge; lia).
  unfold PchipInterpolator. rewrite !length_map.
  rewrite (Permutation_length (sorted_points_perm pts)).
  replace (length pts <? 2)%nat with false by (symmetry; apply Nat.ltb_ge; lia).
  rewrite Nat.eqb_refl. simpl. reflexivity.
Qed.

Lemma sorted_points_strict pts :
  StronglySorted key_lt (sorted_points pts) <-> distinct_flow pts.
Proof.
  split.
  - intros H. eapply distinct_flow_perm; [apply sorted_points_perm|]. by apply strict_distinct.
  - intros H. apply sorted_distinct_strict; [apply sorted_points_sorted|].
    eapply distinct_flow_perm; [|exact H]. symmetry. apply sorted_points_perm.
Qed.

(** C8 — [_build_spline_for_profile] raises [ValueError] for fewer than two
    control points (its own check) and for two points with the same flow rate
    (the check of the interpolator's constructor on the sorted flow rates);
    for at least two points with distinct flow rates it returns a curve
    whose breakpoints are the flow rates in strictly ascending order, and
    every reordering of the points gives the same curve. *)
Theorem build_spline_validates (prof : Profile) :
  let pts := default [] (curve_points prof) in
  ((length pts < 2)%nat -> _build_spline_for_profile prof = Raise ValueError)
  /\ (share_flow_rate pts -> _build_spline_for_profile prof = Raise ValueError)
  /\ ((2 <= length pts)%nat -> ~ share_flow_rate pts ->
      exists s,
        _build_spline_for_profile prof = Ok s
        /\ ppoly_x s = map fst (sorted_points pts)
        /\ Permutation (ppoly_x s) (map fst pts)
        /\ StronglySorted Qlt (ppoly_x s)
        /\ forall prof',
             Permutation pts (default [] (curve_points prof')) ->
             _build_spline_for_profile prof' = Ok s).
Proof.
  intros pts. split; [|split].
  - intros Hlen. unfold _build_spline_for_profile. fold pts.
    by replace (length pts <? 2)%nat with true by (symmetry; apply Nat.ltb_lt; lia).
  - intros Hshare.
    destruct (Nat.lt_ge_cases (length pts) 2) as [Hlen|Hlen].
    + unfold _build_spline_for_profile. fold pts.
      by replace (length pts <? 2)%nat with true by (symmetry; apply Nat.ltb_lt; lia).
    + rewrite build_spline_long by done. fold pts.
      destruct (not_increasing (sorted_points pts)) eqn:E; [done|].
      exfalso. apply increasing_strict, sorted_points_strict, distinct_flow_lookup in E. done.
  - intros Hlen Hno. apply distinct_flow_lookup in Hno.
    pose proof (proj2 (sorted_points_strict pts) Hno) as Hstrict.
    pose proof (proj2 (increasing_strict _) Hstrict) as Hinc.
    eexists. split; [rewrite build_spline_long by done; fold pts; rewrite Hinc; reflexivity|].
    simpl. split; [done|]. split; [by rewrite sorted_points_perm|]. split.
    + clear -Hstrict. induction Hstrict as [|p r _ IH Hall]; simpl; constructor; [done|].
      rewrite List.Forall_map. exact Hall.
    + intros prof' Hperm.
      rewrite build_spline_long by (rewrite <- (Permutation_length Hperm); done).
      cbv zeta. rewrite <- (sorted_points_permutation pts _ Hno Hperm). by rewrite Hinc.
Qed.

(** ** Evaluating the curve at its ends *)

Lemma length_diff l : length (diff l) = pred (length l).
Proof.
  induction l as [|a [|b r] IH]; [done | done |].
  change (diff (a :: b :: r)) with ((b - a) :: diff (b :: r)).
  simpl length in *. by rewrite IH.
Qed.

Lemma length_inner_derivatives hk mk :
  length mk = length hk -> length (inner_derivatives hk mk) = pred (length hk).
Proof.
  revert mk. induction hk as [|h0 hk IH]; intros mk Hlen; [done|].
  destruct mk as [|m0 mk]; [done|].
  destruct hk as [|h1 hk]; [by destruct mk|].
  destruct mk as [|m1 mk]; [done|].
  change (inner_derivatives (h0 :: h1 :: hk) (m0 :: m1 :: mk))
    with (inner_derivative h0 h1 m0 m1 :: inner_derivatives (h1 :: hk) (m1 :: mk)).
  cbn [length]. rewrite (IH (m1 :: mk)); [done | simpl in *; lia].
Qed.

Lemma length_find_derivatives x y :
  length y = length x -> (2 <= length x)%nat ->
  length (find_derivatives x y) = length x.
Proof.
  intros Hlen Hx. unfold find_derivatives.
  destruct (length y =? 2)%nat eqn:E.
  - apply Nat.eqb_eq in E. simpl. lia.
  - simpl. rewrite length_app, length_inner_derivatives.
    + rewrite length_diff. simpl. lia.
    + rewrite length_zip_with, !length_diff. lia.
Qed.

Lemma poly_eval_at_left c0 c1 c2 c3 s : s == 0 -> poly_eval (c0, c1, c2, c3) s == c3.
Proof. intros Hs. unfold poly_eval. rewrite Hs. simpl. ring. Qed.

Lemma hermite_coeffs_cons x0 x1 xs y0 y1 ys d0 d1 ds :
  hermite_coeffs (x0 :: x1 :: xs) (y0 :: y1 :: ys) (d0 :: d1 :: ds)
  = (let dxr := x1 - x0 in
     let slope := (y1 - y0) / dxr in
     let t := (d0 + d1 - 2 * slope) / dxr in
     (t / dxr, (slope - d0) / dxr - t, d0, y0))
    :: hermite_coeffs (x1 :: xs) (y1 :: ys) (d1 :: ds).
Proof. reflexivity. Qed.

Lemma ppoly_eval_cons x0 x1 xs c0 c' xp :
  ppoly_eval (x0 :: x1 :: xs) (c0 :: c') xp
  = match c' with
    | [] => poly_eval c0 (xp - x0)
    | _ :: _ =>
        if Qltb xp x1 then poly_eval c0 (xp - x0) else ppoly_eval (x1 :: xs) c' xp
    end.
Proof. reflexivity. Qed.

Lemma ppoly_eval_first x y d xp :
  length y = length x -> length d = length x -> (2 <= length x)%nat ->
  StronglySorted Qlt x -> xp == hd 0 x ->
  ppoly_eval x (hermite_coeffs x y d) xp == hd 0 y.
Proof.
  intros Hy Hd Hx Hs Hxp.
  destruct x as [|x0 [|x1 xs]]; simpl in Hx; [lia | lia |].
  destruct y as [|y0 [|y1 ys]]; [done | done |].
  destruct d as [|d0 [|d1 ds]]; [done | done |].
  simpl in Hxp.
  apply StronglySorted_inv in Hs as [_ Hall]. apply Forall_cons in Hall as [Hlt _].
  rewrite hermite_coeffs_cons, ppoly_eval_cons. cbv zeta.
  assert (Qltb xp x1 = true) as -> by (apply Qltb_true; lra).
  destruct (hermite_coeffs (x1 :: xs) (y1 :: ys) (d1 :: ds));
    apply poly_eval_at_left; lra.
Qed.







Lemma safety_clamp_compat self m m' :
  m == m' -> safety_clamp self m == safety_clamp self m'.
Proof.
  intros E. unfold safety_clamp.
  destruct (py_min_cases (max_comp self) m) as [[? ->]|[? ->]];
  destruct (py_min_cases (max_comp self) m') as [[? ->]|[? ->]];
  try (exfalso; lra); try reflexivity.
  destruct (py_max_cases (min_comp self) m) as [[? ->]|[? ->]];
  destruct (py_max_cases (min_comp self) m') as [[? ->]|[? ->]];
  try (exfalso; lra); try reflexivity. done.
Qed.




(** ** Digits *)

Lemma digit_char_spec d :
  (d < 10)%N -> digit_val (digit_char d) = d /\ is_digit (digit_char d) = true.
Proof.
  intros H.
  assert (d = 0 \/ d = 1 \/ d = 2 \/ d = 3 \/ d = 4 \/ d = 5 \/ d = 6 \/ d = 7
          \/ d = 8 \/ d = 9)%N as Hc by lia.
  repeat destruct Hc as [->|Hc]; try subst d; done.
Qed.

Lemma pow10_N d : Npos (pow10 d) = (10 ^ N.of_nat d)%N.
Proof.
  induction d as [|d IH]; [done|].
  rewrite Nat2N.inj_succ, N.pow_succ_r', <- IH. done.
Qed.

Lemma digits_val_acc s acc :
  fold_left (fun acc c => (acc * 10 + digit_val c)%N) s acc
  = (acc * 10 ^ N.of_nat (length s) + digits_val s)%N.
Proof.
  unfold digits_val. revert acc. induction s as [|c s IH]; intros acc.
  - simpl. lia.
  - cbn [fold_left length]. rewrite IH, (IH (0 * 10 + digit_val c)%N).
    rewrite Nat2N.inj_succ, N.pow_succ_r'. lia.
Qed.

Lemma digits_val_app a b :
  digits_val (a ++ b) = (digits_val a * 10 ^ N.of_nat (length b) + digits_val b)%N.
Proof. unfold digits_val at 1. rewrite fold_left_app. apply digits_val_acc. Qed.

Lemma digits_val_snoc a c : digits_val (a ++ [c]) = (digits_val a * 10 + digit_val c)%N.
Proof. rewrite digits_val_app. unfold digits_val at 2. simpl. lia. Qed.

Lemma all_digits_app a b : all_digits (a ++ b) = all_digits a && all_digits b.
Proof. apply forallb_app. Qed.

Lemma fixed_digits_spec d n :
  digits_val (fixed_digits d n) = (n mod 10 ^ N.of_nat d)%N
  /\ length (fixed_digits d n) = d
  /\ all_digits (fixed_digits d n) = true.
Proof.
  unfold fixed_digits. revert n. induction d as [|d IH]; intros n.
  - simpl. rewrite N.mod_1_r. done.
  - cbn [fixed_digits_le rev]. destruct (IH (n / 10)%N) as (Hv & Hl & Ha).
    destruct (digit_char_spec (n mod 10)) as [Hd1 Hd2]; [by apply N.mod_lt|].
    rewrite digits_val_snoc, Hv, Hd1, length_app, Hl, all_digits_app, Ha.
    split; [|split; [simpl; lia | by simpl; rewrite Hd2]].
    rewrite Nat2N.inj_succ, N.pow_succ_r', N.Div0.mod_mul_r. lia.
Qed.

Lemma N_digits_le_S fuel n :
  N_digits_le (S fuel) n
  = digit_char (n mod 10) :: (if (n / 10 =? 0)%N then [] else N_digits_le fuel (n / 10)).
Proof. reflexivity. Qed.

Lemma N_digits_le_spec fuel n :
  (n < 10 ^ N.of_nat (S fuel))%N ->
  digits_val (rev (N_digits_le (S fuel) n)) = n
  /\ all_digits (rev (N_digits_le (S fuel) n)) = true
  /\ N_digits_le (S fuel) n <> [].
Proof.
  revert n. induction fuel as [|fuel IH]; intros n Hn;
    rewrite N_digits_le_S;
    destruct (digit_char_spec (n mod 10)) as [Hd1 Hd2]; try (by apply N.mod_lt);
    pose proof (N.div_mod n 10 ltac:(lia)) as Hdm;
    destruct (N.eqb_spec (n / 10) 0) as [Hz|Hnz].
  - rewrite Hz in Hdm. simpl. unfold digits_val. simpl. rewrite Hd1, Hd2.
    split; [lia | done].
  - exfalso. apply Hnz. apply N.div_small. simpl in Hn. lia.
  - rewrite Hz in Hdm. simpl. unfold digits_val. simpl. rewrite Hd1, Hd2.
    split; [lia | done].
  - destruct (IH (n / 10)%N) as (Hv & Ha & _).
    { rewrite Nat2N.inj_succ, N.pow_succ_r' in Hn.
      apply N.Div0.div_lt_upper_bound. lia. }
    cbn [rev]. rewrite digits_val_snoc, Hv, Hd1, all_digits_app, Ha.
    split; [lia|]. split; [by simpl; rewrite Hd2 | done].
Qed.

Lemma N_digits_spec n :
  digits_val (N_digits n) = n
  /\ all_digits (N_digits n) = true
  /\ N_digits n <> [].
Proof.
  unfold N_digits.
  destruct (N_digits_le_spec (N.to_nat (N.log2 n)) n) as (Hv & Ha & Hne).
  - rewrite Nat2N.inj_succ, N2Nat.id.
    destruct (N.eq_dec n 0%N) as [->|Hpos]; [done|].
    apply N.lt_le_trans with (2 ^ N.succ (N.log2 n))%N.
    + apply N.log2_spec. lia.
    + apply N.pow_le_mono_l. lia.
  - do 2 (split; [done|]). intros E. apply Hne.
    destruct (N_digits_le _ n) as [|c l]; [done|].
    simpl in E. by destruct (rev l).
Qed.

(** ** Trimming *)

Lemma rstrip_app p l r :
  rstrip p (l ++ r) = match rstrip p r with [] => rstrip p l | _ :: _ => l ++ rstrip p r end.
Proof.
  induction l as [|c l IH]; simpl.
  - by destruct (rstrip p r).
  - rewrite IH. destruct (rstrip p r) as [|c' r']; [done|]. by destruct l.
Qed.

Lemma rstrip_id p l : forallb (fun c => negb (p c)) l = true -> rstrip p l = l.
Proof.
  induction l as [|c l IH]; simpl; [done|].
  intros H. apply andb_prop in H as [Hc Hl]. rewrite IH by done.
  apply negb_true_iff in Hc. rewrite Hc. by destruct l.
Qed.

Lemma rstrip_spec p l :
  exists z, l = rstrip p l ++ z /\ forallb p z = true.
Proof.
  induction l as [|c l (z & Hz & Hp)]; simpl; [by exists []|].
  destruct (rstrip p l) as [|c' r'] eqn:E.
  - destruct (p c) eqn:Hc.
    + exists (c :: l). simpl in Hz. subst z. split; [done|]. simpl. by rewrite Hc.
    + exists z. simpl in *. by subst.
  - exists z. by rewrite Hz at 1.
Qed.

Lemma digits_val_zeros z : forallb (Ascii.eqb "0") z = true -> digits_val z = 0%N.
Proof.
  unfold digits_val. induction z as [|c z IH]; [done|].
  cbn [forallb fold_left]. intros H. apply andb_prop in H as [Hc Hz].
  apply Ascii.eqb_eq in Hc as <-.
  change (0 * 10 + digit_val "0")%N with 0%N. by apply IH.
Qed.

Lemma all_digits_no_dot l :
  all_digits l = true -> forallb (fun c => negb (Ascii.eqb "." c)) l = true.
Proof.
  unfold all_digits. induction l as [|c l IH]; [done|].
  cbn [forallb]. intros H. apply andb_prop in H as [Hc Hl]. rewrite IH by done.
  destruct (Ascii.eqb_spec "." c) as [<-|_]; done.
Qed.

(** ** Rounding *)

Lemma round_half_even_close q :
  0 <= q ->
  (0 <= round_half_even q)%Z /\ Qabs (inject_Z (round_half_even q) - q) <= 1 # 2.
Proof.
  intros Hq. unfold round_half_even.
  pose proof (Qfloor_le q) as Hlo. pose proof (Qlt_floor q) as Hhi.
  assert (0 <= Qfloor q)%Z as Hf.
  { change 0%Z with (Qfloor 0). by apply Qfloor_resp_le. }
  rewrite inject_Z_plus in Hhi. change (inject_Z 1) with 1 in Hhi.
  assert (Hcase : forall z : Z,
             (z = Qfloor q \/ z = (Qfloor q + 1)%Z) ->
             (z = Qfloor q -> q - inject_Z (Qfloor q) <= 1 # 2) ->
             (z = (Qfloor q + 1)%Z -> (1 # 2) <= q - inject_Z (Qfloor q)) ->
             (0 <= z)%Z /\ Qabs (inject_Z z - q) <= 1 # 2).
  { intros z Hz H1 H2. split; [lia|]. apply Qabs_Qle_condition.
    destruct Hz as [->| ->].
    - specialize (H1 eq_refl). lra.
    - specialize (H2 eq_refl). rewrite inject_Z_plus. change (inject_Z 1) with 1. lra. }
  destruct (Qltb (q - inject_Z (Qfloor q)) (1 # 2)) eqn:E1.
  { apply Qltb_true in E1. apply Hcase; [auto | lra | lia]. }
  apply Qltb_false in E1.
  destruct (Qltb (1 # 2) (q - inject_Z (Qfloor q))) eqn:E2.
  { apply Qltb_true in E2. apply Hcase; [auto | lia | lra]. }
  apply Qltb_false in E2.
  destruct (Z.even (Qfloor q)); apply Hcase; auto; try lia; lra.
Qed.

(** ** The rewritten extrusion field *)

Lemma format_f_6 v :
  let n := Z.to_N (round_half_even (Qabs v * inject_Z (Zpos (pow10 6)))) in
  format_f 6 v
  = sign_text (Qltb v 0) ++ N_digits (n / Npos (pow10 6))
    ++ "."%char :: fixed_digits 6 (n mod Npos (pow10 6)).
Proof. unfold format_f, sign_text. by destruct (Qltb v 0). Qed.

(** What the two [rstrip] calls leave of ['E' + sign + digits + '.' + digits]. *)
Lemma trim_field sg ip fp :
  all_digits ip = true -> ip <> [] -> all_digits fp = true ->
  exists fp' z,
    fp = fp' ++ z
    /\ forallb (Ascii.eqb "0") z = true
    /\ rstrip (Ascii.eqb ".") (rstrip (Ascii.eqb "0") ("E"%char :: sg ++ ip ++ "."%char :: fp))
       = "E"%char :: sg ++ ip ++ dot_fraction fp'.
Proof.
  intros Hip Hne Hfp.
  destruct (rstrip_spec (Ascii.eqb "0") fp) as (z & Hz & Hp).
  exists (rstrip (Ascii.eqb "0") fp), z. do 2 (split; [done|]).
  assert (all_digits (rstrip (Ascii.eqb "0") fp) = true) as Hfp'.
  { rewrite Hz, all_digits_app in Hfp. by apply andb_prop in Hfp as [? _]. }
  assert (rstrip (Ascii.eqb ".") ip = ip) as Hip'.
  { by apply rstrip_id, all_digits_no_dot. }
  set (pre := "E"%char :: sg).
  change ("E"%char :: sg ++ ip ++ "."%char :: fp) with (pre ++ ip ++ "."%char :: fp).
  change ("E"%char :: sg ++ ip ++ dot_fraction (rstrip (Ascii.eqb "0") fp))
    with (pre ++ ip ++ dot_fraction (rstrip (Ascii.eqb "0") fp)).
  replace (pre ++ ip ++ "."%char :: fp) with (((pre ++ ip) ++ ["."%char]) ++ fp)
    by by rewrite <- !app_assoc.
  rewrite rstrip_app.
  destruct (rstrip (Ascii.eqb "0") fp) as [|c fp'] eqn:E.
  - rewrite rstrip_app.
    change (rstrip (Ascii.eqb "0") ["."%char]) with ["."%char].
    cbv iota. rewrite rstrip_app.
    change (rstrip (Ascii.eqb ".") ["."%char]) with (@nil ascii).
    cbv iota. rewrite rstrip_app, Hip'. simpl. rewrite app_nil_r. by destruct ip.
  - rewrite rstrip_app.
    rewrite (rstrip_id _ (c :: fp')) by by apply all_digits_no_dot.
    simpl. by rewrite <- !app_assoc.
Qed.

(** The trimmed text is again a number of the extrusion pattern, and its
    value is that of its digits. *)
Lemma trimmed_number neg ip fp :
  all_digits ip = true -> ip <> [] -> all_digits fp = true ->
  let t := sign_text neg ++ ip ++ dot_fraction fp in
  number_match t = Some (t, [])
  /\ py_float t
     = Ok ((if neg then Qopp else fun q => q)
             (Z.of_N (digits_val (ip ++ fp)) # pow10 (length fp))).
Proof.
  intros Hip Hne Hfp. cbv zeta.
  set (u := ip ++ dot_fraction fp).
  assert (Hshape : unsigned_shape u).
  { unfold u. destruct fp as [|c fp]; simpl.
    - rewrite app_nil_r. by constructor.
    - by constructor. }
  assert (Hmatch : unsigned_match u = Some (u, [])).
  { unfold unsigned_match, u. destruct fp as [|c fp]; simpl dot_fraction.
    - rewrite span_digits_app by done. rewrite app_nil_r. by destruct ip.
    - rewrite span_digits_app by done.
      rewrite <- (app_nil_r (c :: fp)) at 1. rewrite span_digits_app by done. done. }
  assert (Hfloat : unsigned_float u
                   = Ok (Z.of_N (digits_val (ip ++ fp)) # pow10 (length fp))).
  { unfold unsigned_float, u. destruct fp as [|c fp]; simpl dot_fraction.
    - rewrite span_digits_app by done. rewrite app_nil_r. by destruct ip.
    - rewrite span_digits_app by done. rewrite Hfp.
      replace (length ip + length (c :: fp) =? 0)%nat with false; [done|].
      symmetry. apply Nat.eqb_neq. simpl. lia. }
  destruct neg; simpl sign_text.
  - split.
    + change (["-"%char] ++ u) with ("-"%char :: u). unfold number_match.
      change (is_sign "-") with true. cbv iota. by rewrite Hmatch.
    + change (["-"%char] ++ u) with ("-"%char :: u). unfold py_float.
      by rewrite Hfloat.
  - change ([] ++ u) with u. split.
    + destruct (unsigned_shape_head u Hshape) as (c & r & Hu & Hc).
      assert (is_sign c = false) as Hs.
      { destruct Hc as [Hc| ->]; [by apply is_digit_not_sign | done]. }
      unfold number_match. rewrite Hu, Hs, <- Hu. by rewrite Hmatch.
    + by rewrite py_float_unsigned.
Qed.

Lemma pow10_add a b : pow10 (a + b) = (pow10 a * pow10 b)%positive.
Proof. induction a as [|a IH]; simpl; [done|]. rewrite IH. lia. Qed.

(** The digits left after trimming carry the rounded value. *)
Lemma trimmed_value (n : N) ip fp' z :
  ip = N_digits (n / Npos (pow10 6)) ->
  fixed_digits 6 (n mod Npos (pow10 6)) = fp' ++ z ->
  forallb (Ascii.eqb "0") z = true ->
  Z.of_N (digits_val (ip ++ fp')) # pow10 (length fp') == Z.of_N n # pow10 6.
Proof.
  intros Hip Hfp Hz.
  destruct (N_digits_spec (n / Npos (pow10 6))) as (Hva & _ & _). rewrite <- Hip in Hva.
  destruct (fixed_digits_spec 6 (n mod Npos (pow10 6))) as (Hvb & Hlb & _).
  rewrite <- pow10_N, N.Div0.mod_mod in Hvb.
  assert (Hn : (digits_val (ip ++ fp') * Npos (pow10 (length z)))%N = n).
  { pose proof (digits_val_app ip (fixed_digits 6 (n mod Npos (pow10 6)))) as H1.
    rewrite Hva, Hvb, Hlb, <- pow10_N in H1.
    pose proof (digits_val_app (ip ++ fp') z) as H2.
    rewrite <- app_assoc, <- Hfp, (digits_val_zeros z Hz), <- pow10_N in H2.
    pose proof (N.div_mod n (Npos (pow10 6)) ltac:(done)) as Hdm. lia. }
  assert (Hlen : (length fp' + length z = 6)%nat).
  { by rewrite <- length_app, <- Hfp. }
  unfold Qeq. cbn [Qnum Qden]. rewrite <- Hlen, pow10_add, <- Hn.
  rewrite N2Z.inj_mul. cbn [Z.of_N]. rewrite Pos2Z.inj_mul. ring.
Qed.

(** The text [replace_e] produces: the sign, the digits of the integer part
    and, behind a dot, the decimals up to the last one that is not 0. *)
Lemma replace_e_text (multiplier : Q) (g : list ascii) (e : Q) :
  py_float g = Ok e ->
  let v := e * multiplier in
  let n := Z.to_N (round_half_even (Qabs v * inject_Z (Zpos (pow10 6)))) in
  let ip := N_digits (n / Npos (pow10 6)) in
  exists fp' z,
    fixed_digits 6 (n mod Npos (pow10 6)) = fp' ++ z
    /\ forallb (Ascii.eqb "0") z = true
    /\ all_digits ip = true /\ ip <> [] /\ all_digits fp' = true
    /\ replace_e multiplier g
       = Ok ("E"%char :: sign_text (Qltb v 0) ++ ip ++ dot_fraction fp').
Proof.
  intros He v n ip.
  set (fp := fixed_digits 6 (n mod Npos (pow10 6))).
  destruct (N_digits_spec (n / Npos (pow10 6))) as (_ & Hip & Hne). fold ip in Hip, Hne.
  destruct (fixed_digits_spec 6 (n mod Npos (pow10 6))) as (_ & _ & Hfp). fold fp in Hfp.
  destruct (trim_field (sign_text (Qltb v 0)) ip fp Hip Hne Hfp)
    as (fp' & z & Hsplit & Hz & Htrim).
  exists fp', z. do 4 (split; [done|]). split.
  - rewrite Hsplit, all_digits_app in Hfp. by apply andb_prop in Hfp as [? _].
  - unfold replace_e. rewrite He, bind_Ok_l. fold v. rewrite format_f_6. fold n ip fp.
    by rewrite Htrim.
Qed.

(** For every number [g] the extrusion pattern captures and every multiplier,
    [replace_e] yields a text ['E' + t] where [t] is again a number of the
    pattern, and [float(t)] is [float(g) * multiplier] to within half a unit
    of the sixth decimal. *)
Lemma replace_e_reads_back (multiplier : Q) (g : list ascii) (e : Q) :
  py_float g = Ok e ->
  exists t new_e,
    replace_e multiplier g = Ok ("E"%char :: t)
    /\ number_match t = Some (t, [])
    /\ py_float t = Ok new_e
    /\ Qabs (new_e - e * multiplier) <= 1 # 2000000.
Proof.
  intros He.
  destruct (replace_e_text multiplier g e He)
    as (fp' & z & Hsplit & Hz & Hip & Hne & Hfp' & Htext).
  set (v := e * multiplier) in *.
  set (n := Z.to_N (round_half_even (Qabs v * inject_Z (Zpos (pow10 6))))) in *.
  set (ip := N_digits (n / Npos (pow10 6))) in *.
  destruct (trimmed_number (Qltb v 0) ip fp' Hip Hne Hfp') as [Hmatch Hfloat].
  exists (sign_text (Qltb v 0) ++ ip ++ dot_fraction fp').
  eexists. split; [exact Htext|]. split; [exact Hmatch|]. split; [exact Hfloat|].
  pose proof (trimmed_value n ip fp' z eq_refl Hsplit Hz) as Hval.
  destruct (round_half_even_close (Qabs v * inject_Z (Zpos (pow10 6)))) as [Hpos Hclose].
  { apply Qmult_le_0_compat; [apply Qabs_nonneg | done]. }
  unfold n in Hval. rewrite Z2N.id in Hval by done.
  set (r := round_half_even (Qabs v * inject_Z (Z.pos (pow10 6)))) in *.
  pose proof (Qmake_Qdiv r (pow10 6)) as Hdiv.
  change (inject_Z (Z.pos (pow10 6))) with 1000000 in *.
  apply Qabs_Qle_condition in Hclose as [Hlo Hhi].
  apply Qabs_Qle_condition.
  destruct (Qltb v 0) eqn:Hneg; cbv beta; rewrite Hval, Hdiv;
    unfold Qdiv; change (/ 1000000) with (1 # 1000000).
  + apply Qltb_true in Hneg. rewrite (Qabs_neg v) in Hlo, Hhi by lra.
    split; lra.
  + apply Qltb_false in Hneg. rewrite (Qabs_pos v) in Hlo, Hhi by lra.
    split; lra.
Qed.

(** ** The rewritten line *)

Lemma subst_segments_lits repl pre segs :
  subst_segments repl (map Lit pre ++ segs)
  = t ← subst_segments repl segs; mret (pre ++ t).
Proof.
  induction pre as [|c pre IH]; simpl.
  - by destruct (subst_segments repl segs).
  - rewrite IH. by destruct (subst_segments repl segs).
Qed.

Lemma subst_segments_only_lits repl s : subst_segments repl (map Lit s) = Ok s.
Proof.
  rewrite <- (app_nil_r (map Lit s)), subst_segments_lits. simpl. by rewrite app_nil_r.
Qed.

(** With one extrusion field on the line, [sub] replaces that field and
    copies the rest. *)
Lemma re_sub_single repl line pre g post :
  re_search is_E line = Some (pre, "E"%char, g, post) ->
  re_search is_E post = None ->
  re_sub is_E repl line = h ← repl g; mret (pre ++ h ++ post).
Proof.
  intros Hs Hnone. unfold re_sub.
  apply re_scan_search in Hs as (_ & _ & ->).
  rewrite (re_scan_no_match _ _ Hnone), subst_segments_lits. simpl.
  destruct (repl g) as [h|e]; [|done]. simpl.
  by rewrite subst_segments_only_lits.
Qed.

(** C9, as stated, fails: with the annotation on, the line is stripped of
    its trailing blanks and of its line end before the comment is appended,
    so the two blanks behind [F3000] are not in the output. *)
Lemma trailing_blanks_not_preserved :
  let line := L "G1 X110 Y100 E5.55 F3000  " ++ [newline] in
  let out := L "G1 X110 Y100 E5.883 F3000 ; flow_comp: 66.7mm3/s x1.060" ++ [newline] in
  line_of (compensate_line petg_engine line test_move) = Some out
  /\ ~ frame_preserved line out.
Proof.
  cbv zeta. split; [vm_compute; reflexivity|].
  intros (pre & g & post & g' & appended & Hs & Hout).
  vm_compute in Hs. injection Hs as <- <- <-.
  unfold L in Hout. simpl in Hout.
  injection Hout as Hout.
  repeat (destruct g' as [|? g']; simpl in Hout;
          [discriminate Hout | injection Hout as _ Hout]).
  destruct g'; simpl in Hout; discriminate Hout.
Qed.

(** The same call on a line whose comment holds a text of the form of an
    extrusion field: [sub] rewrites that text as well. *)
Lemma comment_field_rewritten :
  line_of (compensate_line petg_engine (L "G1 X110 Y100 E5.55 ; E3D nozzle") test_move)
  = Some (L "G1 X110 Y100 E5.883 ; E3.18D nozzle ; flow_comp: 66.7mm3/s x1.060"
          ++ [newline]).
Proof. vm_compute. reflexivity. Qed.

(** C9, amended — on a line with exactly one text of the form of an
    extrusion field, a call of [compensate_line] that rewrites the line puts
    the new number in the place of the old one and copies the text before
    and after it; with the annotation off this is the whole output, with the
    annotation on the trailing blanks and the line end are stripped and the
    comment, ending in a line end, is appended.  (A call that does not
    rewrite returns the line as it was.) *)
Theorem compensate_line_changes_only_field (self : FlowCompensator) (line : list ascii)
        (move_info : MoveInfo) (out : list ascii) (self' : FlowCompensator)
        (pre g post : list ascii) :
  compensate_line self line move_info = Ok (out, self') ->
  re_search is_E line = Some (pre, "E"%char, g, post) ->
  re_search is_E post = None ->
  exists flow_rate,
    calculate_flow_rate self (extrusion move_info) (distance move_info) (feedrate move_info)
    = Ok flow_rate
    /\ let multiplier := get_compensation_multiplier self flow_rate in
       (Qabs (multiplier - 1) < 0.001 /\ out = line)
       \/ (0.001 <= Qabs (multiplier - 1)
           /\ exists t,
               replace_e multiplier g = Ok ("E"%char :: t)
               /\ number_match t = Some (t, [])
               /\ out = if default true (log_changes (config self))
                        then rstrip is_space (pre ++ "E"%char :: t ++ post)
                             ++ annotation self flow_rate multiplier
                        else pre ++ "E"%char :: t ++ post).
Proof.
  intros H Hs Hnone. unfold compensate_line in H.
  apply bind_Ok in H as (flow_rate & Hflow & H).
  exists flow_rate. split; [done|]. cbv zeta.
  destruct (stats self !! active_tool self) as [tool_stats|]; [|discriminate].
  destruct (Qltb (Qabs (get_compensation_multiplier self flow_rate - 1)) 0.001) eqn:Htol.
  - left. apply Qltb_true in Htol. by injection H as <- _.
  - right. apply Qltb_false in Htol. split; [done|].
    apply bind_Ok in H as (cl & Hsub & H).
    rewrite (re_sub_single _ _ _ _ _ Hs Hnone) in Hsub.
    pose proof (re_scan_search _ _ _ _ _ _ Hs) as (_ & Hg & _).
    destruct (py_float_captured _ _ _ Hg) as [e He].
    destruct (replace_e_text (get_compensation_multiplier self flow_rate) g e He)
      as (fp' & z & _ & _ & Hip & Hne & Hfp' & Htext).
    destruct (trimmed_number
                (Qltb (e * get_compensation_multiplier self flow_rate) 0) _ fp'
                Hip Hne Hfp') as [Hmatch _].
    eexists. split; [exact Htext|]. split; [exact Hmatch|].
    rewrite Htext, bind_Ok_l in Hsub. injection Hsub as <-.
    by injection H as <- _.
Qed.

Lemma compensate_line_changes_only_field_witness :
  exists flow_rate,
    calculate_flow_rate petg_engine 5.55 10 3000 = Ok flow_rate
    /\ let multiplier := get_compensation_multiplier petg_engine flow_rate in
       (Qabs (multiplier - 1) < 0.001 /\ test_result.1 = test_line)
       \/ (0.001 <= Qabs (multiplier - 1)
           /\ exists t,
               replace_e multiplier (L "5.55") = Ok ("E"%char :: t)
               /\ number_match t = Some (t, [])
               /\ test_result.1
                  = if default true (log_changes (config petg_engine))
                    then rstrip is_space (L "G1 X110 Y100 " ++ "E"%char :: t
                                            ++ L " F3000" ++ [newline])
                         ++ annotation petg_engine flow_rate multiplier
                    else L "G1 X110 Y100 " ++ "E"%char :: t ++ L " F3000" ++ [newline]).
Proof.
  apply (compensate_line_changes_only_field petg_engine test_line test_move
           test_result.1 test_result.2 (L "G1 X110 Y100 ") (L "5.55")
           (L " F3000" ++ [newline])).
  - vm_compute. reflexivity.
  - vm_compute. reflexivity.
  - vm_compute. reflexivity.
Defined.

(** * Further properties *)

(** ** More on the move tracker *)

Lemma re_scan_letters letter skip s :
  Forall (fun sg => match sg with Lit _ => True | Field l _ => letter l = true end)
         (re_scan letter skip s).
Proof.
  revert skip. induction s as [|c s IH]; intros skip; simpl; [constructor|].
  destruct skip; [|apply IH].
  destruct (letter c) eqn:Hc; [|by constructor].
  destruct (number_match s) as [[g r]|]; by constructor.
Qed.

Lemma re_findall_letters letter s :
  Forall (fun f => letter f.1 = true) (re_findall letter s).
Proof.
  unfold re_findall. pose proof (re_scan_letters letter 0 s) as H.
  induction H as [|[c|l g] segs Hg _ IH]; simpl; [constructor | done | by constructor].
Qed.

Lemma axis_key_cases axis :
  is_XYZ axis = true ->
  (axis = "X"%char /\ axis_key axis = "x"%string)
  \/ (axis = "Y"%char /\ axis_key axis = "y"%string)
  \/ (axis = "Z"%char /\ axis_key axis = "z"%string).
Proof.
  unfold is_XYZ. intros H.
  destruct (Ascii.eqb_spec axis "X") as [E|_]; [subst; by left|].
  destruct (Ascii.eqb_spec axis "Y") as [E|_]; [subst; by right; left|].
  destruct (Ascii.eqb_spec axis "Z") as [E|_]; [subst; by right; right | done].
Qed.

(** The loop over the axis fields changes the keys of the fields only, and
    removes none. *)
Lemma apply_axes_lookup fields pos pos' k :
  apply_axes fields pos = Ok pos' ->
  (Forall (fun f => axis_key f.1 <> k) fields -> pos' !! k = pos !! k)
  /\ (is_Some (pos !! k) -> is_Some (pos' !! k)).
Proof.
  revert pos. induction fields as [|[axis value] fields IH]; intros pos; simpl.
  - by intros [= ->].
  - intros H. apply bind_Ok in H as (v & _ & H). apply IH in H as [H1 H2]. split.
    + intros Hall. apply Forall_cons in Hall as [Hk Hall]. simpl in Hk.
      rewrite H1 by done. by rewrite lookup_insert_ne.
    + intros Hs. apply H2. rewrite lookup_insert. case_decide; [by eexists | done].
Qed.

(** The value of an axis is that of its last field. *)
Lemma apply_axes_last fields axis value fields' pos pos' v :
  apply_axes (fields ++ (axis, value) :: fields') pos = Ok pos' ->
  Forall (fun f => axis_key f.1 <> axis_key axis) fields' ->
  py_float value = Ok v ->
  pos' !! axis_key axis = Some v.
Proof.
  revert pos. induction fields as [|[a w] fields IH]; intros pos; simpl.
  - intros H Hall Hv. rewrite Hv, bind_Ok_l in H.
    destruct (apply_axes_lookup _ _ _ (axis_key axis) H) as [H1 _].
    rewrite H1 by done. by rewrite lookup_insert_eq.
  - intros H Hall Hv. apply bind_Ok in H as (u & _ & H). by eapply IH.
Qed.


(** What a call that yields a descriptor has seen. *)
Lemma parse_move_descriptor_inv math_sqrt line pos fr mi pos' fr' :
  parse_move math_sqrt line pos fr = Ok (Some mi, pos', fr') ->
  G1_PATTERN_match line = true
  /\ exists pre g post e new_pos,
      re_search is_E line = Some (pre, "E"%char, g, post)
      /\ py_float g = Ok e /\ ~ e == 0
      /\ apply_axes (re_findall is_XYZ line) pos = Ok new_pos
      /\ extrusion mi = Qabs e /\ feedrate mi = fr'
      /\ pos' = <["e"%string := dict_get pos "e" 0 + e]> new_pos.
Proof.
  unfold parse_move. destruct (G1_PATTERN_match line); simpl; [|done].
  intros H. split; [done|].
  apply bind_Ok in H as (fr1 & _ & H). apply bind_Ok in H as (new_pos & Hpos & H).
  destruct (re_search is_E line) as [[[[pre l] g] post]|] eqn:Hs; [|done].
  apply bind_Ok in H as (e & He & H).
  destruct (Qeq_bool e 0) eqn:Hz; [done|].
  injection H as <- <- <-.
  assert (l = "E"%char) as ->.
  { pose proof (re_scan_letters is_E 0 line) as Hl.
    apply re_scan_search in Hs as (_ & _ & Hscan). rewrite Hscan in Hl.
    apply Forall_app in Hl as [_ Hl]. apply Forall_cons in Hl as [Hl _].
    unfold is_E in Hl. by apply Ascii.eqb_eq in Hl. }
  exists pre, g, post, e, new_pos. do 2 (split; [done|]).
  split; [|done]. intros E. apply Qeq_eq_bool in E. congruence.
Qed.

(** X2 — a descriptor is returned only for a line that begins with [G0] or
    [G1] and whose first extrusion field has a value other than 0; its
    extrusion is the absolute value of that field, so greater than 0, its
    feed rate is the feed rate returned, and the extrusion coordinate grows
    by the signed value. *)
Theorem parse_move_descriptor (math_sqrt : Q -> Q) (line : list ascii)
        (current_pos : gmap string Q) (current_feedrate : Q)
        (move_info : MoveInfo) (new_pos : gmap string Q) (new_feedrate : Q) :
  parse_move math_sqrt line current_pos current_feedrate
  = Ok (Some move_info, new_pos, new_feedrate) ->
  G1_PATTERN_match line = true
  /\ exists pre g post e,
      re_search is_E line = Some (pre, "E"%char, g, post)
      /\ py_float g = Ok e
      /\ extrusion move_info = Qabs e
      /\ 0 < extrusion move_info
      /\ feedrate move_info = new_feedrate
      /\ new_pos !! "e"%string = Some (dict_get current_pos "e" 0 + e).
Proof.
  intros H. apply parse_move_descriptor_inv in H
    as (HG & pre & g & post & e & np & Hs & He & Hne & _ & Hext & Hfr & ->).
  split; [done|]. exists pre, g, post, e. do 3 (split; [done|]).
  split; [|split; [done | by rewrite lookup_insert_eq]].
  rewrite Hext.
  destruct (Qlt_le_dec 0 (Qabs e)) as [?|Hle]; [done|]. exfalso. apply Hne.
  apply Qabs_Qle_condition in Hle. lra.
Qed.

Lemma parse_move_descriptor_witness :
  G1_PATTERN_match (L "G1 X110 Y100 E-5.55 F3000") = true
  /\ exists pre g post e,
      re_search is_E (L "G1 X110 Y100 E-5.55 F3000") = Some (pre, "E"%char, g, post)
      /\ py_float g = Ok e
      /\ extrusion {| extrusion := 5.55; distance := 100; feedrate := 3000 |} = Qabs e
      /\ 0 < extrusion {| extrusion := 5.55; distance := 100; feedrate := 3000 |}
      /\ feedrate {| extrusion := 5.55; distance := 100; feedrate := 3000 |} = 3000
      /\ <["e"%string := 4.45]> (tracked 110 100 0 10) !! "e"%string
         = Some (dict_get (tracked 100 100 0 10) "e" 0 + e).
Proof.
  apply (parse_move_descriptor (fun q => q) (L "G1 X110 Y100 E-5.55 F3000")
           (tracked 100 100 0 10) 1200).
  vm_compute. reflexivity.
Defined.

(** The two ways in which [parse_move] returns. *)
Lemma parse_move_inv math_sqrt line pos fr mi pos' fr' :
  parse_move math_sqrt line pos fr = Ok (mi, pos', fr') ->
  (G1_PATTERN_match line = false /\ mi = None /\ pos' = pos /\ fr' = fr)
  \/ (G1_PATTERN_match line = true
      /\ match re_search is_F line with
         | Some (_, _, g, _) => py_float g = Ok fr'
         | None => fr' = fr
         end
      /\ exists new_pos,
          apply_axes (re_findall is_XYZ line) pos = Ok new_pos
          /\ ((mi = None /\ pos' = new_pos)
              \/ exists e, mi <> None
                           /\ pos' = <["e"%string := dict_get pos "e" 0 + e]> new_pos)).
Proof.
  unfold parse_move. destruct (G1_PATTERN_match line); simpl.
  - intros H. right. split; [done|].
    apply bind_Ok in H as (fr1 & Hfr & H). apply bind_Ok in H as (new_pos & Hpos & H).
    assert (fr1 = fr') as ->.
    { destruct (re_search is_E line) as [[[[pre l] g] post]|]; [|by injection H].
      apply bind_Ok in H as (e & _ & H). destruct (Qeq_bool e 0); by injection H. }
    split.
    { destruct (re_search is_F line) as [[[[? ?] ?] ?]|]; [done | by injection Hfr]. }
    exists new_pos. split; [done|].
    destruct (re_search is_E line) as [[[[pre l] g] post]|].
    + apply bind_Ok in H as (e & _ & H). destruct (Qeq_bool e 0).
      * left. by injection H as <- <-.
      * right. exists e. by injection H as <- <-.
    + left. by injection H as <- <-.
  - intros [= <- <- <-]. by left.
Qed.

(** X3 — [parse_move] removes no key of the position; keys other than [x],
    [y], [z] and [e] keep their values, [e] keeps its value unless a
    descriptor is returned, the coordinate of an axis that has no field on
    the line keeps its value, and a line that does not begin with [G0] or
    [G1] changes neither position nor feed rate. *)
Theorem parse_move_keeps_position (math_sqrt : Q -> Q) (line : list ascii)
        (current_pos : gmap string Q) (current_feedrate : Q)
        (move_info : option MoveInfo) (new_pos : gmap string Q) (new_feedrate : Q) :
  parse_move math_sqrt line current_pos current_feedrate
  = Ok (move_info, new_pos, new_feedrate) ->
  (forall k, is_Some (current_pos !! k) -> is_Some (new_pos !! k))
  /\ (forall k : string,
        k <> "x"%string -> k <> "y"%string -> k <> "z"%string -> k <> "e"%string ->
        new_pos !! k = current_pos !! k)
  /\ (move_info = None -> new_pos !! "e"%string = current_pos !! "e"%string)
  /\ (forall axis,
        is_XYZ axis = true ->
        (forall g, ~ In (axis, g) (re_findall is_XYZ line)) ->
        new_pos !! axis_key axis = current_pos !! axis_key axis)
  /\ (G1_PATTERN_match line = false ->
      new_pos = current_pos /\ new_feedrate = current_feedrate /\ move_info = None).
Proof.
  intros H. apply parse_move_inv in H
    as [(HG & -> & -> & ->)|(HG & _ & np & Hpos & Hcase)].
  { repeat split; auto. }
  pose proof (re_findall_letters is_XYZ line) as Hletters.
  assert (Hother : forall k : string,
             k <> "x"%string -> k <> "y"%string -> k <> "z"%string ->
             np !! k = current_pos !! k).
  { intros k Hx Hy Hz. apply (apply_axes_lookup _ _ _ k Hpos).
    eapply Forall_impl; [exact Hletters|]. intros [a v] Ha. simpl in *.
    destruct (axis_key_cases a Ha) as [[_ ->]|[[_ ->]|[_ ->]]]; congruence. }
  assert (Haxis : forall axis,
             is_XYZ axis = true ->
             (forall g, ~ In (axis, g) (re_findall is_XYZ line)) ->
             np !! axis_key axis = current_pos !! axis_key axis).
  { intros axis Hax Hno. apply (apply_axes_lookup _ _ _ _ Hpos).
    rewrite List.Forall_forall in Hletters. apply List.Forall_forall.
    intros [a v] Hin Heq. simpl in Heq. specialize (Hletters _ Hin). simpl in Hletters.
    apply (Hno v).
    destruct (axis_key_cases a Hletters) as [[-> E]|[[-> E]|[-> E]]];
      destruct (axis_key_cases axis Hax) as [[-> E']|[[-> E']|[-> E']]];
      rewrite ?E, ?E' in Heq; done. }
  assert (Hkeep : forall k, is_Some (current_pos !! k) -> is_Some (np !! k)).
  { intros k. apply (apply_axes_lookup _ _ _ k Hpos). }
  destruct Hcase as [[-> ->]|(e & Hmi & ->)].
  - split; [done|]. split; [auto|]. split; [intros _; by apply Hother|].
    split; [done|]. congruence.
  - split.
    { intros k Hk. rewrite lookup_insert. case_decide; [by eexists | auto]. }
    split.
    { intros k Hx Hy Hz He. rewrite lookup_insert_ne by done. auto. }
    split; [done|]. split; [|congruence].
    intros axis Hax Hno. rewrite lookup_insert_ne; [auto|].
    destruct (axis_key_cases axis Hax) as [[_ ->]|[[_ ->]|[_ ->]]]; done.
Qed.

Lemma parse_move_keeps_position_witness :
  (forall k, is_Some (tracked 110 110 0 21.1 !! k) -> is_Some (tracked 100 100 0 21.1 !! k))
  /\ (forall k : string,
        k <> "x"%string -> k <> "y"%string -> k <> "z"%string -> k <> "e"%string ->
        tracked 100 100 0 21.1 !! k = tracked 110 110 0 21.1 !! k)
  /\ (@None MoveInfo = None ->
      tracked 100 100 0 21.1 !! "e"%string = tracked 110 110 0 21.1 !! "e"%string)
  /\ (forall axis,
        is_XYZ axis = true ->
        (forall g, ~ In (axis, g) (re_findall is_XYZ (L "G1 X100 Y100"))) ->
        tracked 100 100 0 21.1 !! axis_key axis = tracked 110 110 0 21.1 !! axis_key axis)
  /\ (G1_PATTERN_match (L "G1 X100 Y100") = false ->
      tracked 100 100 0 21.1 = tracked 110 110 0 21.1
      /\ 3000 = 3000 /\ @None MoveInfo = None).
Proof.
  apply (parse_move_keeps_position (fun q => q) (L "G1 X100 Y100")
           (tracked 110 110 0 21.1) 3000 None (tracked 100 100 0 21.1) 3000).
  vm_compute. reflexivity.
Defined.

(** X4 — on a line that begins with [G0] or [G1], the feed rate returned is
    the value of the first feed-rate field, or the current one when there is
    none, and the coordinate of an axis is the value of the last field of
    that axis. *)
Theorem parse_move_applies_fields (math_sqrt : Q -> Q) (line : list ascii)
        (current_pos : gmap string Q) (current_feedrate : Q)
        (move_info : option MoveInfo) (new_pos : gmap string Q) (new_feedrate : Q) :
  parse_move math_sqrt line current_pos current_feedrate
  = Ok (move_info, new_pos, new_feedrate) ->
  G1_PATTERN_match line = true ->
  match re_search is_F line with
  | Some (_, _, g, _) => py_float g = Ok new_feedrate
  | None => new_feedrate = current_feedrate
  end
  /\ forall fields axis value fields' v,
      re_findall is_XYZ line = fields ++ (axis, value) :: fields' ->
      (forall g, ~ In (axis, g) fields') ->
      py_float value = Ok v ->
      new_pos !! axis_key axis = Some v.
Proof.
  intros H HG. apply parse_move_inv in H
    as [(HG' & _)|(_ & Hfr & np & Hpos & Hcase)]; [congruence|].
  split; [done|]. intros fields axis value fields' v Hsplit Hno Hv.
  pose proof (re_findall_letters is_XYZ line) as Hletters.
  rewrite Hsplit in Hletters, Hpos.
  apply Forall_app in Hletters as [_ Hletters].
  apply Forall_cons in Hletters as [Hax Hletters]. simpl in Hax.
  assert (np !! axis_key axis = Some v) as Hnp.
  { eapply apply_axes_last; [exact Hpos | | exact Hv].
    rewrite List.Forall_forall in Hletters. apply List.Forall_forall.
    intros [a w] Hin Heq. simpl in Heq. specialize (Hletters _ Hin). simpl in Hletters.
    apply (Hno w).
    destruct (axis_key_cases a Hletters) as [[-> E]|[[-> E]|[-> E]]];
      destruct (axis_key_cases axis Hax) as [[-> E']|[[-> E']|[-> E']]];
      rewrite ?E, ?E' in Heq; done. }
  destruct Hcase as [[_ ->]|(e & _ & ->)]; [done|].
  rewrite lookup_insert_ne; [done|].
  destruct (axis_key_cases axis Hax) as [[_ ->]|[[_ ->]|[_ ->]]]; done.
Qed.

Lemma parse_move_applies_fields_witness :
  match re_search is_F (L "G1 X1 X2 F1200 F900") with
  | Some (_, _, g, _) => py_float g = Ok 1200
  | None => 1200 = 3000
  end
  /\ forall fields axis value fields' v,
      re_findall is_XYZ (L "G1 X1 X2 F1200 F900") = fields ++ (axis, value) :: fields' ->
      (forall g, ~ In (axis, g) fields') ->
      py_float value = Ok v ->
      <["x"%string := 2]> (tracked 0 0 0 0) !! axis_key axis = Some v.
Proof.
  apply (parse_move_applies_fields (fun q => q) (L "G1 X1 X2 F1200 F900")
           (tracked 0 0 0 0) 3000 None (<["x"%string := 2]> (tracked 0 0 0 0)) 1200).
  - vm_compute. reflexivity.
  - reflexivity.
Defined.

(** ** Statistics *)

(** The record of the active tool after a call of [compensate_line]. *)
Lemma compensate_line_stats self line move_info line' self' :
  compensate_line self line move_info = Ok (line', self') ->
  exists flow_rate ts ts',
    calculate_flow_rate self (extrusion move_info) (distance move_info) (feedrate move_info)
    = Ok flow_rate
    /\ stats self !! active_tool self = Some ts
    /\ self' = with_stats self (<[active_tool self := ts']> (stats self))
    /\ total_moves ts' = (total_moves ts + 1)%Z
    /\ total_flow ts' = total_flow ts + flow_rate
    /\ min_flow ts' = xmin (min_flow ts) flow_rate
    /\ max_flow ts' = py_max (max_flow ts) flow_rate
    /\ min_multiplier ts'
       = xmin (min_multiplier ts) (get_compensation_multiplier self flow_rate)
    /\ max_multiplier ts'
       = py_max (max_multiplier ts) (get_compensation_multiplier self flow_rate)
    /\ ((compensated_moves ts' = compensated_moves ts /\ line' = line)
        \/ compensated_moves ts' = (compensated_moves ts + 1)%Z).
Proof.
  unfold compensate_line. intros H.
  apply bind_Ok in H as (flow_rate & Hflow & H).
  destruct (stats self !! active_tool self) as [ts|] eqn:Hst; [|discriminate].
  exists flow_rate, ts.
  destruct (Qltb _ _) eqn:Htol.
  - injection H as <- <-. eexists. do 2 (split; [done|]). split; [reflexivity|].
    simpl. repeat split; auto.
  - apply bind_Ok in H as (cl & _ & H). injection H as <- <-.
    eexists. do 2 (split; [done|]). split; [reflexivity|].
    simpl. repeat split; auto.
Qed.

(** X5 — [compensate_line] counts the move for the active tool only: the
    records of the other tools, the profiles, the active tool, the
    configuration and the filament area are as before; the active tool's
    count of moves grows by one and its sum of flow rates by the flow rate of
    the move; its count of compensated moves stays, with the line returned
    as it was, or grows by one. *)
Theorem compensate_line_accounting (self : FlowCompensator) (line : list ascii)
        (move_info : MoveInfo) (line' : list ascii) (self' : FlowCompensator) :
  compensate_line self line move_info = Ok (line', self') ->
  config self' = config self
  /\ filament_area self' = filament_area self
  /\ tool_profiles self' = tool_profiles self
  /\ active_tool self' = active_tool self
  /\ (forall t, t <> active_tool self -> stats self' !! t = stats self !! t)
  /\ exists flow_rate ts ts',
      calculate_flow_rate self (extrusion move_info) (distance move_info)
                          (feedrate move_info) = Ok flow_rate
      /\ stats self !! active_tool self = Some ts
      /\ stats self' !! active_tool self = Some ts'
      /\ total_moves ts' = (total_moves ts + 1)%Z
      /\ total_flow ts' = total_flow ts + flow_rate
      /\ ((compensated_moves ts' = compensated_moves ts /\ line' = line)
          \/ compensated_moves ts' = (compensated_moves ts + 1)%Z).
Proof.
  intros H. apply compensate_line_stats in H
    as (fr & ts & ts' & Hfl & Hts & -> & Htot & Hsum & _ & _ & _ & _ & Hcomp).
  do 4 (split; [done|]). split.
  - intros t Hne. simpl. by rewrite lookup_insert_ne.
  - exists fr, ts, ts'. do 2 (split; [done|]).
    split; [simpl; by rewrite lookup_insert_eq | done].
Qed.

Lemma compensate_line_accounting_witness :
  config test_result.2 = config petg_engine
  /\ filament_area test_result.2 = filament_area petg_engine
  /\ tool_profiles test_result.2 = tool_profiles petg_engine
  /\ active_tool test_result.2 = active_tool petg_engine
  /\ (forall t, t <> active_tool petg_engine ->
                stats test_result.2 !! t = stats petg_engine !! t)
  /\ exists flow_rate ts ts',
      calculate_flow_rate petg_engine (extrusion test_move) (distance test_move)
                          (feedrate test_move) = Ok flow_rate
      /\ stats petg_engine !! active_tool petg_engine = Some ts
      /\ stats test_result.2 !! active_tool petg_engine = Some ts'
      /\ total_moves ts' = (total_moves ts + 1)%Z
      /\ total_flow ts' = total_flow ts + flow_rate
      /\ ((compensated_moves ts' = compensated_moves ts /\ test_result.1 = test_line)
          \/ compensated_moves ts' = (compensated_moves ts + 1)%Z).
Proof.
  apply (compensate_line_accounting petg_engine test_line test_move
           test_result.1 test_result.2).
  vm_compute. reflexivity.
Defined.

Lemma load_material_profile_stats self material_type tool_num self' :
  load_material_profile self material_type tool_num = Ok self' ->
  stats self' = match stats self !! tool_num with
                | Some _ => stats self
                | None => <[tool_num := new_stats]> (stats self)
                end.
Proof.
  unfold load_material_profile. intros H.
  destruct (if negb _ then _ else _) as [[p|] name]; [|discriminate].
  destruct (profile_truthy p); [|discriminate].
  apply bind_Ok in H as (sp & Hsp & H). injection H as <-.
  unfold _init_stats_for_tool. simpl. by destruct (stats self !! tool_num).
Qed.

(** X6 — in every state of the engine and for every tool with a record: the
    counts are not negative and no more moves are compensated than counted;
    the greatest flow rate and the greatest multiplier are never below 0;
    as long as no move is counted the least flow rate and the least
    multiplier are [inf]; and once one of them is a number, a move is
    counted and the number is at most the greatest one. *)
Theorem statistics_consistent (s : FlowCompensator) (t : Z) (ts : Stats) :
  reachable s ->
  stats s !! t = Some ts ->
  (0 <= compensated_moves ts <= total_moves ts)%Z
  /\ 0 <= max_flow ts /\ 0 <= max_multiplier ts
  /\ (total_moves ts = 0%Z -> min_flow ts = Inf /\ min_multiplier ts = Inf)
  /\ (forall m, min_flow ts = Fin m -> (0 < total_moves ts)%Z /\ m <= max_flow ts)
  /\ (forall m, min_multiplier ts = Fin m ->
                (0 < total_moves ts)%Z /\ m <= max_multiplier ts).
Proof.
  intros Hr. revert t ts.
  assert (Hnew : (0 <= compensated_moves new_stats <= total_moves new_stats)%Z
                 /\ 0 <= max_flow new_stats /\ 0 <= max_multiplier new_stats
                 /\ (total_moves new_stats = 0%Z ->
                     min_flow new_stats = Inf /\ min_multiplier new_stats = Inf)
                 /\ (forall m, min_flow new_stats = Fin m ->
                               (0 < total_moves new_stats)%Z /\ m <= max_flow new_stats)
                 /\ (forall m, min_multiplier new_stats = Fin m ->
                               (0 < total_moves new_stats)%Z
                               /\ m <= max_multiplier new_stats)).
  { simpl. split; [lia|]. split; [lra|]. split; [lra|]. split; [done|].
    split; intros m Hm; discriminate Hm. }
  induction Hr as [cfg|s mt tn s' _ IH Hload|s tn _ IH|s d _ IH|s _ IH
                   |s line mi line' s' _ IH Hc]; intros t ts; try apply IH.
  - change (stats (__init__ cfg)) with (<[0%Z := new_stats]> (∅ : gmap Z Stats)).
    rewrite lookup_insert.
    case_decide; [|by rewrite lookup_empty]. by intros [= <-].
  - rewrite (load_material_profile_stats _ _ _ _ Hload).
    destruct (stats s !! tn) eqn:E; [apply IH|].
    rewrite lookup_insert. case_decide; [|apply IH]. by intros [= <-].
  - apply compensate_line_stats in Hc
      as (fr & t0 & t1 & _ & Ht0 & -> & Htot & _ & Hmin & Hmax & Hmmin & Hmmax & Hcomp).
    simpl. rewrite lookup_insert. case_decide; [|apply IH]. intros [= <-].
    destruct (IH _ _ Ht0) as (Hcnt & Hmf & Hmm & _ & Hf & Hm).
    split; [destruct Hcomp as [[-> _]| ->]; lia|].
    rewrite Hmax, Hmmax, Hmin, Hmmin, Htot.
    pose proof (py_max_ge_l (max_flow t0) fr).
    pose proof (py_max_ge_l (max_multiplier t0) (get_compensation_multiplier s fr)).
    split; [lra|]. split; [lra|]. split; [lia|].
    assert (Hxmin : forall a b c m,
               (forall q, a = Fin q -> q <= b) ->
               xmin a c = Fin m ->
               (0 < total_moves t0 + 1)%Z /\ m <= py_max b c).
    { intros a b c m Ha Hx. split; [lia|]. destruct a as [|q]; simpl in Hx.
      - injection Hx as <-. destruct (py_max_cases b c) as [[? ->]|[? ->]]; lra.
      - injection Hx as <-. specialize (Ha q eq_refl).
        destruct (py_min_cases q c) as [[? ->]|[? ->]];
          destruct (py_max_cases b c) as [[? ->]|[? ->]]; lra. }
    split; intros m; apply Hxmin; intros q Hq.
    + by apply Hf.
    + by apply Hm.
Qed.

Lemma statistics_consistent_witness :
  (0 <= compensated_moves test_stats <= total_moves test_stats)%Z
  /\ 0 <= max_flow test_stats /\ 0 <= max_multiplier test_stats
  /\ (total_moves test_stats = 0%Z ->
      min_flow test_stats = Inf /\ min_multiplier test_stats = Inf)
  /\ (forall m, min_flow test_stats = Fin m ->
                (0 < total_moves test_stats)%Z /\ m <= max_flow test_stats)
  /\ (forall m, min_multiplier test_stats = Fin m ->
                (0 < total_moves test_stats)%Z /\ m <= max_multiplier test_stats).
Proof.
  apply (statistics_consistent test_result.2 0 test_stats).
  - apply (reach_compensate petg_engine test_line test_move test_result.1 test_result.2).
    + apply (reach_load (set_filament_diameter (__init__ test_config) 1.75)
               (Some "PETG"%string) 0%Z).
      * apply reach_set_diameter, reach_init.
      * vm_compute. reflexivity.
    + vm_compute. reflexivity.
  - vm_compute. reflexivity.
Defined.

(** ** Configuring tools *)

Lemma load_material_profile_chosen self material_type tool_num self' :
  load_material_profile self material_type tool_num = Ok self' ->
  exists p sp,
    chosen_profile self material_type = (Some p, (chosen_profile self material_type).2)
    /\ _build_spline_for_profile p = Ok sp
    /\ tool_profiles self'
       = <[tool_num := {| material := (chosen_profile self material_type).2;
                          profile := p; spline := sp |}]> (tool_profiles self).
Proof.
  unfold load_material_profile, chosen_profile. intros H.
  destruct (opt_profile_truthy _); simpl in *.
  - destruct (if str_truthy material_type then _ else _) as [p|]; [|discriminate].
    destruct (profile_truthy p); [|discriminate].
    apply bind_Ok in H as (sp & Hsp & H). injection H as <-.
    exists p, sp. split; [done|]. split; [done|].
    unfold _init_stats_for_tool. simpl. by destruct (stats self !! tool_num).
  - destruct (match assoc_get _ _ with Some p => Some p | None => _ end) as [p|];
      [|discriminate].
    destruct (profile_truthy p); [|discriminate].
    apply bind_Ok in H as (sp & Hsp & H). injection H as <-.
    exists p, sp. split; [done|]. split; [done|].
    unfold _init_stats_for_tool. simpl. by destruct (stats self !! tool_num).
Qed.

(** X7 — configuring a tool keeps what is there: the records of statistics
    that exist are unchanged (also the tool's own, when it is configured
    again), a tool without a record gets the record of a fresh tool, the
    profiles of the other tools, the active tool, the configuration and the
    filament area are unchanged, and the tool has a profile afterwards. *)
Theorem load_material_profile_keeps (self : FlowCompensator)
        (material_type : option string) (tool_num : Z) (self' : FlowCompensator) :
  load_material_profile self material_type tool_num = Ok self' ->
  (forall t ts, stats self !! t = Some ts -> stats self' !! t = Some ts)
  /\ (stats self !! tool_num = None -> stats self' !! tool_num = Some new_stats)
  /\ (forall t, t <> tool_num ->
        stats self' !! t = stats self !! t
        /\ tool_profiles self' !! t = tool_profiles self !! t)
  /\ is_Some (tool_profiles self' !! tool_num)
  /\ active_tool self' = active_tool self
  /\ config self' = config self
  /\ filament_area self' = filament_area self.
Proof.
  intros H. pose proof (load_material_profile_stats _ _ _ _ H) as Hst.
  apply load_material_profile_inv in H as (tp & _ & Hp & Ha & Hc & Hf & _).
  rewrite Hst, Hp. split; [|split; [|split; [|split]]].
  - intros t ts Hts. destruct (stats self !! tool_num) eqn:E; [done|].
    rewrite lookup_insert_ne; [done | congruence].
  - intros ->. by rewrite lookup_insert_eq.
  - intros t Hne. rewrite lookup_insert_ne by done. split; [|done].
    destruct (stats self !! tool_num); [done|]. by rewrite lookup_insert_ne.
  - rewrite lookup_insert_eq. by eexists.
  - done.
Qed.

Lemma load_material_profile_keeps_witness :
  (forall t ts, stats (__init__ test_config) !! t = Some ts -> stats petg_tool_engine !! t = Some ts)
  /\ (stats (__init__ test_config) !! 1%Z = None ->
      stats petg_tool_engine !! 1%Z = Some new_stats)
  /\ (forall t, t <> 1%Z ->
        stats petg_tool_engine !! t = stats (__init__ test_config) !! t
        /\ tool_profiles petg_tool_engine !! t = tool_profiles (__init__ test_config) !! t)
  /\ is_Some (tool_profiles petg_tool_engine !! 1%Z)
  /\ active_tool petg_tool_engine = active_tool (__init__ test_config)
  /\ config petg_tool_engine = config (__init__ test_config)
  /\ filament_area petg_tool_engine = filament_area (__init__ test_config).
Proof.
  apply (load_material_profile_keeps (__init__ test_config) (Some "petg"%string) 1).
  vm_compute. reflexivity.
Defined.

Lemma assoc_get_In {V} k (d : list (string * V)) v : assoc_get k d = Some v -> In (k, v) d.
Proof.
  induction d as [|[k' v'] d IH]; simpl; [done|].
  destruct (String.eqb_spec k k') as [->|_]; [intros [= ->]; by left | auto].
Qed.

Lemma find_upper_None {V} k (d : list (string * V)) :
  find_upper k d = None <-> forall key v, In (key, v) d -> upper key <> upper k.
Proof.
  induction d as [|[k' v'] d IH]; simpl; [by split|].
  destruct (String.eqb_spec (upper k') (upper k)) as [E|Hne].
  - split; [done|]. intros H. exfalso. by apply (H k' v'); [left|].
  - rewrite IH. split.
    + intros H key v [[= <- <-]|Hin]; [done | by eapply H].
    + intros H key v Hin. apply (H key v). by right.
Qed.

(** X8 — the lookup of a material finds the profile under the very name when
    there is one, and otherwise the first profile whose name is the same up
    to the case of its letters; it finds nothing exactly when no name of the
    configuration is the same up to case. *)
Theorem get_material_profile_lookup (self : FlowCompensator) (material_type : string) :
  (forall p, assoc_get material_type (materials (config self)) = Some p ->
             _get_material_profile self material_type = Some p)
  /\ (assoc_get material_type (materials (config self)) = None ->
      _get_material_profile self material_type
      = find_upper material_type (materials (config self)))
  /\ (_get_material_profile self material_type = None
      <-> forall key p, In (key, p) (materials (config self)) ->
                        upper key <> upper material_type).
Proof.
  unfold _get_material_profile. split; [by intros p ->|]. split; [by intros ->|].
  destruct (assoc_get material_type (materials (config self))) as [p|] eqn:E.
  - split; [done|]. intros H. exfalso. apply assoc_get_In in E. by apply (H _ _ E).
  - apply find_upper_None.
Qed.

(** X9 — after a tool is configured and made active, its material label is
    the name that was asked for, as it was written, when the lookup of that
    name gave a non-empty profile, and the name of the fallback material
    otherwise. *)
Theorem material_label (self : FlowCompensator) (material_type : option string)
        (tool_num : Z) (self' : FlowCompensator) :
  load_material_profile self material_type tool_num = Ok self' ->
  get_active_tool_material (set_active_tool self' tool_num)
  = if str_truthy material_type
       && opt_profile_truthy (_get_material_profile self (default ""%string material_type))
    then default ""%string material_type
    else default "default"%string (fallback_material (config self)).
Proof.
  intros H. apply load_material_profile_chosen in H as (p & sp & _ & _ & Hp).
  unfold get_active_tool_material. simpl. rewrite Hp, lookup_insert_eq. simpl.
  unfold chosen_profile. destruct (str_truthy material_type); simpl.
  - by destruct (opt_profile_truthy _).
  - done.
Qed.

Lemma material_label_witness :
  get_active_tool_material (set_active_tool petg_tool_engine 1)
  = if str_truthy (Some "petg"%string)
       && opt_profile_truthy
            (_get_material_profile (__init__ test_config)
                                   (default ""%string (Some "petg"%string)))
    then default ""%string (Some "petg"%string)
    else default "default"%string (fallback_material (config (__init__ test_config))).
Proof.
  apply (material_label (__init__ test_config) (Some "petg"%string) 1).
  vm_compute. reflexivity.
Defined.

Lemma build_spline_raises prof e :
  _build_spline_for_profile prof = Raise e -> e = ValueError.
Proof.
  unfold _build_spline_for_profile, PchipInterpolator.
  repeat match goal with |- context [if ?b then _ else _] => destruct b end;
    congruence.
Qed.

Lemma load_material_profile_raises self material_type tool_num e :
  load_material_profile self material_type tool_num = Raise e -> e = ValueError.
Proof.
  unfold load_material_profile.
  destruct (if negb _ then _ else _) as [[p|] name]; [|congruence].
  destruct (profile_truthy p); [|congruence].
  destruct (_build_spline_for_profile p) as [sp|e'] eqn:E; simpl; [done|].
  intros [= <-]. by eapply build_spline_raises.
Qed.

Lemma py_int_raises s e : py_int s = Raise e -> e = ValueError.
Proof.
  unfold py_int.
  destruct (match rstrip _ _ with [] => _ | _ => _ end) as [neg body].
  destruct (_ <? _)%nat; [by intros [= <-]|].
  destruct (int_body false 0 body); [done | by intros [= <-]].
Qed.

Lemma load_mapping_items_returns self items : returns (load_mapping_items self items).
Proof.
  revert self. induction items as [|[tool_str mat] items IH]; intros self; simpl.
  - by eexists.
  - destruct (upper tool_str) as [|c u]; [apply IH|].
    destruct (Ascii.eqb_spec c "T") as [->|Hne].
    + destruct (py_int _) as [n|e] eqn:Hint; simpl.
      * destruct (load_material_profile self (Some mat) n) as [s1|e] eqn:E; [apply IH|].
        apply load_material_profile_raises in E as ->. apply IH.
      * apply py_int_raises in Hint as ->. apply IH.
    + destruct c as [[] [] [] [] [] [] [] []]; try apply IH; done.
Qed.

(** X10 — [load_extruder_mapping] never raises: an entry whose tool name or
    whose profile is refused is skipped.  It reports [True] only when a tool
    has a profile afterwards, it leaves the active tool as it is, and on an
    empty mapping it reports [False] and changes nothing. *)
Theorem load_extruder_mapping_never_raises (self : FlowCompensator) :
  exists has_multi_material self',
    load_extruder_mapping self = Ok (has_multi_material, self')
    /\ active_tool self' = active_tool self
    /\ (has_multi_material = true -> tool_profiles self' <> ∅)
    /\ (extruder_mapping (config self) = [] ->
        has_multi_material = false /\ self' = self).
Proof.
  destruct (load_extruder_mapping self) as [[b s']|e] eqn:H.
  - exists b, s'. split; [done|].
    destruct (load_extruder_mapping_active _ _ _ H) as [Ha Hb].
    do 2 (split; [done|]). intros Hempty.
    unfold load_extruder_mapping in H. rewrite Hempty in H. by injection H as <- <-.
  - exfalso. unfold load_extruder_mapping in H.
    destruct (extruder_mapping (config self)) as [|it items]; [done|].
    destruct (load_mapping_items_returns self (it :: items)) as [s1 Hs1].
    by rewrite Hs1 in H.
Qed.

(** ** The filament area *)

(** X11 — in every state of the engine the filament area is the one of the
    diameter set last, [math.pi * (diameter / 2) ** 2], and there is none as
    long as no diameter was set; so [calculate_flow_rate] raises [TypeError]
    exactly for a move with a distance other than 0 before a diameter is
    set. *)
Theorem filament_area_of_diameter (s : FlowCompensator) (e d f : Q) :
  reachable s ->
  filament_area s = (fun diameter => math_pi * (diameter / 2) ^ 2) <$> filament_diameter s
  /\ (calculate_flow_rate s e d f = Raise TypeError
      <-> filament_diameter s = None /\ ~ d == 0).
Proof.
  intros Hr.
  assert (Harea : filament_area s
                  = (fun diameter => math_pi * (diameter / 2) ^ 2) <$> filament_diameter s).
  { induction Hr as [cfg|s mt tn s' _ IH Hload|s tn _ IH|s dm _ IH|s _ IH
                     |s line mi line' s' _ IH Hc]; try done.
    - unfold load_material_profile in Hload.
      destruct (if negb _ then _ else _) as [[p|] name]; [|discriminate].
      destruct (profile_truthy p); [|discriminate].
      apply bind_Ok in Hload as (sp & _ & Hload). injection Hload as <-.
      unfold _init_stats_for_tool. simpl. by destruct (stats s !! tn).
    - apply compensate_line_inv in Hc as (? & ? & ? & _ & _ & -> & _). done. }
  split; [done|]. unfold calculate_flow_rate. rewrite Harea.
  destruct (Qeq_bool d 0) eqn:Hd.
  - apply Qeq_bool_iff in Hd. split; [done | by intros [_ ?]].
  - assert (~ d == 0) by (intros E; apply Qeq_eq_bool in E; congruence).
    destruct (filament_diameter s); simpl; (split; [|by intros [? _]]); done.
Qed.

Lemma filament_area_of_diameter_witness :
  filament_area petg_engine
  = (fun diameter => math_pi * (diameter / 2) ^ 2) <$> filament_diameter petg_engine
  /\ (calculate_flow_rate petg_engine 5.55 10 3000 = Raise TypeError
      <-> filament_diameter petg_engine = None /\ ~ 10 == 0).
Proof.
  apply (filament_area_of_diameter petg_engine 5.55 10 3000).
  apply (reach_load (set_filament_diameter (__init__ test_config) 1.75)
           (Some "PETG"%string) 0%Z).
  - apply reach_set_diameter, reach_init.
  - vm_compute. reflexivity.
Defined.

(** ** The curve at its control points *)

Lemma built_spline prof pts sp :
  _build_spline_for_profile prof = Ok sp ->
  curve_points prof = Some pts ->
  (2 <= length pts)%nat
  /\ StronglySorted key_lt (sorted_points pts)
  /\ sp = {| ppoly_x := map fst (sorted_points pts);
             ppoly_c := hermite_coeffs (map fst (sorted_points pts))
                          (map snd (sorted_points pts))
                          (find_derivatives (map fst (sorted_points pts))
                                            (map snd (sorted_points pts))) |}.
Proof.
  intros Hbuild Hpts.
  assert (default [] (curve_points prof) = pts) as Hdef by by rewrite Hpts.
  destruct (Nat.lt_ge_cases (length pts) 2) as [Hshort|Hlen].
  { exfalso. unfold _build_spline_for_profile in Hbuild. rewrite Hdef in Hbuild.
    by replace (length pts <? 2)%nat with true in Hbuild
      by (symmetry; apply Nat.ltb_lt; lia). }
  pose proof (build_spline_long prof) as Hlong. cbv zeta in Hlong.
  rewrite Hdef, Hbuild in Hlong. specialize (Hlong Hlen).
  destruct (not_increasing (sorted_points pts)) eqn:Hinc; [done|].
  injection Hlong as ->. apply increasing_strict in Hinc. done.
Qed.

Lemma strict_hd_le l a : StronglySorted Qlt l -> In a l -> hd 0 l <= a.
Proof.
  intros Hs Hin. destruct Hs as [|h t _ Hall]; [done|]. simpl.
  destruct Hin as [->|Hin]; [lra|].
  rewrite List.Forall_forall in Hall. specialize (Hall _ Hin). lra.
Qed.

Lemma strict_le_last l a : StronglySorted Qlt l -> In a l -> a <= List.last l 0.
Proof.
  intros Hs. revert a. induction Hs as [|h t Hs IH Hall]; [done|]. intros a Hin.
  destruct t as [|h' t].
  - destruct Hin as [->|[]]. simpl. lra.
  - change (List.last (h :: h' :: t) 0) with (List.last (h' :: t) 0).
    destruct Hin as [<-|Hin]; [|auto].
    apply Forall_cons in Hall as [Hlt _].
    specialize (IH h' (or_introl eq_refl)). lra.
Qed.

Lemma lookup_last {A} (l : list A) (i : nat) a d :
  l !! i = Some a -> S i = length l -> List.last l d = a.
Proof.
  revert i. induction l as [|b l IH]; intros i; [done|].
  destruct i as [|i]; simpl.
  - intros [= ->] Hl. destruct l; [done | simpl in Hl; lia].
  - intros Hi Hl. destruct l as [|c l]; [done|].
    change (List.last (b :: c :: l) d) with (List.last (c :: l) d).
    apply (IH i); [done | simpl in *; lia].
Qed.

(** At a breakpoint other than the last the piecewise polynomial is
    evaluated in the interval that begins there, at offset 0, where the cubic
    is its constant coefficient: the value of the point. *)
Lemma ppoly_eval_knot x y d (i : nat) xi yi xp :
  length y = length x -> length d = length x -> (S i < length x)%nat ->
  StronglySorted Qlt x ->
  x !! i = Some xi -> y !! i = Some yi -> xp == xi ->
  ppoly_eval x (hermite_coeffs x y d) xp == yi.
Proof.
  revert y d i. induction x as [|x0 x IH]; intros y d i Hy Hd Hx Hs Hxi Hyi Hxp;
    [simpl in Hx; lia|].
  destruct i as [|i].
  { injection Hxi as <-. destruct y as [|y0 y]; [done|]. injection Hyi as <-.
    apply (ppoly_eval_first (x0 :: x) (y0 :: y) d xp); first [done | simpl in *; lia]. }
  destruct x as [|x1 xs]; [simpl in Hx; lia|].
  destruct y as [|y0 [|y1 ys]]; [done | done |].
  destruct d as [|d0 [|d1 ds]]; [done | done |].
  simpl in Hxi, Hyi.
  apply StronglySorted_inv in Hs as [Hs Hall].
  rewrite hermite_coeffs_cons, ppoly_eval_cons.
  destruct xs as [|x2 xs]; [simpl in Hx; lia|].
  destruct ys as [|y2 ys]; [done|]. destruct ds as [|d2 ds]; [done|].
  assert (x1 <= xi) as Hge.
  { apply (strict_hd_le (x1 :: x2 :: xs) xi Hs).
    apply list_elem_of_In. by eapply list_elem_of_lookup_2. }
  rewrite <- (IH (y1 :: y2 :: ys) (d1 :: d2 :: ds) i); try done;
    [|simpl in *; lia..].
  rewrite (hermite_coeffs_cons x1 x2).
  assert (Qltb xp x1 = false) as -> by (apply Qltb_false; lra).
  reflexivity.
Qed.

(** X12 — for an active tool whose curve was built from control points, the
    multiplier at the flow rate of a control point other than the last is
    the multiplier of that point, clamped to the safety band: the curve
    passes through these points exactly, since there the cubic of the
    interval that begins at the point is evaluated at offset 0.  (At the last
    point the cubic of the last interval is evaluated at its right end; in
    doubles the result is the multiplier of that point only up to rounding,
    and nothing is stated of it.) *)
Theorem multiplier_at_control_point (self : FlowCompensator) (tp : ToolProfile)
        (prof : Profile) (pts : list (Q * Q)) (x y x' y' : Q) :
  tool_profiles self !! active_tool self = Some tp ->
  _build_spline_for_profile prof = Ok (spline tp) ->
  curve_points prof = Some pts ->
  In (x, y) pts ->
  In (x', y') pts -> x < x' ->
  get_compensation_multiplier self x == safety_clamp self y.
Proof.
  intros Htp Hbuild Hpts Hin Hin2 Hlt.
  destruct (built_spline _ _ _ Hbuild Hpts) as (Hlen & Hstrict & Hsp).
  set (sp := sorted_points pts) in *.
  assert (Hperm : Permutation sp pts) by apply sorted_points_perm.
  assert (Hxs : StronglySorted Qlt (map fst sp)).
  { clear -Hstrict. induction Hstrict as [|p r _ IH Hall]; simpl; constructor; [done|].
    rewrite List.Forall_map. exact Hall. }
  assert (In (x, y) sp) as Hin' by (eapply Permutation_in; [symmetry; exact Hperm | done]).
  assert (In x' (map fst sp)) as Hinx'.
  { apply (in_map fst sp (x', y')).
    eapply Permutation_in; [symmetry; exact Hperm | done]. }
  apply list_elem_of_In, list_elem_of_lookup_1 in Hin' as [i Hi].
  assert (Hxi : map fst sp !! i = Some x) by by rewrite list_lookup_fmap, Hi.
  assert (Hyi : map snd sp !! i = Some y) by by rewrite list_lookup_fmap, Hi.
  assert (Hinx : In x (map fst sp)).
  { apply list_elem_of_In. by eapply list_elem_of_lookup_2. }
  pose proof (strict_hd_le _ _ Hxs Hinx) as Hlo.
  pose proof (strict_le_last _ _ Hxs Hinx) as Hhi.
  assert (Hi' : (S i < length (map fst sp))%nat).
  { pose proof (lookup_lt_Some _ _ _ Hxi) as Hb.
    destruct (decide (S i = length (map fst sp))) as [E|]; [|lia]. exfalso.
    pose proof (strict_le_last _ _ Hxs Hinx') as Hx'.
    rewrite (lookup_last _ _ _ 0 Hxi E) in Hx'. lra. }
  unfold get_compensation_multiplier. rewrite Htp, Hsp. cbn [ppoly_x spline].
  assert (Qltb x (hd 0 (map fst sp)) = false) as -> by (apply Qltb_false; lra).
  assert (Qltb (List.last (map fst sp) 0) x = false) as -> by (apply Qltb_false; lra).
  apply safety_clamp_compat. unfold ppoly_call. cbn [ppoly_x ppoly_c].
  eapply ppoly_eval_knot; try done.
  - by rewrite !length_map.
  - apply length_find_derivatives; [by rewrite !length_map|].
    rewrite length_map, (Permutation_length Hperm). done.
Qed.

Lemma multiplier_at_control_point_witness :
  get_compensation_multiplier petg_engine 20 == safety_clamp petg_engine 1.025.
Proof.
  apply (multiplier_at_control_point petg_engine petg_tool petg petg_points
           20 1.025 30 1.060).
  - reflexivity.
  - reflexivity.
  - reflexivity.
  - simpl. auto.
  - simpl. auto.
  - vm_compute. reflexivity.
Defined.

(** ** Formatted numbers *)

Lemma format_f_parts d v :
  let n := Z.to_N (round_half_even (Qabs v * inject_Z (Zpos (pow10 d)))) in
  format_f d v
  = sign_text (Qltb v 0) ++ N_digits (n / Npos (pow10 d))
    ++ dot_fraction (fixed_digits d (n mod Npos (pow10 d))).
Proof.
  cbv zeta. unfold format_f, sign_text. destruct d as [|d].
  - change (fixed_digits 0 _) with (@nil ascii). simpl dot_fraction.
    rewrite app_nil_r. by destruct (Qltb v 0).
  - set (n := Z.to_N _).
    destruct (fixed_digits_spec (S d) (n mod Npos (pow10 (S d)))) as (_ & Hl & _).
    destruct (fixed_digits (S d) (n mod Npos (pow10 (S d)))) as [|c fp] eqn:E; [done|].
    simpl dot_fraction. by destruct (Qltb v 0).
Qed.



(** ** The fields of the returned line *)

Lemma all_digits_number_chars d : all_digits d = true -> forallb number_char d = true.
Proof.
  unfold all_digits. induction d as [|c d IH]; simpl; [done|].
  intros H. apply andb_prop in H as [Hc Hd]. unfold number_char at 1.
  by rewrite Hc, IH.
Qed.

Lemma unsigned_shape_number_chars u : unsigned_shape u -> forallb number_char u = true.
Proof.
  intros [d Hd _|d1 d2 Hd1 Hd2 _].
  - by apply all_digits_number_chars.
  - rewrite forallb_app. simpl.
    by rewrite (all_digits_number_chars d1), (all_digits_number_chars d2).
Qed.

Lemma captured_number_chars g :
  (exists c u, g = c :: u /\ is_sign c = true /\ unsigned_shape u) \/ unsigned_shape g ->
  forallb number_char g = true.
Proof.
  intros [(c & u & -> & Hc & Hu)|Hu]; [|by apply unsigned_shape_number_chars].
  simpl. unfold number_char at 1. rewrite Hc, orb_true_r.
  by apply unsigned_shape_number_chars.
Qed.

Lemma span_digits_app_stop s a d r :
  starts_with_digit a = false ->
  span_digits s = (d, r) -> span_digits (s ++ a) = (d, r ++ a).
Proof.
  intros Ha. revert d r. induction s as [|c s IH]; intros d r; simpl.
  - intros [= <- <-]. destruct a as [|c a]; [done|]. simpl in *. by rewrite Ha.
  - destruct (is_digit c); [|by intros [= <- <-]].
    destruct (span_digits s) as [d' t]. intros [= <- <-]. by rewrite (IH d' t).
Qed.

Lemma unsigned_match_app_stop s a :
  stops a ->
  unsigned_match (s ++ a) = (fun m => (m.1, m.2 ++ a)) <$> unsigned_match s.
Proof.
  intros Ha. unfold unsigned_match.
  assert (Hd : starts_with_digit a = false).
  { destruct a as [|c a]; [done|]. simpl in *. unfold number_char in Ha.
    by destruct (is_digit c). }
  destruct (span_digits s) as [d1 r1] eqn:E1.
  rewrite (span_digits_app_stop s a d1 r1 Hd E1).
  assert (Hplain : match d1 with [] => None | _ :: _ => Some (d1, r1 ++ a) end
                   = (fun m : list ascii * list ascii => (m.1, m.2 ++ a))
                       <$> match d1 with [] => None | _ :: _ => Some (d1, r1) end).
  { by destruct d1. }
  destruct r1 as [|c r1].
  - simpl app. destruct a as [|c a]; [exact Hplain|].
    simpl in Ha. destruct (Ascii.eqb_spec c ".") as [->|Hne]; [done|].
    destruct c as [[] [] [] [] [] [] [] []]; try exact Hplain; done.
  - simpl app. destruct (Ascii.eqb_spec c ".") as [->|Hne].
    + destruct (span_digits r1) as [d2 r3] eqn:E2.
      rewrite (span_digits_app_stop r1 a d2 r3 Hd E2).
      destruct d2; [exact Hplain | done].
    + destruct c as [[] [] [] [] [] [] [] []]; try exact Hplain; done.
Qed.

Lemma number_match_app_stop s a :
  stops a ->
  number_match (s ++ a) = (fun m => (m.1, m.2 ++ a)) <$> number_match s.
Proof.
  intros Ha. destruct s as [|c s].
  - simpl app. destruct a as [|c a]; [done|].
    unfold number_match at 1.
    assert (is_sign c = false) as ->.
    { simpl in Ha. unfold number_char in Ha. destruct (is_sign c); [|done].
      by rewrite orb_true_r in Ha. }
    exact (unsigned_match_app_stop [] (c :: a) Ha).
  - change ((c :: s) ++ a) with (c :: (s ++ a)). unfold number_match.
    destruct (is_sign c).
    + rewrite (unsigned_match_app_stop s a Ha).
      by destruct (unsigned_match s) as [[m t]|].
    + exact (unsigned_match_app_stop (c :: s) a Ha).
Qed.

Section Fields.

(** A pattern whose letter is none of the characters of a number, as the
    feed-rate and the axis patterns are. *)
Variable letter : ascii -> bool.
Hypothesis letter_FXYZ : forall c, letter c = true -> is_F c || is_XYZ c = true.

Lemma letter_number_char c : number_char c = true -> letter c = false.
Proof.
  intros Hc. destruct (letter c) eqn:E; [|done]. apply letter_FXYZ in E.
  destruct c as [[] [] [] [] [] [] [] []]; done.
Qed.

Lemma letter_space c : is_space c = true -> letter c = false.
Proof.
  intros Hc. destruct (letter c) eqn:E; [|done]. apply letter_FXYZ in E.
  destruct c as [[] [] [] [] [] [] [] []]; done.
Qed.

Lemma re_scan_app_stop s a skip :
  stops a -> (skip <= length s)%nat ->
  re_scan letter skip (s ++ a) = re_scan letter skip s ++ re_scan letter 0 a.
Proof.
  intros Ha. revert skip. induction s as [|c s IH]; intros skip Hskip; simpl in *.
  - by replace skip with 0%nat by lia.
  - destruct skip as [|k]; [|apply IH; lia].
    destruct (letter c); [|by rewrite IH by lia].
    rewrite (number_match_app_stop s a Ha).
    destruct (number_match s) as [[g r]|] eqn:E; simpl; [|by rewrite IH by lia].
    rewrite IH; [done|]. apply number_match_app in E. subst s.
    rewrite length_app. lia.
Qed.

Lemma re_scan_plain_prefix g r :
  forallb (fun c => negb (letter c)) g = true ->
  re_scan letter 0 (g ++ r) = map Lit g ++ re_scan letter 0 r.
Proof.
  induction g as [|c g IH]; simpl; [done|].
  intros H. apply andb_prop in H as [Hc Hg]. apply negb_true_iff in Hc.
  by rewrite Hc, IH.
Qed.

Lemma re_findall_scan s :
  re_findall letter s
  = flat_map (fun sg => match sg with Lit _ => [] | Field l g => [(l, g)] end)
             (re_scan letter 0 s).
Proof. reflexivity. Qed.

Lemma re_findall_app_stop s a :
  stops a -> re_findall letter (s ++ a) = re_findall letter s ++ re_findall letter a.
Proof.
  intros Ha. rewrite !re_findall_scan, re_scan_app_stop by (done || lia).
  apply flat_map_app.
Qed.

Lemma re_findall_plain_prefix g r :
  forallb (fun c => negb (letter c)) g = true ->
  re_findall letter (g ++ r) = re_findall letter r.
Proof.
  intros Hg. rewrite !re_findall_scan, re_scan_plain_prefix, flat_map_app by done.
  clear Hg. induction g as [|c g IH]; [done | exact IH].
Qed.

Lemma re_findall_plain g :
  forallb (fun c => negb (letter c)) g = true -> re_findall letter g = [].
Proof.
  intros Hg. rewrite <- (app_nil_r g). by rewrite re_findall_plain_prefix.
Qed.

Lemma number_text_plain g :
  forallb number_char g = true -> forallb (fun c => negb (letter c)) g = true.
Proof.
  induction g as [|c g IH]; simpl; [done|].
  intros H. apply andb_prop in H as [Hc Hg].
  by rewrite (letter_number_char c Hc), IH.
Qed.

(** Replacing the numbers of the extrusion fields by other numbers leaves
    the fields of the pattern as they are. *)
Lemma re_sub_fields repl :
  (forall g h, repl g = Ok h -> exists t, h = "E"%char :: t /\ forallb number_char t = true) ->
  forall n line out,
    (length line <= n)%nat ->
    re_sub is_E repl line = Ok out ->
    re_findall letter out = re_findall letter line.
Proof.
  intros Hrepl. induction n as [|n IH]; intros line out Hlen Hsub.
  - destruct line; [|simpl in Hlen; lia]. by injection Hsub as <-.
  - destruct (re_search is_E line) as [[[[pre l] g] post]|] eqn:Hs.
    + pose proof (re_scan_letters is_E 0 line) as Hl.
      pose proof (re_scan_search _ _ _ _ _ _ Hs) as (Hline & _ & Hscan).
      rewrite Hscan in Hl. apply Forall_app in Hl as [_ Hl].
      apply Forall_cons in Hl as [Hl _]. apply Ascii.eqb_eq in Hl as ->.
      unfold re_sub in Hsub. rewrite Hscan, subst_segments_lits in Hsub.
      apply bind_Ok in Hsub as (tl & Htl & [= <-]). simpl in Htl.
      apply bind_Ok in Htl as (h & Hh & Htl).
      apply bind_Ok in Htl as (out_post & Hpost & [= <-]).
      destruct (Hrepl g h Hh) as (t & -> & Ht).
      assert (Hg : forallb number_char g = true).
      { pose proof (re_scan_search _ _ _ _ _ _ Hs) as (_ & Hm & _).
        apply number_match_spec in Hm as (_ & Hshape & _). by apply captured_number_chars. }
      assert (stops ("E"%char :: g ++ post)) as Hstop1 by done.
      assert (stops (("E"%char :: t) ++ out_post)) as Hstop2 by done.
      rewrite Hline, (re_findall_app_stop pre _ Hstop1), (re_findall_app_stop pre _ Hstop2).
      f_equal.
      change ("E"%char :: g ++ post) with (("E"%char :: g) ++ post).
      rewrite !re_findall_plain_prefix.
      * apply (IH post out_post); [|done]. subst line. rewrite length_app in Hlen.
        simpl in Hlen. rewrite length_app in Hlen. lia.
      * simpl. rewrite (number_text_plain g Hg).
        destruct (letter "E") eqn:E; [|done]. by apply letter_FXYZ in E.
      * simpl. rewrite (number_text_plain t Ht).
        destruct (letter "E") eqn:E; [|done]. by apply letter_FXYZ in E.
    + unfold re_sub in Hsub.
      rewrite (re_scan_no_match _ _ Hs), subst_segments_only_lits in Hsub.
      by injection Hsub as <-.
Qed.

Lemma rstrip_fields s : re_findall letter (rstrip is_space s) = re_findall letter s.
Proof.
  destruct (rstrip_spec is_space s) as (z & Hz & Hp). rewrite Hz at 2.
  rewrite re_findall_app_stop.
  - rewrite (re_findall_plain z), app_nil_r; [done|].
    clear Hz. induction z as [|c z IH]; simpl in *; [done|].
    apply andb_prop in Hp as [Hc Hp]. by rewrite (letter_space c Hc), IH.
  - destruct z as [|c z]; [done|]. simpl in *. apply andb_prop in Hp as [Hc _].
    destruct c as [[] [] [] [] [] [] [] []]; done.
Qed.

End Fields.

Lemma sign_text_number_chars neg : forallb number_char (sign_text neg) = true.
Proof. by destruct neg. Qed.

Lemma dot_fraction_number_chars fp :
  all_digits fp = true -> forallb number_char (dot_fraction fp) = true.
Proof.
  intros H. destruct fp as [|c fp]; [done|].
  change (dot_fraction (c :: fp)) with ("."%char :: c :: fp).
  change (forallb number_char ("."%char :: c :: fp))
    with (true && forallb number_char (c :: fp)).
  by rewrite (all_digits_number_chars (c :: fp)).
Qed.

Lemma format_f_number_chars d v : forallb number_char (format_f d v) = true.
Proof.
  rewrite format_f_parts. cbv zeta. rewrite !forallb_app.
  set (n := Z.to_N _).
  destruct (N_digits_spec (n / Npos (pow10 d))) as (_ & Hip & _).
  destruct (fixed_digits_spec d (n mod Npos (pow10 d))) as (_ & _ & Hfp).
  by rewrite sign_text_number_chars, (all_digits_number_chars _ Hip),
    (dot_fraction_number_chars _ Hfp).
Qed.

Lemma Z_digits_number_chars n : forallb number_char (Z_digits n) = true.
Proof.
  unfold Z_digits. destruct (N_digits_spec (Z.abs_N n)) as (_ & H & _).
  apply all_digits_number_chars in H. by destruct (n <? 0)%Z; simpl; rewrite H.
Qed.

Lemma replace_e_number_chars multiplier g h :
  replace_e multiplier g = Ok h ->
  exists t, h = "E"%char :: t /\ forallb number_char t = true.
Proof.
  intros H. pose proof H as H'. unfold replace_e in H'.
  apply bind_Ok in H' as (e & He & _).
  destruct (replace_e_text multiplier g e He)
    as (fp' & z & _ & _ & Hip & _ & Hfp' & Htext).
  match type of Hip with
  | all_digits ?t = true => remember t as ip eqn:Eip; clear Eip
  end.
  remember (sign_text (Qltb (e * multiplier) 0)) as sg eqn:Esg.
  rewrite Htext in H. injection H as <-. eexists. split; [reflexivity|].
  rewrite !forallb_app, Esg.
  by rewrite sign_text_number_chars, (all_digits_number_chars _ Hip),
    (dot_fraction_number_chars _ Hfp').
Qed.

Lemma annotation_plain letter self flow_rate multiplier :
  (forall c, letter c = true -> is_F c || is_XYZ c = true) ->
  stops (annotation self flow_rate multiplier)
  /\ forallb (fun c => negb (letter c)) (annotation self flow_rate multiplier) = true.
Proof.
  intros Hl. split; [done|].
  assert (Hconst : forall s,
             forallb (fun c => negb (is_F c || is_XYZ c)) s = true ->
             forallb (fun c => negb (letter c)) s = true).
  { induction s as [|c s IH]; simpl; [done|].
    intros H. apply andb_prop in H as [Hc Hs]. rewrite IH by done.
    destruct (letter c) eqn:E; [|done]. apply Hl in E. by rewrite E in Hc. }
  unfold annotation. rewrite !forallb_app.
  rewrite !(number_text_plain letter Hl _ (format_f_number_chars _ _)).
  rewrite (Hconst (list_ascii_of_string " ; flow_comp")),
    (Hconst (list_ascii_of_string ": ")),
    (Hconst (list_ascii_of_string "mm3/s x")), (Hconst [newline]) by reflexivity.
  destruct (1 <? size (tool_profiles self))%nat; [|done].
  rewrite forallb_app, (Hconst (list_ascii_of_string " T")) by reflexivity.
  by rewrite (number_text_plain letter Hl _ (Z_digits_number_chars _)).
Qed.

Lemma compensate_line_fields letter self line move_info out self' :
  (forall c, letter c = true -> is_F c || is_XYZ c = true) ->
  compensate_line self line move_info = Ok (out, self') ->
  re_findall letter out = re_findall letter line.
Proof.
  intros Hl H. unfold compensate_line in H.
  apply bind_Ok in H as (flow_rate & _ & H).
  destruct (stats self !! active_tool self) as [ts|]; [|discriminate].
  destruct (Qltb _ _); [by injection H as <- _|].
  apply bind_Ok in H as (cl & Hsub & H). injection H as <- _.
  apply (re_sub_fields letter Hl _ (replace_e_number_chars _) (length line)) in Hsub;
    [|done].
  destruct (default true (log_changes (config self))); [|done].
  destruct (annotation_plain letter self flow_rate
              (get_compensation_multiplier self flow_rate) Hl) as [Hstop Hplain].
  rewrite (re_findall_app_stop letter _ _ Hstop).
  by rewrite (re_findall_plain letter _ Hplain), app_nil_r, (rstrip_fields letter Hl).
Qed.

(** X14 — the line [compensate_line] returns has the axis fields and the
    feed-rate fields of the line it was given, in the same order and with
    the same texts: neither the new extrusion numbers nor the stripping of
    trailing blanks nor the appended comment adds, removes or changes one. *)
Theorem compensate_line_keeps_fields (self : FlowCompensator) (line : list ascii)
        (move_info : MoveInfo) (out : list ascii) (self' : FlowCompensator) :
  compensate_line self line move_info = Ok (out, self') ->
  re_findall is_XYZ out = re_findall is_XYZ line
  /\ re_findall is_F out = re_findall is_F line.
Proof.
  intros H. split; eapply compensate_line_fields; try exact H.
  - intros c ->. apply orb_true_r.
  - intros c ->. done.
Qed.

Lemma compensate_line_keeps_fields_witness :
  re_findall is_XYZ test_result.1 = re_findall is_XYZ test_line
  /\ re_findall is_F test_result.1 = re_findall is_F test_line.
Proof.
  apply (compensate_line_keeps_fields petg_engine test_line test_move
           test_result.1 test_result.2).
  vm_compute. reflexivity.
Defined.

Lemma re_search_findall letter s :
  match re_search letter s with
  | Some (_, l, g, _) => head (re_findall letter s) = Some (l, g)
  | None => re_findall letter s = []
  end.
Proof.
  unfold re_findall.
  destruct (re_search letter s) as [[[[pre l] g] post]|] eqn:E.
  - apply re_scan_search in E as (_ & _ & ->). rewrite flat_map_app.
    replace (flat_map _ (map Lit pre)) with (@nil (ascii * list ascii)); [done|].
    clear. induction pre as [|c pre IH]; [done | exact IH].
  - rewrite (re_scan_no_match _ _ E). clear. induction s as [|c s IH]; [done | exact IH].
Qed.

Lemma compensate_line_keeps_command self line move_info out self' :
  compensate_line self line move_info = Ok (out, self') ->
  G1_PATTERN_match line = true ->
  G1_PATTERN_match out = true.
Proof.
  intros H HG. unfold compensate_line in H.
  apply bind_Ok in H as (flow_rate & _ & H).
  destruct (stats self !! active_tool self) as [ts|]; [|discriminate].
  destruct (Qltb _ _); [by injection H as <- _|].
  apply bind_Ok in H as (cl & Hsub & H). injection H as <- _.
  destruct line as [|a [|c rest]]; [done | by destruct a as [[] [] [] [] [] [] [] []] |].
  assert (a = "G"%char /\ (c = "0"%char \/ c = "1"%char)) as [-> Hc].
  { simpl in HG. destruct (Ascii.eqb_spec a "G") as [->|Hne].
    - split; [done|]. apply orb_prop in HG as [E|E]; apply Ascii.eqb_eq in E; auto.
    - destruct a as [[] [] [] [] [] [] [] []]; done. }
  assert (exists tl, cl = "G"%char :: c :: tl) as [tl ->].
  { unfold re_sub in Hsub.
    assert (re_scan is_E 0 ("G"%char :: c :: rest)
            = Lit "G" :: Lit c :: re_scan is_E 0 rest) as Hscan
        by (by destruct Hc as [-> | ->]).
    rewrite Hscan in Hsub.
    change (subst_segments ?r (Lit ?x :: Lit ?y :: ?segs))
      with (t ← (t ← subst_segments r segs; mret (y :: t)); mret (x :: t)) in Hsub.
    apply bind_Ok in Hsub as (t1 & Hsub & E1).
    apply bind_Ok in Hsub as (t2 & _ & E2).
    injection E1 as <-. injection E2 as <-. by eexists. }
  destruct (default true (log_changes (config self))).
  - assert (is_space c = false) as Hsp by (by destruct Hc as [-> | ->]).
    destruct (rstrip_head is_space c tl Hsp) as [t Ht].
    change (rstrip is_space ("G"%char :: c :: tl))
      with (match rstrip is_space (c :: tl) with
            | [] => if is_space "G" then [] else ["G"%char]
            | r' => "G"%char :: r'
            end).
    rewrite Ht. simpl. by destruct Hc as [-> | ->].
  - simpl. by destruct Hc as [-> | ->].
Qed.

(** X15 — parsing the line [compensate_line] returns, from the position and
    feed rate from which the line it was given was parsed, gives the same
    feed rate and the same coordinates, the extrusion coordinate apart. *)
Theorem reparse_same_motion (math_sqrt : Q -> Q) (self : FlowCompensator)
        (line : list ascii) (move_info : MoveInfo) (out : list ascii)
        (self' : FlowCompensator) (pos : gmap string Q) (fr : Q)
        (m1 m2 : option MoveInfo) (pos1 pos2 : gmap string Q) (fr1 fr2 : Q) :
  compensate_line self line move_info = Ok (out, self') ->
  G1_PATTERN_match line = true ->
  parse_move math_sqrt line pos fr = Ok (m1, pos1, fr1) ->
  parse_move math_sqrt out pos fr = Ok (m2, pos2, fr2) ->
  fr2 = fr1 /\ forall k : string, k <> "e"%string -> pos2 !! k = pos1 !! k.
Proof.
  intros Hc HG H1 H2.
  pose proof (compensate_line_keeps_command _ _ _ _ _ Hc HG) as HG'.
  assert (HF : re_findall is_F out = re_findall is_F line).
  { eapply compensate_line_fields; [|exact Hc]. by intros c ->. }
  assert (HX : re_findall is_XYZ out = re_findall is_XYZ line).
  { eapply compensate_line_fields; [|exact Hc]. intros c ->. apply orb_true_r. }
  apply parse_move_inv in H1 as [(E & _)|(_ & Hf1 & np1 & Hp1 & Hcase1)]; [congruence|].
  apply parse_move_inv in H2 as [(E & _)|(_ & Hf2 & np2 & Hp2 & Hcase2)]; [congruence|].
  rewrite HX, Hp1 in Hp2. injection Hp2 as <-. split.
  - pose proof (re_search_findall is_F line) as S1.
    pose proof (re_search_findall is_F out) as S2. rewrite HF in S2.
    destruct (re_search is_F line) as [[[[? l1] g1] ?]|];
      destruct (re_search is_F out) as [[[[? l2] g2] ?]|].
    + rewrite S1 in S2. injection S2 as <- <-. congruence.
    + rewrite S2 in S1. done.
    + rewrite S1 in S2. done.
    + congruence.
  - intros k Hk.
    assert (Hpos : forall (mi : option MoveInfo) p,
               (mi = None /\ p = np1)
               \/ (exists e, mi <> None
                             /\ p = <["e"%string := dict_get pos "e" 0 + e]> np1) ->
               p !! k = np1 !! k).
    { intros mi p [[_ ->]|(e & _ & ->)]; [done|]. by rewrite lookup_insert_ne. }
    by rewrite (Hpos _ _ Hcase1), (Hpos _ _ Hcase2).
Qed.

Lemma reparse_same_motion_witness :
  3000 = 3000
  /\ forall k : string,
      k <> "e"%string ->
      <["e"%string := 15.883]> (tracked 110 100 0 10) !! k
      = <["e"%string := 15.55]> (tracked 110 100 0 10) !! k.
Proof.
  apply (reparse_same_motion (fun q => q) petg_engine test_line test_move
           test_result.1 test_result.2 (tracked 100 100 0 10) 1200
           (Some {| extrusion := 5.55; distance := 100; feedrate := 3000 |})
           (Some {| extrusion := 5.883; distance := 100; feedrate := 3000 |})).
  - vm_compute. reflexivity.
  - reflexivity.
  - vm_compute. reflexivity.
  - vm_compute. reflexivity.
Defined.

(** ** The round trip of the extrusion field *)

Lemma re_search_cons letter c r :
  re_search letter (c :: r)
  = let next :=
      match re_search letter r with
      | Some (pre, l, g, post) => Some (c :: pre, l, g, post)
      | None => None
      end in
    if letter c then
      match number_match r with
      | Some (g, post) => Some ([], c, g, post)
      | None => next
      end
    else next.
Proof. reflexivity. Qed.

(** Another number in the place of the first field leaves the field where
    it is, when the number ends where the text behind it begins. *)
Lemma re_search_replace s pre g post t rest :
  re_search is_E s = Some (pre, "E"%char, g, post) ->
  number_match (t ++ rest) = Some (t, rest) ->
  re_search is_E (pre ++ "E"%char :: t ++ rest) = Some (pre, "E"%char, t, rest).
Proof.
  intros Hs Hm. revert pre Hs. induction s as [|c s IH]; intros pre Hs; [done|].
  rewrite re_search_cons in Hs. cbv zeta in Hs.
  assert (Hnext : match re_search is_E s with
                  | Some (pre0, l0, g0, post0) => Some (c :: pre0, l0, g0, post0)
                  | None => None
                  end = Some (pre, "E"%char, g, post) ->
                  exists pre0, pre = c :: pre0
                               /\ s = pre0 ++ "E"%char :: g ++ post
                               /\ re_search is_E (pre0 ++ "E"%char :: t ++ rest)
                                  = Some (pre0, "E"%char, t, rest)).
  { destruct (re_search is_E s) as [[[[pre0 l0] g0] post0]|] eqn:Hr; [|done].
    intros [= <- -> -> ->]. exists pre0. split; [done|].
    split; [by apply re_scan_search in Hr as (? & _)|]. by apply IH. }
  assert (Hstop : forall x, stops ("E"%char :: x)) by done.
  destruct (is_E c) eqn:Hc.
  - destruct (number_match s) as [[g0 post0]|] eqn:Hn.
    + injection Hs as <- -> -> ->. cbn [app]. rewrite re_search_cons. cbv zeta.
      change (is_E "E") with true. cbv iota. by rewrite Hm.
    + destruct (Hnext Hs) as (pre0 & -> & Hsplit & Hrec).
      cbn [app]. rewrite re_search_cons, Hc, Hrec. cbv zeta.
      rewrite Hsplit, (number_match_app_stop pre0 _ (Hstop _)) in Hn.
      rewrite (number_match_app_stop pre0 _ (Hstop _)).
      by destruct (number_match pre0).
  - destruct (Hnext Hs) as (pre0 & -> & _ & Hrec).
    cbn [app]. by rewrite re_search_cons, Hc, Hrec.
Qed.

(** What stands behind the first field after the substitution begins as
    the text behind it began, or with the [E] of a rewritten field. *)
Lemma subst_first_stops multiplier post rest :
  stops post ->
  subst_segments (replace_e multiplier) (re_scan is_E 0 post) = Ok rest ->
  stops rest.
Proof.
  destruct post as [|c r]; [by intros _ [= <-]|]. intros Hc Hsub.
  assert (Hlit : forall segs,
             subst_segments (replace_e multiplier) (Lit c :: segs) = Ok rest -> stops rest).
  { intros segs H.
    change (subst_segments ?f (Lit c :: segs))
      with (t ← subst_segments f segs; mret (c :: t)) in H.
    apply bind_Ok in H as (t & _ & [= <-]). exact Hc. }
  cbn [re_scan] in Hsub. destruct (is_E c); [|by eapply Hlit].
  destruct (number_match r) as [[g0 p0]|]; [|by eapply Hlit].
  change (subst_segments ?f (Field ?l ?g1 :: ?segs))
    with (h ← f g1; t ← subst_segments f segs; mret (h ++ t)) in Hsub.
  apply bind_Ok in Hsub as (h & Hh & Hsub).
  apply bind_Ok in Hsub as (t & _ & [= <-]).
  apply replace_e_number_chars in Hh as (t0 & -> & _). done.
Qed.

Lemma rstrip_behind_number l t rest :
  t <> [] -> forallb number_char t = true ->
  exists tail,
    rstrip is_space (l ++ t ++ rest) = l ++ t ++ tail
    /\ (tail = [] \/ exists c r r', tail = c :: r /\ rest = c :: r').
Proof.
  intros Hne Ht.
  assert (rstrip is_space t = t) as Hid.
  { apply rstrip_id. clear Hne. induction t as [|c t IH]; [done|].
    simpl in *. apply andb_prop in Ht as [Hc Ht]. rewrite IH by done.
    destruct c as [[] [] [] [] [] [] [] []]; done. }
  rewrite app_assoc, rstrip_app.
  destruct (rstrip is_space rest) as [|c r] eqn:E.
  - exists []. rewrite app_nil_r. split; [|by left].
    rewrite rstrip_app, Hid. by destruct t.
  - exists (c :: r). split; [by rewrite <- app_assoc|]. right.
    destruct (rstrip_spec is_space rest) as (z & Hz & _). rewrite E in Hz.
    by exists c, r, (r ++ z).
Qed.

(** C10, as stated, fails: the number of the field [E50.0] is followed by
    [.5]; the new value, 53, is written as [E53] once its zeros and its dot
    are trimmed, and what the extrusion pattern finds in the output is
    [E53.5]. *)
Lemma merged_field_reads_back_wrong :
  let line := L "G1 X110 Y100 E50.0.5 F3000" ++ [newline] in
  let move_info := {| extrusion := 50; distance := 10; feedrate := 3000 |} in
  let out := L "G1 X110 Y100 E53.5 F3000 ; flow_comp: 601.3mm3/s x1.060" ++ [newline] in
  line_of (compensate_line petg_engine line move_info) = Some out
  /\ (exists flow_rate,
        calculate_flow_rate petg_engine 50 10 3000 = Ok flow_rate
        /\ get_compensation_multiplier petg_engine flow_rate == 1.06)
  /\ re_search is_E line
     = Some (L "G1 X110 Y100 ", "E"%char, L "50.0", L ".5 F3000" ++ [newline])
  /\ py_float (L "50.0") = Ok 50.0
  /\ re_search is_E out
     = Some (L "G1 X110 Y100 ", "E"%char, L "53.5",
             L " F3000 ; flow_comp: 601.3mm3/s x1.060" ++ [newline])
  /\ py_float (L "53.5") = Ok 53.5
  /\ 53.5 - 50.0 * 1.06 == 1 # 2.
Proof.
  cbv zeta. split; [vm_compute; reflexivity|].
  split; [eexists; split; [reflexivity | vm_compute; reflexivity]|].
  do 4 (split; [vm_compute; reflexivity|]). vm_compute. reflexivity.
Qed.

(** C10, amended — on a line whose first extrusion number is followed by
    a character that is no part of a number (no digit, dot or sign: in
    G-code a blank or the line end), a call of [compensate_line] that
    rewrites the line leaves the first extrusion field where it was, behind
    the same text, and the number [float] reads from that field of the
    output is [float] of the old number times the multiplier, to within one
    unit of the sixth decimal.  (A call that does not rewrite returns the
    line as it was.) *)
Theorem compensated_field_round_trip (self : FlowCompensator) (line : list ascii)
        (move_info : MoveInfo) (out : list ascii) (self' : FlowCompensator)
        (pre g post : list ascii) :
  compensate_line self line move_info = Ok (out, self') ->
  re_search is_E line = Some (pre, "E"%char, g, post) ->
  stops post ->
  exists flow_rate original_e,
    calculate_flow_rate self (extrusion move_info) (distance move_info) (feedrate move_info)
    = Ok flow_rate
    /\ py_float g = Ok original_e
    /\ let multiplier := get_compensation_multiplier self flow_rate in
       (Qabs (multiplier - 1) < 0.001 /\ out = line)
       \/ (0.001 <= Qabs (multiplier - 1)
           /\ exists g' post' new_e,
               re_search is_E out = Some (pre, "E"%char, g', post')
               /\ py_float g' = Ok new_e
               /\ Qabs (new_e - original_e * multiplier) <= 1 # 1000000).
Proof.
  intros H Hs Hstop.
  pose proof (re_scan_search _ _ _ _ _ _ Hs) as (Hline & Hg & Hscan).
  destruct (py_float_captured _ _ _ Hg) as [e He].
  unfold compensate_line in H. apply bind_Ok in H as (flow_rate & Hflow & H).
  exists flow_rate, e. split; [done|]. split; [done|]. cbv zeta.
  destruct (stats self !! active_tool self) as [tool_stats|]; [|discriminate].
  destruct (Qltb (Qabs (get_compensation_multiplier self flow_rate - 1)) 0.001) eqn:Htol.
  - left. apply Qltb_true in Htol. by injection H as <- _.
  - right. apply Qltb_false in Htol. split; [done|].
    apply bind_Ok in H as (cl & Hsub & H).
    destruct (replace_e_reads_back (get_compensation_multiplier self flow_rate) g e He)
      as (t & new_e & Hrep & Hmatch & Hfloat & Hclose).
    unfold re_sub in Hsub. rewrite Hscan, subst_segments_lits in Hsub.
    apply bind_Ok in Hsub as (tl & Htl & [= <-]).
    change (subst_segments ?f (Field ?l ?g1 :: ?segs))
      with (h ← f g1; t ← subst_segments f segs; mret (h ++ t)) in Htl.
    rewrite Hrep, bind_Ok_l in Htl. apply bind_Ok in Htl as (rest & Hrest & [= <-]).
    pose proof (subst_first_stops _ _ _ Hstop Hrest) as Hstop'.
    assert (forallb number_char t = true) as Ht.
    { apply replace_e_number_chars in Hrep as (t0 & [= <-] & Ht0). exact Ht0. }
    assert (t <> []) as Hne by (intros ->; done).
    assert (Hfound : forall tail,
               stops tail ->
               re_search is_E (pre ++ "E"%char :: t ++ tail)
               = Some (pre, "E"%char, t, tail)).
    { intros tail Htail. apply (re_search_replace line pre g post); [done|].
      by rewrite (number_match_app_stop t tail Htail), Hmatch. }
    assert (Hbound : Qabs (new_e - e * get_compensation_multiplier self flow_rate)
                     <= 1 # 1000000).
    { eapply Qle_trans; [exact Hclose|]. vm_compute. discriminate. }
    injection H as <- _. exists t.
    destruct (default true (log_changes (config self))).
    + destruct (rstrip_behind_number (pre ++ ["E"%char]) t rest Hne Ht)
        as (tail & Htail & Hcase).
      assert (Heq : pre ++ "E"%char :: t ++ rest = (pre ++ ["E"%char]) ++ t ++ rest)
        by (by rewrite <- app_assoc).
      cbn [app]. rewrite Heq, Htail, <- !app_assoc. cbn [app].
      eexists _, new_e. split; [|done]. apply Hfound.
      destruct Hcase as [->|(c & r & r' & -> & ->)]; [done | exact Hstop'].
    + exists rest, new_e. split; [|done]. cbn [app]. by apply Hfound.
Qed.

Lemma compensated_field_round_trip_witness :
  exists flow_rate original_e,
    calculate_flow_rate petg_engine 5.55 10 3000 = Ok flow_rate
    /\ py_float (L "5.55") = Ok original_e
    /\ let multiplier := get_compensation_multiplier petg_engine flow_rate in
       (Qabs (multiplier - 1) < 0.001 /\ test_result.1 = test_line)
       \/ (0.001 <= Qabs (multiplier - 1)
           /\ exists g' post' new_e,
               re_search is_E test_result.1 = Some (L "G1 X110 Y100 ", "E"%char, g', post')
               /\ py_float g' = Ok new_e
               /\ Qabs (new_e - original_e * multiplier) <= 1 # 1000000).
Proof.
  apply (compensated_field_round_trip petg_engine test_line test_move
           test_result.1 test_result.2 (L "G1 X110 Y100 ") (L "5.55")
           (L " F3000" ++ [newline])).
  - vm_compute. reflexivity.
  - vm_compute. reflexivity.
  - reflexivity.
Defined.

(** ** The loop over the lines *)









Lemma foldr_min_le (k : Z) (r : list Z) t : t ∈ k :: r -> (foldr Z.min k r <= t)%Z.
Proof.
  induction r as [|a r IH]; simpl.
  - rewrite elem_of_cons. intros [->|Hin]; [lia | by apply elem_of_nil in Hin].
  - rewrite !elem_of_cons. intros [->|[->|Hin]].
    + assert (foldr Z.min k r <= k)%Z by (apply IH; by left). lia.
    + lia.
    + assert (foldr Z.min k r <= t)%Z by (apply IH; by right). lia.
Qed.

Lemma min_key_le {V} (d : gmap Z V) k t :
  min_key d = Some k -> is_Some (d !! t) -> (k <= t)%Z.
Proof.
  unfold min_key. destruct ((map_to_list d).*1) as [|k0 r] eqn:E; [done|].
  intros [= <-] [v Hv]. apply foldr_min_le. rewrite <- E.
  apply list_elem_of_fmap. exists (t, v). split; [done|]. by apply elem_of_map_to_list.
Qed.

Section LineLoop.

Variable math_sqrt : Q -> Q.



Lemma main_step_output has_multi d line d' :
  main_step math_sqrt has_multi d line = Ok d' ->
  exists out,
    output_lines d' = output_lines d ++ [out] /\ (passes_through line -> out = line).
Proof.
  unfold main_step.
  destruct (tool_switch has_multi (compensator d) line) as [t|].
  - intros [= <-]. by exists line.
  - intros H. apply bind_Ok in H as ([[mi np] nf] & Hp & H). destruct mi as [mi|].
    + apply bind_Ok in H as ([cl c] & _ & [= <-]). exists cl. split; [done|].
      intros [HG|HE].
      * by rewrite (parse_move_not_recognized _ _ _ _ HG) in Hp.
      * destruct (G1_PATTERN_match line) eqn:HG.
        -- destruct (parse_move_travel math_sqrt line (current_pos d) (current_feedrate d)
                       HG (or_introl HE)) as (? & ? & Hp' & _).
           by rewrite Hp' in Hp.
        -- by rewrite (parse_move_not_recognized _ _ _ _ HG) in Hp.
    + injection H as <-. by exists line.
Qed.

Lemma main_loop_output has_multi lines d d' :
  main_loop math_sqrt has_multi d lines = Ok d' ->
  exists outs,
    output_lines d' = output_lines d ++ outs
    /\ length outs = length lines
    /\ forall (i : nat) line,
        lines !! i = Some line -> passes_through line -> outs !! i = Some line.
Proof.
  revert d. induction lines as [|line lines IH]; intros d; simpl.
  - intros [= <-]. exists []. by rewrite app_nil_r.
  - intros H. apply bind_Ok in H as (d1 & Hstep & H).
    apply main_step_output in Hstep as (out & Hout & Hpass).
    apply IH in H as (outs & Houts & Hlen & Hsame).
    exists (out :: outs). split; [by rewrite Houts, Hout, <- app_assoc|].
    split; [simpl; by rewrite Hlen|].
    intros [|i] l Hl Hp; simpl in *.
    + injection Hl as <-. by rewrite Hpass.
    + by apply Hsame.
Qed.

Lemma main_step_frame has_multi d line d' :
  main_step math_sqrt has_multi d line = Ok d' ->
  config (compensator d') = config (compensator d)
  /\ filament_diameter (compensator d') = filament_diameter (compensator d)
  /\ filament_area (compensator d') = filament_area (compensator d)
  /\ tool_profiles (compensator d') = tool_profiles (compensator d)
  /\ (has_multi = false -> active_tool (compensator d') = active_tool (compensator d)).
Proof.
  unfold main_step.
  destruct (tool_switch has_multi (compensator d) line) as [t|] eqn:Hsw.
  - intros [= <-]. simpl. do 4 (split; [done|]). intros ->.
    unfold tool_switch in Hsw. by destruct (TOOL_CHANGE_PATTERN_match _).
  - intros H. apply bind_Ok in H as ([[mi np] nf] & _ & H). destruct mi as [mi|].
    + apply bind_Ok in H as ([cl c] & Hc & [= <-]). simpl.
      by apply compensate_line_inv in Hc as (? & ? & ? & _ & _ & -> & _).
    + by injection H as <-.
Qed.


(** X17 — the loop of [main] writes one line for every line it reads, in
    the order of the file, behind the lines written before; and a line that
    is no [G0] or [G1] command, or has no extrusion field, is written as it
    was read. *)
Theorem main_loop_emits_every_line (has_multi : bool) (lines : list (list ascii))
        (d d' : Driver) :
  main_loop math_sqrt has_multi d lines = Ok d' ->
  exists outs,
    output_lines d' = output_lines d ++ outs
    /\ length outs = length lines
    /\ forall (i : nat) line,
        lines !! i = Some line -> passes_through line -> outs !! i = Some line.
Proof. apply main_loop_output. Qed.

(** X18 — the loop of [main] changes nothing of the engine but its
    statistics and its active tool: the configuration, the filament
    diameter and area, and the profiles of the tools are those the setup
    left; and in single-material mode the active tool never changes,
    whatever tool-select lines the file has. *)
Theorem main_loop_keeps_setup (has_multi : bool) (lines : list (list ascii))
        (d d' : Driver) :
  main_loop math_sqrt has_multi d lines = Ok d' ->
  config (compensator d') = config (compensator d)
  /\ filament_diameter (compensator d') = filament_diameter (compensator d)
  /\ filament_area (compensator d') = filament_area (compensator d)
  /\ tool_profiles (compensator d') = tool_profiles (compensator d)
  /\ (has_multi = false -> active_tool (compensator d') = active_tool (compensator d)).
Proof.
  revert d. induction lines as [|line lines IH]; intros d; simpl.
  - by intros [= <-].
  - intros H. apply bind_Ok in H as (d1 & Hstep & H).
    apply main_step_frame in Hstep as (E1 & E2 & E3 & E4 & E5).
    apply IH in H as (F1 & F2 & F3 & F4 & F5).
    rewrite F1, F2, F3, F4, E1, E2, E3, E4. do 4 (split; [done|]).
    intros Hs. by rewrite F5, E5.
Qed.

End LineLoop.


Lemma main_loop_emits_every_line_witness :
  exists outs,
    output_lines test_run = output_lines (initial_driver petg_main_engine) ++ outs
    /\ length outs = length test_lines
    /\ forall (i : nat) line,
        test_lines !! i = Some line -> passes_through line -> outs !! i = Some line.
Proof.
  apply (main_loop_emits_every_line (fun q => q) false test_lines
           (initial_driver petg_main_engine) test_run).
  vm_compute. reflexivity.
Defined.

Lemma main_loop_keeps_setup_witness :
  config (compensator test_run) = config petg_main_engine
  /\ filament_diameter (compensator test_run) = filament_diameter petg_main_engine
  /\ filament_area (compensator test_run) = filament_area petg_main_engine
  /\ tool_profiles (compensator test_run) = tool_profiles petg_main_engine
  /\ (false = false -> active_tool (compensator test_run) = active_tool petg_main_engine).
Proof.
  apply (main_loop_keeps_setup (fun q => q) false test_lines
           (initial_driver petg_main_engine) test_run).
  vm_compute. reflexivity.
Defined.

(** X19 — the tool that is active when the loop of [main] begins: in
    multi-material mode no tool with a profile has a smaller number, in
    single-material mode it is tool 0. *)
Theorem main_setup_active_tool (cfg : Config) (material : option string) (diameter : Q)
        (no_comments has_multi : bool) (c0 : FlowCompensator) (t : Z) :
  main_setup cfg material diameter no_comments = Ok (has_multi, c0) ->
  is_Some (tool_profiles c0 !! t) ->
  if has_multi then (active_tool c0 <= t)%Z else active_tool c0 = 0%Z.
Proof.
  unfold main_setup. intros H Ht.
  apply bind_Ok in H as ([hm c] & Hmap & H). apply bind_Ok in H as (c1 & Hc1 & [= <- <-]).
  apply load_extruder_mapping_active in Hmap as (Hact & _).
  assert (active_tool (__init__ cfg) = 0%Z) as H0 by reflexivity.
  rewrite H0 in Hact. clear H0.
  destruct hm.
  - destruct (min_key (tool_profiles c)) as [t0|] eqn:Hmin; [|done].
    injection Hc1 as <-.
    assert (is_Some (tool_profiles c !! t)) as Ht' by (by destruct no_comments).
    pose proof (min_key_le _ _ _ Hmin Ht'). by destruct no_comments.
  - apply bind_Ok in Hc1 as (c2 & Hload & Hbuild).
    assert (active_tool c2 = 0%Z) as Hc2.
    { destruct (str_truthy _);
        apply load_material_profile_inv in Hload as (tp & _ & _ & Ha & _); congruence. }
    assert (active_tool c1 = 0%Z) as Hc1.
    { unfold build_spline in Hbuild. destruct (0 <? size (tool_profiles c2))%nat.
      - by injection Hbuild as <-.
      - apply load_material_profile_inv in Hbuild as (tp & _ & _ & Ha & _). congruence. }
    by destruct no_comments.
Qed.

Lemma main_setup_active_tool_witness : (active_tool two_tool_engine <= 2)%Z.
Proof.
  apply (main_setup_active_tool two_tool_config None 1.75 false true two_tool_engine 2).
  - vm_compute. reflexivity.
  - vm_compute. by eexists.
Defined.

(** ** The metadata of the header *)

Lemma tagged_match_captured lit sep spaced s g :
  tagged_match lit sep spaced number_match s = Some g -> captured g.
Proof.
  unfold tagged_match. destruct (literal_match lit s) as [r|]; [|done].
  destruct (lstrip is_space r) as [|c r']; [done|].
  destruct (Ascii.eqb _ _); [|done].
  destruct (number_match _) as [[g' t]|] eqn:E; [|done].
  intros [= <-]. by eexists _, _.
Qed.

Lemma tagged_search_captured lit sep spaced s g :
  tagged_search lit sep spaced number_match s = Some g -> captured g.
Proof.
  induction s as [|c s IH]; simpl;
    destruct (tagged_match lit sep spaced number_match _) as [g'|] eqn:E; try done;
    intros [= <-]; by eapply tagged_match_captured.
Qed.

Lemma extract_number_returns found current :
  (forall g, found = Some g -> captured g) -> returns (extract_number found current).
Proof.
  intros H. destruct found as [g|], current as [x|]; simpl; try by eexists.
  destruct (H g eq_refl) as (s & r & Hm).
  destruct (py_float_captured _ _ _ Hm) as [v ->]. by eexists.
Qed.

Lemma _extract_metadata_from_line_returns metadata line :
  returns (_extract_metadata_from_line metadata line).
Proof.
  unfold _extract_metadata_from_line.
  destruct (extract_number_returns (FILAMENT_DIAMETER_PATTERN_search line)
              (md_filament_diameter metadata)) as [fd ->];
    [intros g; apply tagged_search_captured|].
  rewrite bind_Ok_l.
  destruct (extract_number_returns (LAYER_HEIGHT_PATTERN_search line)
              (md_layer_height metadata)) as [lh ->];
    [intros g; apply tagged_search_captured|].
  rewrite bind_Ok_l.
  destruct (extract_number_returns (LINE_WIDTH_PATTERN_search line)
              (md_line_width metadata)) as [lw ->];
    [intros g; apply tagged_search_captured|].
  rewrite bind_Ok_l. by eexists.
Qed.

Lemma extract_lines_returns metadata lines : returns (extract_lines metadata lines).
Proof.
  revert metadata. induction lines as [|line lines IH]; intros metadata; simpl.
  - by eexists.
  - destruct (_extract_metadata_from_line_returns metadata line) as [md1 ->].
    rewrite bind_Ok_l. apply IH.
Qed.

Lemma extract_number_spec found current r :
  extract_number found current = Ok r ->
  match current with
  | Some x => r = Some x
  | None => number_of found r
  end.
Proof.
  destruct found as [g|], current as [x|]; simpl; try by intros [= <-].
  intros H. apply bind_Ok in H as (v & Hv & [= <-]). by exists v.
Qed.

Lemma number_chain found current r rest r' :
  match current with Some x => r = Some x | None => number_of found r end ->
  match r with Some x => r' = Some x | None => number_of rest r' end ->
  match current with
  | Some x => r' = Some x
  | None => number_of (match found with Some g => Some g | None => rest end) r'
  end.
Proof.
  destruct current as [x|].
  - by intros ->.
  - destruct found as [g|]; simpl.
    + intros (v & Hv & ->) ->. by exists v.
    + by intros ->.
Qed.

Lemma head_omap_cons {A B} (f : A -> option B) (x : A) (l : list A) :
  head (omap f (x :: l))
  = match f x with Some y => Some y | None => head (omap f l) end.
Proof. simpl. by destruct (f x). Qed.

Lemma extract_lines_spec metadata lines metadata' :
  extract_lines metadata lines = Ok metadata' ->
  md_filament_type metadata'
  = match md_filament_type metadata with
    | Some x => Some x
    | None => (fun g => upper (string_of_list_ascii g))
                <$> head (omap FILAMENT_TYPE_PATTERN_search lines)
    end
  /\ match md_filament_diameter metadata with
     | Some x => md_filament_diameter metadata' = Some x
     | None => number_of (head (omap FILAMENT_DIAMETER_PATTERN_search lines))
                         (md_filament_diameter metadata')
     end
  /\ match md_layer_height metadata with
     | Some x => md_layer_height metadata' = Some x
     | None => number_of (head (omap LAYER_HEIGHT_PATTERN_search lines))
                         (md_layer_height metadata')
     end
  /\ match md_line_width metadata with
     | Some x => md_line_width metadata' = Some x
     | None => number_of (head (omap LINE_WIDTH_PATTERN_search lines))
                         (md_line_width metadata')
     end.
Proof.
  revert metadata. induction lines as [|line lines IH]; intros metadata.
  - intros [= <-]. split; [by destruct (md_filament_type metadata)|].
    split; [by destruct (md_filament_diameter metadata)|].
    split; [by destruct (md_layer_height metadata) | by destruct (md_line_width metadata)].
  - intros H. change (extract_lines metadata (line :: lines))
      with (md1 ← _extract_metadata_from_line metadata line; extract_lines md1 lines) in H.
    apply bind_Ok in H as (md1 & Hstep & H).
    apply IH in H as (T & D & Lh & Lw).
    unfold _extract_metadata_from_line in Hstep.
    apply bind_Ok in Hstep as (fd & Hfd & Hstep).
    apply bind_Ok in Hstep as (lh & Hlh & Hstep).
    apply bind_Ok in Hstep as (lw & Hlw & [= <-]).
    apply extract_number_spec in Hfd, Hlh, Hlw.
    cbn [md_filament_type md_filament_diameter md_layer_height md_line_width] in *.
    rewrite !head_omap_cons. split; [|split; [|split]].
    + rewrite T. destruct (md_filament_type metadata) as [x|]; [by destruct (FILAMENT_TYPE_PATTERN_search line)|].
      by destruct (FILAMENT_TYPE_PATTERN_search line).
    + exact (number_chain _ _ _ _ _ Hfd D).
    + exact (number_chain _ _ _ _ _ Hlh Lh).
    + exact (number_chain _ _ _ _ _ Hlw Lw).
Qed.

(** X20 — [parse_metadata] never raises, and each entry of the dictionary it
    returns is made from the first match of its pattern among the lines
    with the indices 0 to 500 (501 lines, one more than the comment of the
    loop says), or is [None] when none of them has a match: the filament
    type is the matched word in upper case, a numeric entry is the number
    [float] reads from the captured text. *)
Theorem parse_metadata_first_match (lines : list (list ascii)) :
  exists metadata,
    parse_metadata lines = Ok metadata
    /\ md_filament_type metadata
       = (fun g => upper (string_of_list_ascii g))
           <$> first_match FILAMENT_TYPE_PATTERN_search lines
    /\ number_of (first_match FILAMENT_DIAMETER_PATTERN_search lines)
                 (md_filament_diameter metadata)
    /\ number_of (first_match LAYER_HEIGHT_PATTERN_search lines)
                 (md_layer_height metadata)
    /\ number_of (first_match LINE_WIDTH_PATTERN_search lines)
                 (md_line_width metadata).
Proof.
  unfold parse_metadata, first_match.
  destruct (extract_lines_returns no_metadata (take 501 lines)) as [md Hmd].
  exists md. split; [done|]. exact (extract_lines_spec _ _ _ Hmd).
Qed.

(** ** The whole of [main] *)

(** X21 — a run of [main] without [--no-comments] that comes to its end
    writes one line for every line of the file, in the order of the file, and
    writes a line that is no [G0] or [G1] command, or has no extrusion
    field, as it was read: the metadata and the setup of the engine decide
    by how much an extruding move is changed, not which lines are
    written. *)
Theorem main_writes_every_line (math_sqrt : Q -> Q) (cfg : Config)
        (detection_filament_diameter : option Q) (args_material : option string)
        (lines outs : list (list ascii)) :
  main math_sqrt cfg detection_filament_diameter args_material false lines = Ok outs ->
  length outs = length lines
  /\ forall (i : nat) line,
      lines !! i = Some line -> passes_through line -> outs !! i = Some line.
Proof.
  unfold main. intros H.
  apply bind_Ok in H as (md & _ & H). cbv zeta in H.
  apply bind_Ok in H as ([hm c] & _ & H).
  apply bind_Ok in H as (d & Hd & [= <-]).
  apply main_loop_output in Hd as (outs & Hout & Hlen & Hsame).
  simpl in Hout. rewrite Hout. done.
Qed.

Lemma main_writes_every_line_witness :
  length test_output = length test_lines
  /\ forall (i : nat) line,
      test_lines !! i = Some line -> passes_through line -> test_output !! i = Some line.
Proof.
  apply (main_writes_every_line (fun q => q) test_config None None test_lines test_output).
  vm_compute. reflexivity.
Defined.

(** ** The totals of the statistics *)

Lemma stats_sum_fresh f st i ts :
  st !! i = None -> stats_sum f (<[i := ts]> st) = (f ts + stats_sum f st)%Z.
Proof.
  intros Hi. unfold stats_sum.
  rewrite (map_fold_insert_L (fun _ s n => (f s + n)%Z)); [done | | done].
  intros. lia.
Qed.

Lemma stats_sum_insert f st i ts ts' :
  st !! i = Some ts ->
  stats_sum f (<[i := ts']> st) = (stats_sum f st - f ts + f ts')%Z.
Proof.
  intros Hi.
  rewrite <- (insert_delete_id st i ts Hi) at 2.
  rewrite <- (insert_delete_eq st i ts').
  rewrite !stats_sum_fresh by apply lookup_delete_eq. lia.
Qed.

Lemma stats_sum_zero f st :
  (forall t ts, st !! t = Some ts -> f ts = 0%Z) -> stats_sum f st = 0%Z.
Proof.
  induction st as [|i ts st Hi IH] using map_ind; intros H.
  - apply map_fold_empty.
  - rewrite stats_sum_fresh by done. rewrite IH.
    + rewrite (H i ts); [done | by rewrite lookup_insert_eq].
    + intros t ts' Ht. apply (H t ts'). rewrite lookup_insert_ne; [done|].
      intros <-. congruence.
Qed.

Lemma load_material_profile_new_stats self material_type tool_num self' :
  load_material_profile self material_type tool_num = Ok self' ->
  (forall t ts, stats self !! t = Some ts -> ts = new_stats) ->
  forall t ts, stats self' !! t = Some ts -> ts = new_stats.
Proof.
  unfold load_material_profile. intros H Hnew.
  destruct (if negb _ then _ else _) as [[p|] name]; [|discriminate].
  destruct (profile_truthy p); [|discriminate].
  apply bind_Ok in H as (sp & _ & H). injection H as <-.
  unfold _init_stats_for_tool. cbn [stats].
  destruct (stats self !! tool_num) eqn:E; cbn [stats with_stats]; [exact Hnew|].
  intros t ts. rewrite lookup_insert. case_decide; [by intros [= <-] | apply Hnew].
Qed.

Lemma load_mapping_items_new_stats self items self' :
  load_mapping_items self items = Ok self' ->
  (forall t ts, stats self !! t = Some ts -> ts = new_stats) ->
  forall t ts, stats self' !! t = Some ts -> ts = new_stats.
Proof.
  revert self. induction items as [|[tool_str mat] items IH]; intros self; simpl.
  - by intros [= <-].
  - destruct (upper tool_str) as [|c u]; [apply IH|].
    destruct (Ascii.eqb_spec c "T") as [->|Hne].
    + destruct (py_int _) as [n|e]; simpl.
      * destruct (load_material_profile self (Some mat) n) as [s1|e] eqn:E.
        -- intros H Hnew. eapply IH; [exact H|].
           by eapply load_material_profile_new_stats.
        -- destruct e; [apply IH | done | done].
      * destruct e; [apply IH | done | done].
    + destruct c as [[] [] [] [] [] [] [] []]; try apply IH; done.
Qed.

Lemma main_setup_new_stats cfg material diameter no_comments has_multi c0 :
  main_setup cfg material diameter no_comments = Ok (has_multi, c0) ->
  forall t ts, stats c0 !! t = Some ts -> ts = new_stats.
Proof.
  unfold main_setup. intros H.
  apply bind_Ok in H as ([hm c] & Hmap & H). apply bind_Ok in H as (c1 & Hc1 & [= <- <-]).
  assert (Hinit : forall t ts, stats (__init__ cfg) !! t = Some ts -> ts = new_stats).
  { intros t ts. change (stats (__init__ cfg)) with (<[0%Z := new_stats]> (∅ : gmap Z Stats)).
    rewrite lookup_insert. case_decide; [by intros [= <-] | by rewrite lookup_empty]. }
  assert (Hc : forall t ts, stats c !! t = Some ts -> ts = new_stats).
  { unfold load_extruder_mapping in Hmap.
    destruct (extruder_mapping _) as [|it items].
    - by injection Hmap as _ <-.
    - apply bind_Ok in Hmap as (s1 & H1 & [= _ <-]).
      by eapply load_mapping_items_new_stats. }
  assert (Hc1' : forall t ts, stats c1 !! t = Some ts -> ts = new_stats).
  { destruct hm.
    - destruct (min_key (tool_profiles c)) as [t0|]; [|done]. by injection Hc1 as <-.
    - apply bind_Ok in Hc1 as (c2 & Hload & Hbuild).
      assert (forall t ts, stats c2 !! t = Some ts -> ts = new_stats) as Hc2
          by (destruct (str_truthy _); by eapply load_material_profile_new_stats).
      unfold build_spline in Hbuild. destruct (0 <? size (tool_profiles c2))%nat.
      + by injection Hbuild as <-.
      + by eapply load_material_profile_new_stats. }
  by destruct no_comments.
Qed.

Lemma parse_move_extruding math_sqrt line pos fr mi pos' fr' :
  parse_move math_sqrt line pos fr = Ok (mi, pos', fr') ->
  extruding line = match mi with Some _ => true | None => false end.
Proof.
  unfold parse_move, extruding. destruct (G1_PATTERN_match line); simpl.
  - intros H. apply bind_Ok in H as (fr1 & _ & H). apply bind_Ok in H as (new_pos & _ & H).
    destruct (re_search is_E line) as [[[[pre l] g] post]|]; [|by injection H as <-].
    apply bind_Ok in H as (e & -> & H). destruct (Qeq_bool e 0); by injection H as <-.
  - by intros [= <-].
Qed.

Section Totals.

Variable math_sqrt : Q -> Q.

Lemma main_step_totals has_multi d line d' :
  main_step math_sqrt has_multi d line = Ok d' ->
  let n := (if extruding line then 1 else 0)%Z in
  print_statistics_total_moves (compensator d')
  = (print_statistics_total_moves (compensator d) + n)%Z
  /\ (print_statistics_total_comp (compensator d)
      <= print_statistics_total_comp (compensator d')
      <= print_statistics_total_comp (compensator d) + n)%Z.
Proof.
  unfold main_step, print_statistics_total_moves, print_statistics_total_comp.
  destruct (tool_switch has_multi (compensator d) line) as [t|] eqn:Hsw.
  - intros [= <-]. cbn [compensator stats set_active_tool].
    unfold tool_switch in Hsw.
    destruct (TOOL_CHANGE_PATTERN_match (strip line)) as [digits|] eqn:Hm; [|done].
    unfold extruding. rewrite (tool_line_not_move _ _ Hm). simpl. lia.
  - intros H. apply bind_Ok in H as ([[mi np] nf] & Hp & H).
    apply parse_move_extruding in Hp as ->. destruct mi as [mi|].
    + apply bind_Ok in H as ([cl c] & Hc & [= <-]). cbn [compensator].
      apply compensate_line_stats in Hc
        as (fr & ts & ts' & _ & Hts & -> & Htot & _ & _ & _ & _ & _ & Hcomp).
      cbn [stats with_stats].
      rewrite !(stats_sum_insert _ _ _ ts ts' Hts), Htot.
      destruct Hcomp as [[-> _]| ->]; lia.
    + injection H as <-. simpl. lia.
Qed.

Lemma main_loop_totals has_multi lines d d' :
  main_loop math_sqrt has_multi d lines = Ok d' ->
  let n := Z.of_nat (length (List.filter extruding lines)) in
  print_statistics_total_moves (compensator d')
  = (print_statistics_total_moves (compensator d) + n)%Z
  /\ (print_statistics_total_comp (compensator d)
      <= print_statistics_total_comp (compensator d')
      <= print_statistics_total_comp (compensator d) + n)%Z.
Proof.
  revert d. induction lines as [|line lines IH]; intros d; simpl.
  - intros [= <-]. lia.
  - intros H. apply bind_Ok in H as (d1 & Hstep & H).
    apply main_step_totals in Hstep. apply IH in H. cbv zeta in *.
    destruct (extruding line); simpl length; lia.
Qed.

(** X22 — the totals [print_statistics] reports after a run of [main]: the
    total of the moves, across the tools, is the number of extruding lines
    of the file (the [G0] and [G1] commands whose first extrusion field is
    not 0); every one is counted once, for the tool active at its line, and
    the total of the compensated moves is at most that. *)
Theorem main_counts_extruding_moves (cfg : Config) (material : option string)
        (diameter : Q) (no_comments has_multi : bool) (c0 : FlowCompensator)
        (lines : list (list ascii)) (d : Driver) :
  main_setup cfg material diameter no_comments = Ok (has_multi, c0) ->
  main_loop math_sqrt has_multi (initial_driver c0) lines = Ok d ->
  print_statistics_total_moves (compensator d)
  = Z.of_nat (length (List.filter extruding lines))
  /\ (0 <= print_statistics_total_comp (compensator d)
      <= print_statistics_total_moves (compensator d))%Z.
Proof.
  intros Hsetup Hloop. apply main_loop_totals in Hloop. cbv zeta in Hloop.
  pose proof (main_setup_new_stats _ _ _ _ _ _ Hsetup) as Hnew.
  cbn [compensator initial_driver] in Hloop.
  unfold print_statistics_total_moves, print_statistics_total_comp in *.
  rewrite (stats_sum_zero total_moves (stats c0)) in Hloop
    by (intros t ts Ht; by rewrite (Hnew t ts Ht)).
  rewrite (stats_sum_zero compensated_moves (stats c0)) in Hloop
    by (intros t ts Ht; by rewrite (Hnew t ts Ht)).
  lia.
Qed.

End Totals.

Lemma main_counts_extruding_moves_witness :
  print_statistics_total_moves (compensator test_run)
  = Z.of_nat (length (List.filter extruding test_lines))
  /\ (0 <= print_statistics_total_comp (compensator test_run)
      <= print_statistics_total_moves (compensator test_run))%Z.
Proof.
  apply (main_counts_extruding_moves (fun q => q) test_config (Some "petg"%string) 1.75
           false false petg_main_engine test_lines test_run).
  - vm_compute. reflexivity.
  - vm_compute. reflexivity.
Defined.
